(** * Fallen Tweaks: a shallow embedding of the extension's core

    The development follows the TypeScript sources:
    - [Constants], [Storage]: [src/shared/constants.ts], [src/shared/storage.ts];
    - [PlainObject]: reading and writing a property of a plain object;
    - [Manager]: the content script's [ModuleManager] class;
    - [QualityFavourites], [CardFavourites]: the list and map the two
      preference units keep and persist;
    - [JS]: the built-ins of the language that [bazaar-total.ts] calls,
      after ECMA-262: IEEE 754 binary64 numbers (the [spec_float] of the
      Standard Library, with precision 53 and maximal exponent 1024) and
      strings as sequences of UTF-16 code units;
    - [BazaarTotal]: the parsing, summing and formatting functions of
      [src/content/modules/bazaar-total.ts];
    - [BazaarPage]: the scrip price parser of the same file and the loop
      that reads the items of the page;
    - [Cents]: prices in hundredths, and the rational value of a double,
      for the error analysis of the Echo total;
    - [ServiceWorker], [ContentScript]: the listener of
      [src/background/service-worker.ts] and the start of
      [src/content/index.ts].

    The own properties of a persisted object used as a map are a [gmap]
    (the properties it inherits are those of [PlainObject]), the set of
    active modules is a [gset], arrays are lists.  Identifiers are compared
    only for equality (and for being the empty string, which JavaScript
    treats as falsy), so they are [string]s. *)

From Stdlib Require Import ZArith List Bool Ascii String Lia.
From Stdlib Require Import Floats.SpecFloat.
From Stdlib Require Import QArith Qpower Lqa.
From stdpp Require Import base option list gmap strings sets.

Open Scope string_scope.
Open Scope list_scope.

(** ** src/shared/constants.ts *)

Module Constants.

Record ModuleInfo := mkModuleInfo {
  id : string;
  name : string;
  description : string
}.

Definition MODULE_REGISTRY : list ModuleInfo :=
  [ mkModuleInfo "bazaar-total" "Bazaar Total Value"
      "Shows the total value of your items when selling at the Bazaar.";
    mkModuleInfo "card-favourites" "Opportunity Card Favourites"
      "Mark opportunity cards as favourites or ones to avoid. Favourites are highlighted; avoided cards are dimmed.";
    mkModuleInfo "quality-favourites" "Quality Favourites"
      "Pin your favourite qualities to the top of each category list for quick access." ].

End Constants.

(** ** Plain objects used as maps

    [moduleStates] and [cardPreferences] are plain objects: the literal
    [{}], or what [chrome.storage] gives back.  Their own properties are a
    [gmap]; a key that is not an own property is looked up in
    [Object.prototype].  The values stored are primitives (booleans,
    strings). *)

Module PlainObject.

(** The property names of [Object.prototype]. *)
Definition Object_prototype_keys : list string :=
  [ "constructor"; "__defineGetter__"; "__defineSetter__"; "hasOwnProperty";
    "__lookupGetter__"; "__lookupSetter__"; "isPrototypeOf";
    "propertyIsEnumerable"; "toString"; "valueOf"; "__proto__"; "toLocaleString" ].

Definition inherited (key : string) : bool :=
  bool_decide (key ∈ Object_prototype_keys).

(** What [o[key]] evaluates to: the own property; or the property of the
    prototype, which is a function or, for [__proto__], the prototype
    itself; or [undefined]. *)
Inductive Read (A : Type) :=
| own (a : A)
| from_prototype (key : string)
| undefined.
Arguments own {A} a.
Arguments from_prototype {A} key.
Arguments undefined {A}.

#[global] Instance Read_eq_dec {A} `{EqDecision A} : EqDecision (Read A).
Proof. solve_decision. Defined.

Definition get {A} (o : gmap string A) (key : string) : Read A :=
  match o !! key with
  | Some a => own a
  | None => if inherited key then from_prototype key else undefined
  end.

(** Is the value truthy: an object is, [undefined] is not. *)
Definition truthy (r : Read bool) : bool :=
  match r with
  | own b => b
  | from_prototype _ => true
  | undefined => false
  end.

(** [r ?? false]: an object is not nullish. *)
Definition orFalse (r : Read bool) : Read bool :=
  match r with
  | undefined => own false
  | _ => r
  end.

Definition truthyAt (o : gmap string bool) (key : string) : bool :=
  truthy (get o key).

(** [o[key] = v] for a primitive [v]: an own property is created or
    updated, except that [__proto__], when it is not an own property, is the
    setter of the prototype, which ignores a primitive. *)
Definition assign {A} (key : string) (v : A) (o : gmap string A) : gmap string A :=
  if bool_decide (key = "__proto__") && bool_decide (o !! key = None) then o
  else <[key := v]> o.

End PlainObject.

(** ** src/shared/storage.ts

    [chrome.storage.sync] holds at most the three keys of [StorageSchema];
    a key that was never written is absent ([None]).  The asynchronous
    calls of one function are awaited one after the other, so a function is
    a transformation of the store. *)

Module Storage.

Inductive CardPref := favourite | avoid.

#[global] Instance CardPref_eq_dec : EqDecision CardPref.
Proof. solve_decision. Defined.

Inductive StorageKey := moduleStates | cardPreferences | favouriteQualities.

Definition StorageSchema (key : StorageKey) : Type :=
  match key with
  | moduleStates => gmap string bool
  | cardPreferences => gmap string CardPref
  | favouriteQualities => list string
  end.

(** The content of [chrome.storage.sync]. *)
Record Store := mkStore {
  stored_moduleStates : option (gmap string bool);
  stored_cardPreferences : option (gmap string CardPref);
  stored_favouriteQualities : option (list string)
}.

Definition emptyStore : Store := mkStore None None None.

(** [chrome.storage.sync.get(key)], read at [key]: [result[key]]. *)
Definition sync_get (key : StorageKey) (store : Store) : option (StorageSchema key) :=
  match key with
  | moduleStates => stored_moduleStates store
  | cardPreferences => stored_cardPreferences store
  | favouriteQualities => stored_favouriteQualities store
  end.

(** [chrome.storage.sync.set({ [key]: value })]. *)
Definition sync_set (key : StorageKey) : StorageSchema key -> Store -> Store :=
  match key with
  | moduleStates => fun value store =>
      mkStore (Some value) (stored_cardPreferences store) (stored_favouriteQualities store)
  | cardPreferences => fun value store =>
      mkStore (stored_moduleStates store) (Some value) (stored_favouriteQualities store)
  | favouriteQualities => fun value store =>
      mkStore (stored_moduleStates store) (stored_cardPreferences store) (Some value)
  end.

Definition getDefault (key : StorageKey) : StorageSchema key :=
  match key with
  | moduleStates => (∅ : gmap string bool)
  | cardPreferences => (∅ : gmap string CardPref)
  | favouriteQualities => ([] : list string)
  end.

(** [(result[key] as ... | undefined) ?? getDefault(key)] *)
Definition getStorage (key : StorageKey) (store : Store) : StorageSchema key :=
  match sync_get key store with
  | Some value => value
  | None => getDefault key
  end.

Definition setStorage (key : StorageKey) (value : StorageSchema key)
    (store : Store) : Store :=
  sync_set key value store.

(** [states[moduleId] ?? false] *)
Definition isModuleEnabled (moduleId : string) (store : Store) : PlainObject.Read bool :=
  let states := getStorage moduleStates store in
  PlainObject.orFalse (PlainObject.get states moduleId).

(** [!states[moduleId]], [states[moduleId] = newState], and the write of
    [states]. *)
Definition toggleModule (moduleId : string) (store : Store) : Store * bool :=
  let states := getStorage moduleStates store in
  let newState := negb (PlainObject.truthy (PlainObject.get states moduleId)) in
  (setStorage moduleStates (PlainObject.assign moduleId newState states) store, newState).

Definition setModuleEnabled (moduleId : string) (enabled : bool)
    (store : Store) : Store :=
  let states := getStorage moduleStates store in
  setStorage moduleStates (PlainObject.assign moduleId enabled states) store.

(** The loop [for (const mod of registry) result[mod.id] = states[mod.id] ?? false],
    for a registry whose ids are not property names of [Object.prototype],
    as those of [MODULE_REGISTRY]: the read is then the own property or
    [undefined], and the write creates or updates an own property. *)
Definition fillStates (registry : list Constants.ModuleInfo)
    (states : gmap string bool) : gmap string bool :=
  foldl (fun result m =>
           <[Constants.id m := default false (states !! Constants.id m)]> result)
        ∅ registry.

Definition getAllModuleStates (store : Store) : gmap string bool :=
  let states := getStorage moduleStates store in
  fillStates Constants.MODULE_REGISTRY states.

(** The loop [for (const mod of registry) defaults[mod.id] = false]. *)
Definition allDisabled (registry : list Constants.ModuleInfo) : gmap string bool :=
  foldl (fun defaults m => <[Constants.id m := false]> defaults) ∅ registry.

(** [if (!result.moduleStates) { ... set({moduleStates, cardPreferences,
    favouriteQualities}) }]: a stored object is truthy, also when empty, so
    the guard is exactly "the key is absent". *)
Definition initializeStorage (store : Store) : Store :=
  match sync_get moduleStates store with
  | Some _ => store
  | None =>
      let defaults := allDisabled Constants.MODULE_REGISTRY in
      mkStore (Some defaults) (Some ∅) (Some [])
  end.

End Storage.

(** Change notification payload of [chrome.storage.onChanged]. *)
Module Events.

Record StorageChange (A : Type) := mkChange {
  oldValue : option A;
  newValue : option A
}.
Arguments mkChange {A} _ _.
Arguments oldValue {A} _.
Arguments newValue {A} _.

Record Changes := mkChanges {
  moduleStates : option (StorageChange (gmap string bool));
  cardPreferences : option (StorageChange (gmap string Storage.CardPref));
  favouriteQualities : option (StorageChange (list string))
}.

Inductive AreaName := sync | local | managed | session.

End Events.

(** ** The content script's [ModuleManager]

    Statements run in a state-and-exception monad: a computation returns
    the new state and either a value or the thrown error, so [try]/[catch]
    is a combinator and "no exception escapes" is a statement about the
    result.  [await] suspends [enableModule]: the rest of its [try] block
    is a continuation.  When the awaited value is not a promise, or is a
    promise that has settled, [settle] (the next checkpoint of the job
    queue) resumes it.  When it is a promise that is still pending, as the
    one the [async enable()] of a unit returns while it waits for the
    storage, the continuation stays parked, over any number of events,
    until the environment settles the promise ([settlePending]). *)

Module Manager.

(** How a call of [disable()] ends. *)
Inductive Completion := Returns | Throws (err : string).

(** How an awaited value settles: fulfilled, or rejected. *)
Inductive Awaited := Fulfilled | Rejected (err : string).

(** How the call [module.enable()] ends: it throws; or it returns a value
    that has settled by the next checkpoint (no promise, or a promise
    fulfilled or rejected by then); or it returns a promise that is still
    pending at that checkpoint. *)
Inductive EnableCompletion :=
| EnableThrows (err : string)
| EnableReturns (p : Awaited)
| EnablePending.

Inductive ConsoleEntry :=
| warn_already_registered (id : string)
| log_enabled (id : string)
| error_failed_to_enable (id err : string)
| log_disabled (id : string)
| error_failed_to_disable (id err : string).

(** Ghost record of the routines the manager has invoked. *)
Inductive Call := call_enable (id : string) | call_disable (id : string).

#[global] Instance Call_eq_dec : EqDecision Call.
Proof. solve_decision. Defined.

Inductive result (A : Type) := Normal (a : A) | Abrupt (err : string).
Arguments Normal {A} a.
Arguments Abrupt {A} err.

Section WithPage.

(** Everything the routines of a feature unit act on: the document, its
    observers, timers and caches. *)
Variable Page : Type.

(** [FeatureModule] of [modules/types.ts]. *)
Record FeatureModule := mkFeatureModule {
  id : string;
  enable : Page -> Page * EnableCompletion;
  disable : Page -> Page * Completion
}.

(** The suspended rest of [enableModule(module)]: the awaited value has
    settled as [p], or it is a pending promise. *)
Inductive Continuation :=
| after_enable (module : FeatureModule) (p : Awaited)
| awaiting_enable (module : FeatureModule).

Definition pending (k : Continuation) : bool :=
  match k with
  | awaiting_enable _ => true
  | after_enable _ _ => false
  end.

Record State := mkState {
  page : Page;
  modules : list (string * FeatureModule);   (* Map, in insertion order *)
  activeModules : gset string;                (* Set *)
  console : list ConsoleEntry;
  calls : list Call;
  suspended : list Continuation;
  listening : bool
}.

Definition M (A : Type) : Type := State -> State * result A.

Definition ret {A} (a : A) : M A := fun s => (s, Normal a).

Definition bind {A B} (c : M A) (k : A -> M B) : M B :=
  fun s => match c s with
           | (s', Normal a) => k a s'
           | (s', Abrupt err) => (s', Abrupt err)
           end.

Definition throw {A} (err : string) : M A := fun s => (s, Abrupt err).

Definition try_catch {A} (body : M A) (handler : string -> M A) : M A :=
  fun s => match body s with
           | (s', Normal a) => (s', Normal a)
           | (s', Abrupt err) => handler err s'
           end.

Definition gets {A} (f : State -> A) : M A := fun s => (s, Normal (f s)).
Definition modify (f : State -> State) : M unit := fun s => (f s, Normal tt).

Notation "'let!' x ':=' c 'in' k" := (bind c (fun x => k))
  (at level 10, x name, c at level 99, k at level 200).
Notation "c '>>' k" := (bind c (fun _ => k))
  (at level 100, k at level 200, right associativity).

Fixpoint for_of {X} (l : list X) (body : X -> M unit) : M unit :=
  match l with
  | [] => ret tt
  | x :: l' => body x >> for_of l' body
  end.

Definition set_page (pg : Page) (s : State) : State :=
  mkState pg (modules s) (activeModules s) (console s) (calls s) (suspended s) (listening s).
Definition set_modules (ms : list (string * FeatureModule)) (s : State) : State :=
  mkState (page s) ms (activeModules s) (console s) (calls s) (suspended s) (listening s).
Definition set_activeModules (a : gset string) (s : State) : State :=
  mkState (page s) (modules s) a (console s) (calls s) (suspended s) (listening s).
Definition set_console (c : list ConsoleEntry) (s : State) : State :=
  mkState (page s) (modules s) (activeModules s) c (calls s) (suspended s) (listening s).
Definition set_calls (c : list Call) (s : State) : State :=
  mkState (page s) (modules s) (activeModules s) (console s) c (suspended s) (listening s).
Definition set_suspended (k : list Continuation) (s : State) : State :=
  mkState (page s) (modules s) (activeModules s) (console s) (calls s) k (listening s).
Definition set_listening (b : bool) (s : State) : State :=
  mkState (page s) (modules s) (activeModules s) (console s) (calls s) (suspended s) b.

(** [console.log], [console.warn], [console.error] *)
Definition console_write (e : ConsoleEntry) : M unit :=
  modify (fun s => set_console (console s ++ [e]) s).

(** [this.modules.has(id)] and [this.modules.set(id, module)] *)
Definition modules_has (i : string) : M bool :=
  gets (fun s => existsb (fun entry => bool_decide (fst entry = i)) (modules s)).

Fixpoint map_set (i : string) (module : FeatureModule)
    (ms : list (string * FeatureModule)) : list (string * FeatureModule) :=
  match ms with
  | [] => [(i, module)]
  | (j, old) :: ms' =>
      if bool_decide (j = i) then (j, module) :: ms' else (j, old) :: map_set i module ms'
  end.

Definition modules_set (i : string) (module : FeatureModule) : M unit :=
  modify (fun s => set_modules (map_set i module (modules s)) s).

(** [this.activeModules.has], [.add], [.delete] *)
Definition activeModules_has (i : string) : M bool :=
  gets (fun s => bool_decide (i ∈ activeModules s)).
Definition activeModules_add (i : string) : M unit :=
  modify (fun s => set_activeModules (activeModules s ∪ {[i]}) s).
Definition activeModules_delete (i : string) : M unit :=
  modify (fun s => set_activeModules (activeModules s ∖ {[i]}) s).

(** The call [module.enable()]: the routine acts on the page; a throw leaves
    the [try] block at once. *)
Definition invoke_enable (module : FeatureModule) : M Continuation :=
  fun s =>
    let '(pg, c) := enable module (page s) in
    let s' := set_calls (calls s ++ [call_enable (id module)]) (set_page pg s) in
    match c with
    | EnableThrows err => (s', Abrupt err)
    | EnableReturns p => (s', Normal (after_enable module p))
    | EnablePending => (s', Normal (awaiting_enable module))
    end.

(** The call [module.disable()]. *)
Definition invoke_disable (module : FeatureModule) : M unit :=
  fun s =>
    let '(pg, c) := disable module (page s) in
    let s' := set_calls (calls s ++ [call_disable (id module)]) (set_page pg s) in
    match c with
    | Throws err => (s', Abrupt err)
    | Returns => (s', Normal tt)
    end.

(** [await p], first half: park the rest of the function. *)
Definition suspend (k : Continuation) : M unit :=
  modify (fun s => set_suspended (suspended s ++ [k]) s).

(** [await p], second half: the awaited value comes back, or its rejection
    is thrown at the [await]. *)
Definition awaited (p : Awaited) : M unit :=
  match p with
  | Fulfilled => ret tt
  | Rejected err => throw err
  end.

Definition register (module : FeatureModule) : M unit :=
  let! registered := modules_has (id module) in
  if (registered : bool) then console_write (warn_already_registered (id module))
  else modules_set (id module) module.

Definition enableModule_catch (module : FeatureModule) (err : string) : M unit :=
  console_write (error_failed_to_enable (id module) err).

(** [enableModule] up to its [await]. *)
Definition enableModule (module : FeatureModule) : M unit :=
  let! active := activeModules_has (id module) in
  if (active : bool) then ret tt
  else
    try_catch
      (let! k := invoke_enable module in
       suspend k)
      (enableModule_catch module).

(** [enableModule] from its [await] on, still inside the [try] block; on a
    pending promise it goes on waiting. *)
Definition resume (k : Continuation) : M unit :=
  match k with
  | after_enable module p =>
      try_catch
        (awaited p >>
         activeModules_add (id module) >>
         console_write (log_enabled (id module)))
        (enableModule_catch module)
  | awaiting_enable module => suspend k
  end.

(** A checkpoint of the job queue: every parked continuation whose awaited
    value has settled runs, in the order in which it was parked; the others
    stay parked, in their order. *)
Definition settle : M unit :=
  let! ks := gets suspended in
  modify (set_suspended []) >>
  for_of ks resume.

Definition disableModule (module : FeatureModule) : M unit :=
  let! active := activeModules_has (id module) in
  if negb active then ret tt
  else
    try_catch
      (invoke_disable module >>
       activeModules_delete (id module) >>
       console_write (log_disabled (id module)))
      (fun err => console_write (error_failed_to_disable (id module) err)).

(** The environment settles the pending promise of the [n]-th parked call
    of [enableModule]: what was left of [enable()] has run and left the page
    [pg], the promise is fulfilled or rejected as [p], and the call
    resumes.  Nothing happens when the [n]-th parked call is not waiting
    for a pending promise. *)
Definition settlePending (n : nat) (pg : Page) (p : Awaited) : M unit :=
  let! ks := gets suspended in
  match ks !! n with
  | Some (awaiting_enable module) =>
      modify (fun s => set_page pg (set_suspended (delete n ks) s)) >>
      resume (after_enable module p)
  | _ => ret tt
  end.

(** The body of the loop of the change listener, for one entry of
    [this.modules]: [oldStates[id] ?? false] and [newStates[id] ?? false]
    are used for their truthiness. *)
Definition applyChange (oldStates newStates : gmap string bool)
    (entry : string * FeatureModule) : M unit :=
  let '(i, module) := entry in
  let wasEnabled := PlainObject.truthyAt oldStates i in
  let isEnabled := PlainObject.truthyAt newStates i in
  if isEnabled && negb wasEnabled then enableModule module
  else if negb isEnabled && wasEnabled then disableModule module
  else ret tt.

(** The callback given to [onStorageChanged]. *)
Definition onChanged (changes : Events.Changes) : M unit :=
  match Events.moduleStates changes with
  | None => ret tt
  | Some change =>
      match Events.newValue change with
      | None => ret tt
      | Some newStates =>
          let oldStates := default ∅ (Events.oldValue change) in
          let! ms := gets modules in
          for_of ms (applyChange oldStates newStates)
      end
  end.

(** [initialize], after its [await getStorage("moduleStates")] returned
    [states]: [if (states[id])]. *)
Definition initialize (states : gmap string bool) : M unit :=
  let! ms := gets modules in
  for_of ms (fun entry =>
    let '(i, module) := entry in
    if PlainObject.truthyAt states i then enableModule module else ret tt) >>
  modify (set_listening true).

(** One storage event reaching this context: the listener of
    [onStorageChanged] filters on the area, the callback runs, and the
    checkpoint of the job queue follows. *)
Definition deliver (areaName : Events.AreaName) (changes : Events.Changes) : M unit :=
  let! on := gets listening in
  (if (on : bool) then
     match areaName with
     | Events.sync => onChanged changes
     | _ => ret tt
     end
   else ret tt) >>
  settle.

(** A fresh [new ModuleManager()]. *)
Definition newManager (pg : Page) : State :=
  mkState pg [] ∅ [] [] [] false.

(** Number of times [enable()] of unit [i] has been invoked. *)
Definition enable_count (i : string) (s : State) : nat :=
  length (filter (fun c => c = call_enable i) (calls s)).

Definition disable_count (i : string) (s : State) : nat :=
  length (filter (fun c => c = call_disable i) (calls s)).

End WithPage.

Arguments mkFeatureModule {Page}.
Arguments id {Page}.
Arguments enable {Page}.
Arguments disable {Page}.
Arguments after_enable {Page}.
Arguments awaiting_enable {Page}.
Arguments pending {Page}.
Arguments mkState {Page}.
Arguments page {Page}.
Arguments modules {Page}.
Arguments activeModules {Page}.
Arguments console {Page}.
Arguments calls {Page}.
Arguments suspended {Page}.
Arguments listening {Page}.
Arguments ret {Page A}.
Arguments bind {Page A B}.
Arguments throw {Page A}.
Arguments try_catch {Page A}.
Arguments for_of {Page X}.
Arguments register {Page}.
Arguments enableModule {Page}.
Arguments resume {Page}.
Arguments settle {Page}.
Arguments settlePending {Page}.
Arguments disableModule {Page}.
Arguments applyChange {Page}.
Arguments onChanged {Page}.
Arguments initialize {Page}.
Arguments deliver {Page}.
Arguments newManager {Page}.
Arguments enable_count {Page}.
Arguments disable_count {Page}.
Arguments invoke_enable {Page}.
Arguments invoke_disable {Page}.
Arguments set_page {Page}.
Arguments set_modules {Page}.
Arguments set_activeModules {Page}.
Arguments set_console {Page}.
Arguments set_calls {Page}.
Arguments set_suspended {Page}.
Arguments set_listening {Page}.

End Manager.

(** ** src/content/modules/quality-favourites.ts: the pinned list

    The unit keeps the pinned ids in [favouriteIds] and the id being
    dragged in [draggedId]; every change of the list is written to the
    store.  Rebuilding the pinned section of the page ([refreshAll]) reads
    this state and does not change it. *)

Module QualityFavourites.

Record State := mkState {
  favouriteIds : list string;
  draggedId : option string;
  store : Storage.Store
}.

Definition set_draggedId (d : option string) (st : State) : State :=
  mkState (favouriteIds st) d (store st).

(** [favouriteIds.includes(qualityId)] *)
Definition isFavourite (qualityId : string) (st : State) : bool :=
  bool_decide (qualityId ∈ favouriteIds st).

Definition toggleFavourite (qualityId : string) (st : State) : State :=
  let ids :=
    if isFavourite qualityId st
    then filter (fun i => i ≠ qualityId) (favouriteIds st)
    else favouriteIds st ++ [qualityId] in
  mkState ids (draggedId st) (Storage.setStorage Storage.favouriteQualities ids (store st)).

(** [Array.prototype.indexOf]: the first position of [x], [None] for [-1]. *)
Fixpoint indexOf (x : string) (l : list string) : option nat :=
  match l with
  | [] => None
  | y :: l' => if bool_decide (y = x) then Some 0 else S <$> indexOf x l'
  end.

(** [l.splice(start, 0, x)]: insertion at [start], clamped to the length. *)
Definition splice_insert (start : nat) (x : string) (l : list string) : list string :=
  take start l ++ x :: drop start l.

Definition reorderFavourite (movedId targetId : string) (insertBefore : bool)
    (st : State) : State :=
  let filtered := filter (fun i => i ≠ movedId) (favouriteIds st) in
  match indexOf targetId filtered with
  | None => st
  | Some targetIndex =>
      let insertIndex := if insertBefore then targetIndex else targetIndex + 1 in
      let filtered := splice_insert insertIndex movedId filtered in
      mkState filtered (draggedId st)
              (Storage.setStorage Storage.favouriteQualities filtered (store st))
  end.

(** The [dragstart], [dragend] and [drop] listeners of the pinned copy of
    [qualityId].  [insertBefore] is the test [e.clientY < midY] on the
    pointer position; [!draggedId] holds for [null] and for the empty
    string. *)
Definition dragstart (qualityId : string) (st : State) : State :=
  set_draggedId (Some qualityId) st.

Definition dragend (st : State) : State := set_draggedId None st.

Definition drop (qualityId : string) (insertBefore : bool) (st : State) : State :=
  match draggedId st with
  | None => st
  | Some dragged =>
      if bool_decide (dragged = "") || bool_decide (dragged = qualityId) then st
      else set_draggedId None (reorderFavourite dragged qualityId insertBefore st)
  end.

(** What [enable()] and [disable()] do to this state. *)
Definition enable (st : State) : State :=
  mkState (Storage.getStorage Storage.favouriteQualities (store st)) (draggedId st) (store st).

Definition disable (st : State) : State :=
  mkState [] (draggedId st) (store st).

(** The persisted pinned-id list. *)
Definition persisted (st : State) : option (list string) :=
  Storage.stored_favouriteQualities (store st).

(** Number of occurrences of an id in a list. *)
Definition occurrences (x : string) (l : list string) : nat :=
  length (filter (fun i => i = x) l).

(** The states the unit goes through.  The script is loaded with an empty
    list and nothing dragged, on a store whose pinned list was never
    written or is the empty one that [initializeStorage] writes.  Then come
    the unit's own operations, a reload of the page (the store stays), and
    writes of the store by the rest of the extension: [initializeStorage],
    and writes of the other two keys. *)
Inductive reachable : State -> Prop :=
| reachable_load store :
    Storage.stored_favouriteQualities store = None
    \/ Storage.stored_favouriteQualities store = Some [] ->
    reachable (mkState [] None store)
| reachable_reload st :
    reachable st -> reachable (mkState [] None (store st))
| reachable_enable st : reachable st -> reachable (enable st)
| reachable_disable st : reachable st -> reachable (disable st)
| reachable_toggleFavourite st qualityId :
    reachable st -> reachable (toggleFavourite qualityId st)
| reachable_dragstart st qualityId :
    reachable st -> qualityId ∈ favouriteIds st -> reachable (dragstart qualityId st)
| reachable_dragend st : reachable st -> reachable (dragend st)
| reachable_drop st qualityId insertBefore :
    reachable st -> qualityId ∈ favouriteIds st ->
    reachable (drop qualityId insertBefore st)
| reachable_initializeStorage st :
    reachable st ->
    reachable (mkState (favouriteIds st) (draggedId st)
                       (Storage.initializeStorage (store st)))
| reachable_other_keys st store' :
    reachable st ->
    Storage.stored_favouriteQualities store' = Storage.stored_favouriteQualities (store st) ->
    reachable (mkState (favouriteIds st) (draggedId st) store').

End QualityFavourites.

(** ** src/content/modules/card-favourites.ts: the preference map

    The unit keeps the preferences in [cardPrefs] and writes a copy of the
    whole map to the store after every change.  A card container carries its
    id in [data-event-id]. *)

Module CardFavourites.
Import Storage.

Record Container := mkContainer {
  eventId : option string   (* [container.dataset.eventId] *)
}.

Record State := mkState {
  cardPrefs : gmap string CardPref;
  store : Storage.Store
}.

(** [container.dataset.eventId ?? null] *)
Definition getCardId (container : Container) : option string := eventId container.

(** The guard [if (!cardId) return;] lets through the ids that are neither
    [null] nor the empty string. *)
Definition truthy (cardId : option string) : option string :=
  match cardId with
  | None => None
  | Some i => if bool_decide (i = "") then None else Some i
  end.

(** [delete cardPrefs[cardId]] or [cardPrefs[cardId] = pref], then the
    write of the copy [{ ...cardPrefs }], which has the same own
    properties. *)
Definition setCardPref (container : Container) (pref : option CardPref)
    (st : State) : State :=
  match truthy (getCardId container) with
  | None => st
  | Some cardId =>
      let prefs :=
        match pref with
        | None => delete cardId (cardPrefs st)
        | Some p => PlainObject.assign cardId p (cardPrefs st)
        end in
      mkState prefs (Storage.setStorage Storage.cardPreferences prefs (store st))
  end.

(** [current === pref] holds only for an own property: what the prototype
    gives is an object. *)
Definition toggleCardPref (container : Container) (pref : CardPref)
    (st : State) : State :=
  match truthy (getCardId container) with
  | None => st
  | Some cardId =>
      let current := PlainObject.get (cardPrefs st) cardId in
      setCardPref container
        (if bool_decide (current = PlainObject.own pref) then None else Some pref) st
  end.

Definition enable (st : State) : State :=
  mkState (Storage.getStorage Storage.cardPreferences (store st)) (store st).

Definition disable (st : State) : State := mkState ∅ (store st).

(** The persisted preference of a card. *)
Definition persisted (cardId : string) (st : State) : option CardPref :=
  Storage.getStorage Storage.cardPreferences (store st) !! cardId.

End CardFavourites.

(** ** The built-ins used by bazaar-total.ts *)

Module JS.

(** *** Numbers *)

Definition number := spec_float.

Definition prec : Z := 53.
Definition emax : Z := 1024.

(** The values of [number] that are doubles: the mantissa of a finite one
    is normalised and its exponent in range. *)
Definition is_double (x : number) : Prop := valid_binary prec emax x = true.

Definition NaN : number := S754_nan.
Definition zero : number := S754_zero false.

Definition add : number -> number -> number := SFadd prec emax.
Definition mul : number -> number -> number := SFmul prec emax.
Definition div : number -> number -> number := SFdiv prec emax.

(** The Number value for an integer: round to nearest, ties to even. *)
Definition of_Z (k : Z) : number := binary_normalize prec emax k 0 false.

(** The double that holds the integer [p] or [- p], for [p] below [2 ^ 53]:
    the mantissa is [p] shifted to 53 bits. *)
Definition integer_double (s : bool) (p : positive) : number :=
  S754_finite s (Z.to_pos (Zpos p * 2 ^ (53 - Zpos (digits2_pos p))))
              (Zpos (digits2_pos p) - 53).

(** The Number value for the positive fraction [num / den], with sign [s]. *)
Definition of_ratio (s : bool) (num den : positive) : number :=
  let '(m, e, l) := SFdiv_core_binary prec emax (Zpos num) 0 (Zpos den) 0 in
  binary_round_aux prec emax s m e l.

(** The Number value for [k * 10 ^ j], [k] positive. *)
Definition of_decimal (s : bool) (k : positive) (j : Z) : number :=
  match j with
  | Zneg j' => of_ratio s k (10 ^ j')
  | _ => of_Z (if s then Zneg (k * Z.to_pos (10 ^ j)) else Zpos (k * Z.to_pos (10 ^ j)))
  end.

(** [Number.isNaN] *)
Definition isNaN (x : number) : bool :=
  match x with S754_nan => true | _ => false end.

(** Same double: same class, sign, mantissa and exponent. *)
Definition same (x y : number) : bool :=
  match x, y with
  | S754_zero s, S754_zero s' => Bool.eqb s s'
  | S754_infinity s, S754_infinity s' => Bool.eqb s s'
  | S754_nan, S754_nan => true
  | S754_finite s m e, S754_finite s' m' e' =>
      Bool.eqb s s' && Pos.eqb m m' && Z.eqb e e'
  | _, _ => false
  end.

(** [floor (m * 2 ^ e * scale + 1/2)] for a positive [scale]: the integer
    nearest to the scaled value, the larger one on a tie. *)
Definition nearest_scaled (m e scale : Z) : Z :=
  if (0 <=? e)%Z then (m * 2 ^ e * scale)%Z
  else ((2 * m * scale + 2 ^ (- e)) / 2 ^ (1 - e))%Z.

(** [Math.round]: a value that is not finite or is integral is returned as
    it is; a value that rounds to zero keeps its sign; otherwise the
    nearest integer, the one closer to +∞ on a tie. *)
Definition Math_round (x : number) : number :=
  match x with
  | S754_finite s m e =>
      if (0 <=? e)%Z then x
      else
        let k := nearest_scaled (if s then Zneg m else Zpos m) e 1 in
        if (k =? 0)%Z then S754_zero s else of_Z k
  | _ => x
  end.

(** *** Strings *)

(** A string is its sequence of UTF-16 code units. *)
Definition jsstring := list N.

(** A literal of the source, which is ASCII. *)
Definition js (s : string) : jsstring := map N_of_ascii (list_ascii_of_string s).

Definition isDigit (c : N) : bool := (48 <=? c)%N && (c <=? 57)%N.

(** [\w] *)
Definition isWordChar (c : N) : bool :=
  isDigit c || ((65 <=? c)%N && (c <=? 90)%N) || ((97 <=? c)%N && (c <=? 122)%N)
  || (c =? 95)%N.

(** WhiteSpace and LineTerminator code points, which [trim], [parseInt] and
    [parseFloat] strip. *)
Definition isStrWhiteSpaceChar (c : N) : bool :=
  existsb (N.eqb c)
    [9; 10; 11; 12; 13; 32; 160; 5760; 8232; 8233; 8239; 8287; 12288; 65279]%N
  || ((8192 <=? c)%N && (c <=? 8202)%N).

Fixpoint trimStart (s : jsstring) : jsstring :=
  match s with
  | c :: s' => if isStrWhiteSpaceChar c then trimStart s' else s
  | [] => []
  end.

Definition trimEnd (s : jsstring) : jsstring := rev (trimStart (rev s)).

(** [String.prototype.trim] *)
Definition trim (s : jsstring) : jsstring := trimEnd (trimStart s).

(** The longest prefix of decimal digits, and what follows it. *)
Fixpoint spanDigits (s : jsstring) : jsstring * jsstring :=
  match s with
  | c :: s' =>
      if isDigit c then let '(ds, rest) := spanDigits s' in (c :: ds, rest)
      else ([], s)
  | [] => ([], [])
  end.

(** The integer written by a sequence of digits. *)
Definition digitsValue (ds : jsstring) : Z :=
  fold_left (fun acc c => (10 * acc + (Z.of_N c - 48))%Z) ds 0%Z.

(** An optional sign: [true] for "-". *)
Definition spanSign (s : jsstring) : bool * jsstring :=
  match s with
  | 45%N :: rest => (true, rest)
  | 43%N :: rest => (false, rest)
  | _ => (false, s)
  end.

(** [parseInt(string, 10)] *)
Definition parseInt10 (input : jsstring) : number :=
  let '(sign, str) := spanSign (trimStart input) in
  let '(digits, _) := spanDigits str in
  match digits with
  | [] => NaN
  | _ =>
      let mathInt := digitsValue digits in
      if (mathInt =? 0)%Z then S754_zero sign
      else of_Z (if sign then - mathInt else mathInt)
  end.

(** The exponent part of a decimal literal, when there is one with at least
    one digit: [e] or [E], an optional sign, digits. *)
Definition spanExponent (s : jsstring) : Z :=
  match s with
  | c :: rest =>
      if (c =? 101)%N || (c =? 69)%N then
        let '(sign, rest) := spanSign rest in
        let '(digits, _) := spanDigits rest in
        match digits with
        | [] => 0%Z
        | _ => if sign then (- digitsValue digits)%Z else digitsValue digits
        end
      else 0%Z
  | [] => 0%Z
  end.

Definition startsWith (p s : jsstring) : bool :=
  bool_decide (take (length p) s = p).

(** [parseFloat(string)]: the value of the longest prefix of the trimmed
    string that is a StrDecimalLiteral, [NaN] when there is none. *)
Definition parseFloat (input : jsstring) : number :=
  let '(sign, str) := spanSign (trimStart input) in
  if startsWith (js "Infinity") str then S754_infinity sign
  else
    let '(intDigits, rest) := spanDigits str in
    let '(fracDigits, rest) :=
      match rest with
      | 46%N :: rest' => spanDigits rest'
      | _ => ([], rest)
      end in
    match intDigits ++ fracDigits with
    | [] => NaN
    | digits =>
        let exponent := (spanExponent rest - Z.of_nat (length fracDigits))%Z in
        match digitsValue digits with
        | Zpos k => of_decimal sign k exponent
        | _ => S754_zero sign
        end
    end.

(** The character of the last decimal digit of [n]. *)
Definition digitChar (n : Z) : N := Z.to_N (48 + n mod 10).

(** The decimal digits of a non-negative integer, most significant first. *)
Fixpoint decimalDigits (fuel : nat) (n : Z) (acc : jsstring) : jsstring :=
  let acc := (digitChar n :: acc) in
  match fuel with
  | O => acc
  | S fuel => if (n <? 10)%Z then acc else decimalDigits fuel (n / 10) acc
  end.

Definition decimal (n : Z) : jsstring :=
  decimalDigits (Z.to_nat (Z.log2 n)) n [].

Definition zeros (n : nat) : jsstring := replicate n 48%N.

(** [Number.prototype.toFixed]: the integer [n] for which [n / 10 ^ f] is
    nearest to the absolute value, the larger on a tie, written with [f]
    digits after the point; values from [10 ^ 21] on are written as
    [toString] writes them. *)
Definition fixedDigits (n : Z) (f : nat) : jsstring :=
  let m := decimal n in
  match f with
  | O => m
  | _ =>
      let m := zeros (S f - length m) ++ m in
      take (length m - f) m ++ 46%N :: drop (length m - f) m
  end.

Definition signText (s : bool) : jsstring := if s then [45%N] else [].

(** The shortest digits: the largest decimal exponent [j] for which a
    multiple [c * 10 ^ j] next to the value reads back as the same double,
    and that [c] (the nearer of the two neighbours, the even one on a
    tie). *)
Definition neighbour (num den : Z) (j : Z) : Z :=
  if (0 <=? j)%Z then (num / (den * 10 ^ j))%Z else ((num * 10 ^ (- j)) / den)%Z.

Definition readsBack (x : number) (c j : Z) : bool :=
  match c with
  | Zpos k => same (of_decimal false k j) x
  | _ => false
  end.

Fixpoint shortest (fuel : nat) (x : number) (num den : Z) (j : Z) : option (Z * Z) :=
  let c1 := neighbour num den j in
  let c2 := (c1 + 1)%Z in
  let ok1 := readsBack x c1 j in
  let ok2 := readsBack x c2 j in
  if ok1 || ok2 then
    let twice := if (0 <=? j)%Z then (2 * num ?= (2 * c1 + 1) * 10 ^ j * den)%Z
                 else (2 * num * 10 ^ (- j) ?= (2 * c1 + 1) * den)%Z in
    let c :=
      if ok1 && ok2 then
        match twice with
        | Lt => c1
        | Gt => c2
        | Eq => if Z.even c1 then c1 else c2
        end
      else if ok1 then c1 else c2 in
    Some (c, j)
  else
    match fuel with
    | O => None
    | S fuel => shortest fuel x num den (j - 1)
    end.

Definition exponentText (e : Z) : jsstring :=
  101%N :: (if (e <? 0)%Z then 45%N else 43%N) :: decimal (Z.abs e).

(** [Number::toString] of a positive double [m * 2 ^ e], radix 10. *)
Definition positiveToString (m : positive) (e : Z) : jsstring :=
  let num := if (0 <=? e)%Z then (Zpos m * 2 ^ e)%Z else Zpos m in
  let den := if (0 <=? e)%Z then 1%Z else (2 ^ (- e))%Z in
  let start := Z.of_nat (length (decimal (num / den + 1))) in
  match shortest (Z.to_nat start + 400) (S754_finite false m e) num den start with
  | None => []
  | Some (c, j) =>
      let digits := decimal c in
      let k := Z.of_nat (length digits) in
      let n := (k + j)%Z in
      if (k <=? n)%Z && (n <=? 21)%Z then digits ++ zeros (Z.to_nat (n - k))
      else if (0 <? n)%Z && (n <=? 21)%Z then
        take (Z.to_nat n) digits ++ 46%N :: drop (Z.to_nat n) digits
      else if (-6 <? n)%Z && (n <=? 0)%Z then
        48%N :: 46%N :: zeros (Z.to_nat (- n)) ++ digits
      else
        match digits with
        | [d] => d :: exponentText (n - 1)
        | d :: ds => d :: 46%N :: ds ++ exponentText (n - 1)
        | [] => []
        end
  end.

Definition Number_toString (x : number) : jsstring :=
  match x with
  | S754_nan => js "NaN"
  | S754_zero _ => js "0"
  | S754_infinity s => signText s ++ js "Infinity"
  | S754_finite s m e => signText s ++ positiveToString m e
  end.

Definition toFixed (f : nat) (x : number) : jsstring :=
  match x with
  | S754_finite s m e =>
      let large :=
        if (0 <=? e)%Z then (10 ^ 21 <=? Zpos m * 2 ^ e)%Z
        else (10 ^ 21 * 2 ^ (- e) <=? Zpos m)%Z in
      if large then signText s ++ positiveToString m e
      else signText s ++ fixedDigits (nearest_scaled (Zpos m) e (10 ^ Z.of_nat f)) f
  | S754_zero _ => fixedDigits 0 f
  | _ => Number_toString x
  end.

(** [s.split(".")] *)
Fixpoint split_dot (s : jsstring) : list jsstring :=
  match s with
  | [] => [[]]
  | c :: s' =>
      if (c =? 46)%N then [] :: split_dot s'
      else match split_dot s' with
           | part :: parts => (c :: part) :: parts
           | [] => [[c]]
           end
  end.

(** [parts.join(".")] *)
Fixpoint join_dot (parts : list jsstring) : jsstring :=
  match parts with
  | [] => []
  | [part] => part
  | part :: parts => part ++ 46%N :: join_dot parts
  end.

(** [s.replace(/\B(?=(\d{3})+(?!\d))/g, ",")].  The pattern matches the empty
    string at a position that is not a word boundary and is followed by a
    run of digits whose length is a positive multiple of three; since a
    digit follows, "not a word boundary" says that a word character
    precedes. *)
Definition groupAhead (s : jsstring) : bool :=
  let run := length (spanDigits s).1 in
  (0 <? run)%nat && (run mod 3 =? 0)%nat.

Fixpoint thousandsFrom (prev : option N) (s : jsstring) : jsstring :=
  match s with
  | [] => []
  | c :: s' =>
      let here :=
        match prev with
        | Some p => isWordChar p && groupAhead s
        | None => false
        end in
      (if here then [44%N] else []) ++ c :: thousandsFrom (Some c) s'
  end.

Definition thousands (s : jsstring) : jsstring := thousandsFrom None s.

(** [s.replace(/,/g, "")] *)
Definition removeCommas (s : jsstring) : jsstring :=
  filter (fun c => c ≠ 44%N) s.

End JS.

(** ** src/content/modules/bazaar-total.ts *)

Module BazaarTotal.
Import JS.

Definition parseQuantity (text : jsstring) : number :=
  let cleaned := trim (removeCommas text) in
  let n := parseInt10 cleaned in
  if isNaN n then zero else n.

Definition parsePrice (text : jsstring) : number :=
  let n := parseFloat (trim text) in
  if isNaN n then zero else n.

Record Item := mkItem { quantity : number; price : number }.

(** [items.reduce((sum, item) => sum + item.quantity * item.price, 0)] *)
Definition computeTotal (items : list Item) : number :=
  fold_left (fun sum item => add sum (mul (quantity item) (price item))) items zero.

Definition formatCurrency (total : number) (currency : jsstring) : jsstring :=
  if bool_decide (currency = js "Echoes") then
    let rounded := div (Math_round (mul total (of_Z 100))) (of_Z 100) in
    let parts := split_dot (toFixed 2 rounded) in
    let parts :=
      match parts with
      | part0 :: rest => thousands part0 :: rest
      | [] => []
      end in
    join_dot parts ++ js " Echoes"
  else
    let rounded := Math_round total in
    let formatted := thousands (Number_toString rounded) in
    formatted ++ js " " ++ currency.

Definition formatEchoes (total : number) : jsstring :=
  formatCurrency total (js "Echoes").

(** Line items whose quantity and price are natural numbers, and their
    total in exact arithmetic. *)
Definition integerItem (line : N * N) : Item :=
  mkItem (of_Z (Z.of_N line.1)) (of_Z (Z.of_N line.2)).

(** Quantity and price are below [2 ^ 53], so that both are doubles. *)
Definition safeLine (line : N * N) : Prop :=
  (Z.of_N line.1 < 2 ^ 53)%Z /\ (Z.of_N line.2 < 2 ^ 53)%Z.

Definition exactTotal (lines : list (N * N)) : Z :=
  foldr (fun line acc => (Z.of_N line.1 * Z.of_N line.2 + acc)%Z) 0%Z lines.

Definition isZero (x : number) : bool :=
  match x with S754_zero _ => true | _ => false end.

(** Zero or finite: neither NaN nor an infinity. *)
Definition isFinite (x : number) : bool :=
  match x with S754_zero _ | S754_finite _ _ _ => true | _ => false end.

End BazaarTotal.

(** ** What "numeric" means for the two parsers

    The grammar of ECMA-262 that [parseInt] and [parseFloat] read, stated
    on its own: a string has a numeric prefix when it starts with an optional
    sign and a digit; it parses as a decimal when one of its prefixes is a
    StrDecimalLiteral. *)

Module Grammar.
Import JS.

Definition Sign (s : jsstring) : Prop := s = [] \/ s = [43%N] \/ s = [45%N].

Definition DecimalDigits (s : jsstring) : Prop :=
  s ≠ [] /\ Forall (fun c => isDigit c = true) s.

Definition hasIntegerPrefix (s : jsstring) : Prop :=
  exists sign d rest, Sign sign /\ isDigit d = true /\ s = sign ++ d :: rest.

Inductive ExponentPart : jsstring -> Prop :=
| exponent_part (e : N) sign ds :
    e = 101%N \/ e = 69%N -> Sign sign -> DecimalDigits ds ->
    ExponentPart (e :: sign ++ ds).

Definition optional (P : jsstring -> Prop) (s : jsstring) : Prop := s = [] \/ P s.

Inductive StrUnsignedDecimalLiteral : jsstring -> Prop :=
| literal_infinity : StrUnsignedDecimalLiteral (js "Infinity")
| literal_point ds fs ex :
    DecimalDigits ds -> optional DecimalDigits fs -> optional ExponentPart ex ->
    StrUnsignedDecimalLiteral (ds ++ 46%N :: fs ++ ex)
| literal_fraction fs ex :
    DecimalDigits fs -> optional ExponentPart ex ->
    StrUnsignedDecimalLiteral (46%N :: fs ++ ex)
| literal_integer ds ex :
    DecimalDigits ds -> optional ExponentPart ex ->
    StrUnsignedDecimalLiteral (ds ++ ex).

Inductive StrDecimalLiteral : jsstring -> Prop :=
| literal_signed sign u :
    Sign sign -> StrUnsignedDecimalLiteral u -> StrDecimalLiteral (sign ++ u).

Definition parsesAsDecimal (s : jsstring) : Prop :=
  exists literal rest, StrDecimalLiteral literal /\ s = literal ++ rest.

End Grammar.

(** ** What the formatting policies mean

    The renderings the specification describes, stated on their own:
    thousands separators as groups of three digits counted from the right,
    a whole number, an amount with two decimals, and half-up rounding of the
    exact value of a double. *)

Module Rendering.
Import JS.

(** A comma and the next three characters, [k] times. *)
Fixpoint groups (k : nat) (s : jsstring) : jsstring :=
  match k with
  | O => []
  | S k => 44%N :: take 3 s ++ groups k (drop 3 s)
  end.

(** The one or two leading digits that do not fill a group, then the groups
    of three, a comma before each but not at the start. *)
Definition groupThousands (ds : jsstring) : jsstring :=
  match (length ds mod 3)%nat with
  | O => drop 1 (groups (length ds / 3) ds)
  | r => take r ds ++ groups (length ds / 3) (drop r ds)
  end.

Definition renderWhole (n : Z) : jsstring :=
  signText (n <? 0)%Z ++ groupThousands (decimal (Z.abs n)).

(** [n] hundredths. *)
Definition renderCents (n : Z) : jsstring :=
  signText (n <? 0)%Z ++ groupThousands (decimal (Z.abs n / 100))
    ++ 46%N :: [digitChar (Z.abs n / 10); digitChar (Z.abs n)].

(** [floor (x * scale + 1/2)] on the exact value of a finite [x]: rounding
    to the nearest multiple of [1 / scale], a tie going up. *)
Definition halfUp (scale : Z) (x : number) : Z :=
  match x with
  | S754_finite s m e => nearest_scaled (if s then Zneg m else Zpos m) e scale
  | _ => 0%Z
  end.

End Rendering.

(** ** src/background/service-worker.ts *)

Module ServiceWorker.

(** [details.reason] of [chrome.runtime.onInstalled]. *)
Inductive OnInstalledReason := install | update | chrome_update | shared_module_update.

(** The listener: [if (details.reason === "install") await initializeStorage()]. *)
Definition onInstalled (reason : OnInstalledReason) (store : Storage.Store) : Storage.Store :=
  match reason with
  | install => Storage.initializeStorage store
  | _ => store
  end.

End ServiceWorker.

(** ** src/content/index.ts *)

Module ContentScript.
Import Manager.

(** The three registrations and the call of [initialize()], whose
    [await getStorage("moduleStates")] reads [store]. *)
Definition main {Page} (bazaarTotal cardFavourites qualityFavourites : FeatureModule Page)
    (store : Storage.Store) : M Page unit :=
  bind (register bazaarTotal) (fun _ =>
  bind (register cardFavourites) (fun _ =>
  bind (register qualityFavourites) (fun _ =>
  initialize (Storage.getStorage Storage.moduleStates store)))).

End ContentScript.

(** ** What the manager is meant to maintain

    The conditions and the invariant in which the properties of the manager
    are stated. *)

Module ManagerInvariant.
Import Manager.

Section WithPage.
Context {Page : Type}.

(** The routines of the unit do not fail: [enable()] returns, and what it
    returns is fulfilled by the next checkpoint or is a promise still
    pending then; [disable()] returns. *)
Definition reliable (module : FeatureModule Page) : Prop :=
  forall pg, ((enable module pg).2 = EnableReturns Fulfilled
              \/ (enable module pg).2 = EnablePending)
             /\ (disable module pg).2 = Returns.

(** The unit a parked call of [enableModule] is for. *)
Definition unitOf (k : Continuation Page) : string :=
  match k with
  | after_enable module _ => id module
  | awaiting_enable module => id module
  end.

(** The units whose [enable()] has been called and is awaited. *)
Definition awaitedIds (s : State Page) : list string := map unitOf (suspended s).

(** The parked call has not failed: the awaited value is fulfilled, or it is
    a pending promise. *)
Definition unfailing (k : Continuation Page) : Prop :=
  match k with
  | after_enable _ (Rejected _) => False
  | _ => True
  end.

(** [this.modules] as [register] builds it: every unit under its own id, no
    id twice. *)
Definition wellKeyed (ms : list (string * FeatureModule Page)) : Prop :=
  NoDup (map fst ms) /\ Forall (fun entry => id entry.2 = entry.1) ms.

Definition registered (i : string) (s : State Page) : Prop :=
  i ∈ map fst (modules s).

(** The active set is the set of the registered units that [states]
    enables. *)
Definition tracks (states : gmap string bool) (s : State Page) : Prop :=
  forall i, i ∈ activeModules s <->
            registered i s /\ PlainObject.truthyAt states i = true.

(** The active set is on its way to [states]: every parked call waits for a
    pending promise, and the units that are active or whose [enable()] is
    awaited are the registered units that [states] enables. *)
Definition settling (states : gmap string bool) (s : State Page) : Prop :=
  Forall (fun k => pending k = true) (suspended s)
  /\ forall i, i ∈ activeModules s \/ i ∈ awaitedIds s <->
               registered i s /\ PlainObject.truthyAt states i = true.

(** A unit goes from disabled to enabled, or back, between two stored
    maps. *)
Definition turnsOn (old new : gmap string bool) (i : string) : bool :=
  PlainObject.truthyAt new i && negb (PlainObject.truthyAt old i).

Definition turnsOff (old new : gmap string bool) (i : string) : bool :=
  negb (PlainObject.truthyAt new i) && PlainObject.truthyAt old i.

(** The routines to call for a change, in the order of registration. *)
Definition expectedCalls (old new : gmap string bool)
    (ms : list (string * FeatureModule Page)) : list Call :=
  flat_map (fun entry =>
              if turnsOn old new entry.1 then [call_enable entry.1]
              else if turnsOff old new entry.1 then [call_disable entry.1]
              else []) ms.

(** What the environment does between two events: it fulfils pending
    promises, one at a time; a step names the parked call and the page that
    the rest of [enable()] leaves. *)
Definition fulfil (schedule : list (nat * Page)) (s : State Page) : State Page :=
  foldl (fun s step => (settlePending step.1 step.2 Fulfilled s).1) s schedule.

(** The event that reports the change of [moduleStates] from [previous] to
    [new]. *)
Definition changeTo (previous : option (gmap string bool)) (new : gmap string bool)
    : Events.Changes :=
  Events.mkChanges (Some (Events.mkChange previous (Some new))) None None.

(** A run of change events for [moduleStates], as the storage reports them:
    each carries the value stored before it, if any, and the new value, and
    comes with the fulfilments that happen before the next one. *)
Fixpoint deliverAll (previous : option (gmap string bool))
    (steps : list (gmap string bool * list (nat * Page))) (s : State Page)
    : State Page :=
  match steps with
  | [] => s
  | (new, schedule) :: steps' =>
      deliverAll (Some new) steps'
        (fulfil schedule (deliver Events.sync (changeTo previous new) s).1)
  end.

(** In the run, every awaited [enable()] has settled when the next event
    arrives. *)
Fixpoint settledBetween (previous : option (gmap string bool))
    (steps : list (gmap string bool * list (nat * Page))) (s : State Page) : Prop :=
  match steps with
  | [] => True
  | (new, schedule) :: steps' =>
      let s' := fulfil schedule (deliver Events.sync (changeTo previous new) s).1 in
      suspended s' = [] /\ settledBetween (Some new) steps' s'
  end.

End WithPage.

End ManagerInvariant.

(** ** src/content/modules/bazaar-total.ts: scrip prices and the items of
    the page *)

Module BazaarPage.
Import JS BazaarTotal.

(** [Canonicalize] of a regular expression with the flag [i] and without
    [u], on the code units below 128: a lower-case letter becomes the
    upper-case one.  A code unit from 128 on is never mapped below 128, so
    against the characters of this pattern, which are all below 128, it
    compares as itself. *)
Definition canonicalize (c : N) : N :=
  if (97 <=? c)%N && (c <=? 122)%N then (c - 32)%N else c.

(** The characters of [p], one after the other, compared after
    [canonicalize]; what is left of [s] after them. *)
Fixpoint matchLiteral (p s : jsstring) : option jsstring :=
  match p, s with
  | [], _ => Some s
  | c :: p', d :: s' =>
      if (canonicalize c =? canonicalize d)%N then matchLiteral p' s' else None
  | _ :: _, [] => None
  end.

(** The regular expression is matched by backtracking, as ECMA-262 has it:
    a quantifier takes as many characters as it can and gives them back one
    at a time while what follows it, the continuation [k], fails.

    [cls*] followed by [k]. *)
Fixpoint star {A} (cls : N -> bool) (s : jsstring) (k : jsstring -> option A)
    : option A :=
  match s with
  | c :: s' =>
      if cls c then
        match star cls s' k with
        | Some r => Some r
        | None => k s
        end
      else k s
  | [] => k []
  end.

(** [cls*] inside a capturing group, followed by [k]: [captured] is what the
    group holds so far. *)
Fixpoint starCapture {A} (cls : N -> bool) (captured s : jsstring)
    (k : jsstring -> jsstring -> option A) : option A :=
  match s with
  | c :: s' =>
      if cls c then
        match starCapture cls (captured ++ [c]) s' k with
        | Some r => Some r
        | None => k captured s
        end
      else k captured s
  | [] => k captured []
  end.

(** [(cls+)] followed by [k]. *)
Definition plusCapture {A} (cls : N -> bool) (s : jsstring)
    (k : jsstring -> jsstring -> option A) : option A :=
  match s with
  | c :: s' => if cls c then starCapture cls [c] s' k else None
  | [] => None
  end.

(** [(\d+)\s*x\s*Hinterland Scrip] with the flag [i], at the start of [s]:
    the capture when it matches.  [\s] is the class of white space and line
    terminators, the one [trim] strips. *)
Definition matchAt (s : jsstring) : option jsstring :=
  plusCapture isDigit s (fun digits s1 =>
    star isStrWhiteSpaceChar s1 (fun s2 =>
      match matchLiteral (js "x") s2 with
      | Some s3 =>
          star isStrWhiteSpaceChar s3 (fun s4 =>
            match matchLiteral (js "Hinterland Scrip") s4 with
            | Some _ => Some digits
            | None => None
            end)
      | None => None
      end)).

(** [text.match(/(\d+)\s*x\s*Hinterland Scrip/i)]: the capture [match[1]] of
    the match at the first position at which the pattern matches, [None]
    for [null]. *)
Fixpoint matchScrip (s : jsstring) : option jsstring :=
  match matchAt s with
  | Some digits => Some digits
  | None =>
      match s with
      | [] => None
      | _ :: s' => matchScrip s'
      end
  end.

(** What follows the digits, read without backtracking: each [\s*] takes
    the longest run of white space.  This is what the backtracking finds,
    since a shorter run leaves a white space character where the pattern
    has a letter. *)
Definition matchTail (s : jsstring) : bool :=
  match matchLiteral (js "x") (trimStart s) with
  | Some rest => bool_decide (is_Some (matchLiteral (js "Hinterland Scrip") (trimStart rest)))
  | None => false
  end.

Definition parseScripPrice (text : jsstring) : number :=
  match matchScrip text with
  | None => zero
  | Some digits => parseInt10 digits
  end.

(** [x > y] on numbers: false when one of them is NaN. *)
Definition gt (x y : number) : bool := SFltb y x.

(** An element of the page, as far as the unit reads it. *)
Record Element := mkElement {
  textContent : option jsstring
}.

(** A [.shop__item] with the results of the three [querySelector] calls on
    it ([None] for [null]). *)
Record ShopItem := mkShopItem {
  js_item_value : option Element;   (* [.js-item-value] *)
  item__price : option Element;     (* [.item__price] *)
  item__desc : option Element       (* [.item__desc] *)
}.

Record CurrencyTotal := mkCurrencyTotal {
  currency : jsstring;
  total : number
}.

(** One turn of the loop over the items: [echoItems] and [scripItems] before
    and after. *)
Definition readItem (acc : list Item * list Item) (item : ShopItem)
    : list Item * list Item :=
  let '(echoItems, scripItems) := acc in
  match js_item_value item with
  | None => acc
  | Some qtyEl =>
      let quantity := parseQuantity (default (js "0") (textContent qtyEl)) in
      match item__price item with
      | Some priceEl =>
          (echoItems ++ [mkItem quantity
                           (parsePrice (default (js "0") (textContent priceEl)))],
           scripItems)
      | None =>
          match item__desc item with
          | Some descEl =>
              let scripPrice := parseScripPrice (default [] (textContent descEl)) in
              if gt scripPrice zero
              then (echoItems, scripItems ++ [mkItem quantity scripPrice])
              else acc
          | None => acc
          end
      end
  end.

(** [calculateTotalsFromDOM], on the list that
    [document.querySelectorAll(".shop__item")] returns. *)
Definition calculateTotalsFromDOM (items : list ShopItem) : list CurrencyTotal :=
  let '(echoItems, scripItems) := fold_left readItem items ([], []) in
  let echoTotal := computeTotal echoItems in
  let scripTotal := computeTotal scripItems in
  (if gt echoTotal zero then [mkCurrencyTotal (js "Echoes") echoTotal] else [])
  ++ (if gt scripTotal zero then [mkCurrencyTotal (js "Hinterland Scrip") scripTotal]
      else []).

(** An item priced in Echoes, with a quantity and a price that are natural
    numbers: the quantity written with thousands separators, the price in
    plain digits. *)
Definition echoLine (line : N * N) : ShopItem :=
  mkShopItem (Some (mkElement (Some (thousands (decimal (Z.of_N line.1))))))
             (Some (mkElement (Some (decimal (Z.of_N line.2)))))
             None.

(** An item priced in scrip, with a quantity and a price that are natural
    numbers: no price element, and a description that ends with the price
    in the wording of the game. *)
Definition scripLine (line : N * N) : ShopItem :=
  mkShopItem (Some (mkElement (Some (thousands (decimal (Z.of_N line.1))))))
             None
             (Some (mkElement (Some (js "Thigh Bone " ++ decimal (Z.of_N line.2)
                                       ++ js " x Hinterland Scrip")))).

(** A page of such items, in any order: [inl] for Echoes, [inr] for scrip. *)
Definition pageItem (line : N * N + N * N) : ShopItem :=
  match line with
  | inl l => echoLine l
  | inr l => scripLine l
  end.

Definition echoLines (page : list (N * N + N * N)) : list (N * N) :=
  omap (fun line => match line with inl l => Some l | inr _ => None end) page.

Definition scripLines (page : list (N * N + N * N)) : list (N * N) :=
  omap (fun line => match line with inl _ => None | inr l => Some l end) page.

(** Does the loop read the item: it has a quantity element, and a price
    element or a description with a scrip price above 0. *)
Definition counted (item : ShopItem) : bool :=
  match js_item_value item, item__price item, item__desc item with
  | Some _, Some _, _ => true
  | Some _, None, Some descEl =>
      gt (parseScripPrice (default [] (textContent descEl))) zero
  | _, _, _ => false
  end.

End BazaarPage.

(** ** Prices in hundredths, and the exact value of a double *)

Module Cents.
Import JS BazaarTotal.

(** The double for a price of [c] hundredths. *)
Definition centsPrice (c : N) : number :=
  match c with
  | N0 => zero
  | Npos k => of_decimal false k (-2)
  end.

(** A line of [line.1] items at [line.2] hundredths each. *)
Definition centsItem (line : N * N) : Item :=
  mkItem (of_Z (Z.of_N line.1)) (centsPrice line.2).

(** The rational number that a finite double stands for. *)
Definition value (x : number) : Q :=
  match x with
  | S754_finite s m e => inject_Z (if s then Zneg m else Zpos m) * 2 ^ e
  | _ => 0
  end.

(** A positive double with a full mantissa. *)
Definition positiveNormal (x : number) : Prop :=
  exists m e, x = S754_finite false m e /\ (2 ^ 52 <= Zpos m < 2 ^ 53)%Z.

(** A positive double of moderate size: products and sums of two of these
    stay far from underflow and overflow. *)
Definition moderate (x : number) : Prop :=
  positiveNormal x /\ (2 ^ (-60) <= value x <= 2 ^ 60)%Q.

(** After [steps] additions the running sum stands for [cents] hundredths
    up to [steps * 2 ^ -23]; a sum of zero hundredths is the double zero. *)
Definition withinSteps (steps : nat) (sum : number) (cents : Z) : Prop :=
  (cents = 0%Z /\ sum = zero)
  \/ ((0 < cents)%Z /\ positiveNormal sum
      /\ (inject_Z cents * (1 # 100) - inject_Z (Z.of_nat steps) * 2 ^ (-23) <= value sum)%Q
      /\ (value sum <= inject_Z cents * (1 # 100) + inject_Z (Z.of_nat steps) * 2 ^ (-23))%Q).

(** A price of [c] hundredths as text: the whole part, a dot, two digits. *)
Definition centsText (c : N) : jsstring :=
  decimal (Z.of_N c / 100)
    ++ 46%N :: [digitChar (Z.of_N c / 10); digitChar (Z.of_N c)].

(** An item priced in Echoes: the quantity written with thousands
    separators, the price with two decimals. *)
Definition centsLine (line : N * N) : BazaarPage.ShopItem :=
  BazaarPage.mkShopItem
    (Some (BazaarPage.mkElement (Some (thousands (decimal (Z.of_N line.1))))))
    (Some (BazaarPage.mkElement (Some (centsText line.2))))
    None.

End Cents.

(** ** Sample units and states, used to run the definitions *)

Module Samples.
Import Manager.

(** A unit whose routines return, and one whose [disable()] throws; the
    page is left abstract as [unit]. *)
Definition wellBehaved (i : string) : FeatureModule unit :=
  mkFeatureModule i (fun pg => (pg, EnableReturns Fulfilled)) (fun pg => (pg, Returns)).

Definition stuck (i : string) : FeatureModule unit :=
  mkFeatureModule i (fun pg => (pg, EnableReturns Fulfilled))
                    (fun pg => (pg, Throws "teardown failed")).

(** A unit whose [enable()] is [async] and waits for the storage, as the
    ones of [card-favourites.ts] and [quality-favourites.ts]: the promise
    it returns is pending. *)
Definition waiting (i : string) : FeatureModule unit :=
  mkFeatureModule i (fun pg => (pg, EnablePending)) (fun pg => (pg, Returns)).

Definition bazaarTotal := stuck "bazaar-total".
Definition cardFavourites := wellBehaved "card-favourites".

(** Both units registered and active, the listener installed. *)
Definition bothActive : State unit :=
  mkState tt [("bazaar-total", bazaarTotal); ("card-favourites", cardFavourites)]
          ({["bazaar-total"]} ∪ {["card-favourites"]}) [] [] [] true.

(** Both units registered, none active. *)
Definition noneActive : State unit :=
  mkState tt [("bazaar-total", bazaarTotal); ("card-favourites", cardFavourites)]
          ∅ [] [] [] true.

(** The doubles nearest to 0.1, 0.2 and 0.3, and the double 1. *)
Definition tenth : JS.number := S754_finite false 7205759403792794 (-56).
Definition fifth : JS.number := S754_finite false 7205759403792794 (-55).
Definition threeTenths : JS.number := S754_finite false 5404319552844595 (-54).
Definition one : JS.number := JS.of_Z 1.

(** The doubles nearest to 0.005, 0.015 and 49.7. *)
Definition halfCent : JS.number := S754_finite false 5764607523034235 (-60).
Definition oneAndAHalfCent : JS.number := S754_finite false 8646911284551352 (-59).
Definition fortyNineSeven : JS.number := S754_finite false 6994653171259802 (-47).

End Samples.

(** * Properties *)

Section StorageProperties.
Import Constants Storage.

Lemma fillStates_lookup registry states (i : string) :
  fillStates registry states !! i =
    if decide (i ∈ map id registry) then Some (default false (states !! i)) else None.
Proof.
  unfold fillStates.
  assert (G : forall (acc : gmap string bool),
    foldl (fun result m => <[id m := default false (states !! id m)]> result)
          acc registry !! i =
    if decide (i ∈ map id registry) then Some (default false (states !! i))
    else acc !! i).
  { induction registry as [|m registry IH]; intros acc.
    - rewrite decide_False; [done | apply not_elem_of_nil].
    - cbn [foldl map]. rewrite IH. destruct (decide (i = id m)) as [->|Hne].
      + rewrite lookup_insert_eq, (decide_True (P := id m ∈ id m :: _)) by left.
        by destruct (decide _).
      + rewrite lookup_insert_ne by done.
        destruct (decide (i ∈ map id registry)) as [Hin|Hin].
        * rewrite decide_True; [done | by right].
        * rewrite decide_False; [done |].
          intros [?|?]%elem_of_cons; done. }
  rewrite G. case_decide; done.
Qed.

End StorageProperties.

(** C10.  For every content of the store, [getAllModuleStates] returns a map
    whose keys are exactly the ids of [MODULE_REGISTRY]; a registered id is
    mapped to the boolean that the stored map holds for it, and to [false]
    when the stored map has no entry for it or when nothing is stored; an
    id that is stored but not registered is absent from the result.  No id
    of the registry is a property name of [Object.prototype], so the reads
    and writes of the loop are of own properties. *)
Theorem getAllModuleStates_registry_keys (store : Storage.Store) :
  dom (Storage.getAllModuleStates store)
    = list_to_set (map Constants.id Constants.MODULE_REGISTRY)
  /\ (forall i : string,
        Storage.getAllModuleStates store !! i =
          if decide (i ∈ map Constants.id Constants.MODULE_REGISTRY)
          then Some (match Storage.stored_moduleStates store with
                     | Some states => default false (states !! i)
                     | None => false
                     end)
          else None)
  /\ Forall (fun m => PlainObject.inherited (Constants.id m) = false)
            Constants.MODULE_REGISTRY.
Proof.
  assert (L : forall i : string,
       Storage.getAllModuleStates store !! i =
         if decide (i ∈ map Constants.id Constants.MODULE_REGISTRY)
         then Some (match Storage.stored_moduleStates store with
                    | Some states => default false (states !! i)
                    | None => false
                    end)
         else None).
  { intros i. unfold Storage.getAllModuleStates. rewrite fillStates_lookup.
    destruct (decide _); [|done]. unfold Storage.getStorage.
    cbn [Storage.sync_get]. by destruct (Storage.stored_moduleStates store). }
  split; [|split; [exact L|by repeat constructor]].
  apply set_eq. intros i. rewrite elem_of_dom, L, elem_of_list_to_set.
  destruct (decide _) as [Hin|Hin]; split; intros H;
    first [done | by eexists | by destruct H].
Qed.

Section StorageInitialisation.
Import Constants Storage.

Lemma allDisabled_lookup registry (i : string) :
  allDisabled registry !! i = if decide (i ∈ map id registry) then Some false else None.
Proof.
  unfold allDisabled.
  assert (G : forall (acc : gmap string bool),
    foldl (fun defaults m => <[id m := false]> defaults) acc registry !! i =
    if decide (i ∈ map id registry) then Some false else acc !! i).
  { induction registry as [|m registry IH]; intros acc.
    - rewrite decide_False; [done | apply not_elem_of_nil].
    - cbn [foldl map]. rewrite IH. destruct (decide (i = id m)) as [->|Hne].
      + rewrite lookup_insert_eq, (decide_True (P := id m ∈ id m :: _)) by left.
        by destruct (decide _).
      + rewrite lookup_insert_ne by done.
        destruct (decide (i ∈ map id registry)) as [Hin|Hin].
        * rewrite decide_True; [done | by right].
        * rewrite decide_False; [done |].
          intros [?|?]%elem_of_cons; done. }
  rewrite G. by destruct (decide _).
Qed.

End StorageInitialisation.

(** C2, as the claim states it, fails: with the enabled-state key unset and
    a pinned list already persisted, [initializeStorage] replaces the pinned
    list by the empty one. *)
Lemma initializeStorage_overwrites_pinned_list :
  let store := Storage.mkStore None None (Some ["a"]) in
  Storage.sync_get Storage.favouriteQualities store = Some ["a"]
  /\ Storage.sync_get Storage.favouriteQualities (Storage.initializeStorage store)
       <> Some ["a"].
Proof. split; [reflexivity | discriminate]. Qed.

(** C2, amended.  When the enabled-state key is unset, [initializeStorage]
    writes all three keys: every registered id mapped to [false] and
    nothing else, the empty preference map, the empty pinned list (whatever
    the last two held).  When the enabled-state key is set, the store is left
    as it is.  In both cases a second run changes nothing. *)
Theorem initializeStorage_seeds_once (store : Storage.Store) :
  match Storage.stored_moduleStates store with
  | None =>
      exists defaults,
        Storage.initializeStorage store =
          Storage.mkStore (Some defaults) (Some ∅) (Some [])
        /\ forall i : string,
             defaults !! i =
               if decide (i ∈ map Constants.id Constants.MODULE_REGISTRY)
               then Some false else None
  | Some _ => Storage.initializeStorage store = store
  end
  /\ Storage.initializeStorage (Storage.initializeStorage store)
       = Storage.initializeStorage store.
Proof.
  destruct store as [[states|] prefs pinned];
    unfold Storage.initializeStorage at 2 3; cbn [Storage.sync_get Storage.stored_moduleStates].
  - split; reflexivity.
  - split; [|reflexivity].
    exists (Storage.allDisabled Constants.MODULE_REGISTRY).
    split; [reflexivity|]. intros i. apply allDisabled_lookup.
Qed.

(** ** The lifecycle manager *)

Ltac run_monad :=
  unfold Manager.enableModule, Manager.disableModule, Manager.resume,
    Manager.enableModule_catch, Manager.suspend, Manager.awaited,
    Manager.console_write, Manager.activeModules_has,
    Manager.activeModules_add, Manager.activeModules_delete,
    Manager.invoke_enable, Manager.invoke_disable, Manager.try_catch,
    Manager.bind, Manager.ret, Manager.throw, Manager.gets, Manager.modify;
  cbn.

Section ManagerProperties.
Import Manager.
Context {Page : Type}.
Implicit Types (module : FeatureModule Page) (s : State Page).

(** No exception leaves [enableModule], [disableModule] or a resumed
    continuation: the [try] blocks cover every call that can throw. *)
Lemma enableModule_returns module s : (enableModule module s).2 = Normal tt.
Proof.
  run_monad. case_bool_decide; [done|].
  destruct (enable module (page s)) as [pg [err|p|]]; done.
Qed.

Lemma disableModule_returns module s : (disableModule module s).2 = Normal tt.
Proof.
  run_monad. case_bool_decide; [|done]. cbn.
  destruct (disable module (page s)) as [pg [|err]]; done.
Qed.

Lemma resume_returns (k : Continuation Page) s : (resume k s).2 = Normal tt.
Proof. destruct k as [module [|err]|module]; done. Qed.

Lemma for_of_returns {X} (body : X -> M Page unit) (l : list X) s :
  (forall x s', (body x s').2 = Normal tt) ->
  (for_of l body s).2 = Normal tt.
Proof.
  intros Hbody. revert s. induction l as [|x l IH]; intros s; [done|].
  cbn [for_of]. unfold bind. specialize (Hbody x s).
  destruct (body x s) as [s' r]. cbn in Hbody. subst r. apply IH.
Qed.

Lemma applyChange_returns oldStates newStates entry s :
  (applyChange oldStates newStates entry s).2 = Normal tt.
Proof.
  destruct entry as [i module]. unfold applyChange.
  destruct (_ && _); [apply enableModule_returns|].
  destruct (_ && _); [apply disableModule_returns|done].
Qed.

Lemma onChanged_returns changes s : (onChanged changes s).2 = Normal tt.
Proof.
  unfold onChanged. destruct (Events.moduleStates changes) as [[old [new|]]|]; try done.
  cbn. unfold bind, gets. apply for_of_returns. intros. apply applyChange_returns.
Qed.

Lemma settle_returns s : (settle s).2 = Normal tt.
Proof.
  unfold settle, bind, gets, modify. apply for_of_returns. intros. apply resume_returns.
Qed.

Lemma deliver_returns areaName changes s : (deliver areaName changes s).2 = Normal tt.
Proof.
  unfold deliver, bind, gets.
  assert (H : forall c : M Page unit, (forall s0, (c s0).2 = Normal tt) ->
            (let (s', r) := c s in
             match r with Normal _ => settle s' | Abrupt err => (s', Abrupt err) end).2
            = Normal tt).
  { intros c Hc. specialize (Hc s). destruct (c s) as [s' r]. cbn in Hc. subst r.
    apply settle_returns. }
  destruct (listening s); [destruct areaName|]; apply H; intros;
    first [apply onChanged_returns | done].
Qed.

Lemma enableModule_calls module s i :
  enable_count i (enableModule module s).1 <= enable_count i s + 1.
Proof.
  run_monad. case_bool_decide; [cbn; lia|].
  destruct (enable module (page s)) as [pg [err|p|]]; cbn;
    unfold enable_count; cbn; rewrite filter_app, length_app;
    pose proof (length_filter (fun c => c = call_enable i) [call_enable (id module)]) as L;
    cbn [length] in L; lia.
Qed.

Lemma resume_calls (k : Continuation Page) s : calls (resume k s).1 = calls s.
Proof. destruct k as [module [|err]|module]; done. Qed.

Lemma for_of_resume_calls (ks : list (Continuation Page)) s :
  calls (for_of ks resume s).1 = calls s.
Proof.
  revert s. induction ks as [|k ks IH]; intros s; [done|].
  cbn [for_of]. unfold bind.
  pose proof (resume_returns k s) as R. pose proof (resume_calls k s) as C.
  destruct (resume k s) as [s' r]. cbn in R, C. subst r. by rewrite IH.
Qed.

(** At a checkpoint the calls that wait for a pending promise stay parked,
    in their order, and the others are gone. *)
Lemma for_of_resume_suspended (ks : list (Continuation Page)) s :
  suspended (for_of ks resume s).1
    = suspended s ++ filter (fun k => pending k = true) ks.
Proof.
  revert s. induction ks as [|k ks IH]; intros s; [by rewrite app_nil_r|].
  cbn [for_of]. unfold bind.
  pose proof (resume_returns k s) as R.
  assert (C : suspended (resume k s).1
              = suspended s ++ (if pending k then [k] else [])).
  { destruct k as [module [|err]|module]; cbn; by rewrite ?app_nil_r. }
  destruct (resume k s) as [s' r]. cbn in R, C. subst r. rewrite IH, C, filter_cons.
  destruct (pending k) eqn:E.
  - rewrite decide_True by done. by rewrite <- app_assoc.
  - rewrite decide_False by done. by rewrite app_nil_r.
Qed.

Lemma settle_calls s : calls (settle s).1 = calls s.
Proof. unfold settle, bind, gets, modify. by rewrite for_of_resume_calls. Qed.

Lemma settle_suspended s :
  suspended (settle s).1 = filter (fun k => pending k = true) (suspended s).
Proof. unfold settle, bind, gets, modify. by rewrite for_of_resume_suspended. Qed.

Lemma for_of_resume_pending (ks : list (Continuation Page)) s :
  Forall (fun k => pending k = true) ks ->
  for_of ks resume s = (set_suspended (suspended s ++ ks) s, Normal tt).
Proof.
  intros H. revert s. induction H as [|k ks Hk _ IH]; intros s.
  - cbn. rewrite app_nil_r. by destruct s.
  - destruct k as [module p|module]; [done|]. cbn [for_of]. unfold bind.
    cbn [resume]. unfold suspend, modify. rewrite IH. cbn.
    by rewrite <- app_assoc.
Qed.

(** A checkpoint with nothing to resume changes nothing. *)
Lemma settle_idle s :
  Forall (fun k => pending k = true) (suspended s) -> settle s = (s, Normal tt).
Proof.
  intros H. unfold settle, bind, gets, modify. rewrite for_of_resume_pending by done.
  cbn. by destruct s.
Qed.

Lemma settle_pending s : Forall (fun k => pending k = true) (suspended (settle s).1).
Proof.
  rewrite settle_suspended. apply Forall_forall. by intros k [? _]%list_elem_of_filter.
Qed.

Lemma enableModule_inactive module s :
  id module ∉ activeModules s ->
  calls (enableModule module s).1 = calls s ++ [call_enable (id module)]
  /\ activeModules (enableModule module s).1 = activeModules s.
Proof.
  intros H. run_monad. rewrite bool_decide_eq_false_2 by done.
  destruct (enable module (page s)) as [pg [err|p|]]; done.
Qed.

Lemma disableModule_active module s :
  id module ∈ activeModules s ->
  calls (disableModule module s).1 = calls s ++ [call_disable (id module)]
  /\ activeModules (disableModule module s).1 ⊆ activeModules s.
Proof.
  intros H. run_monad. rewrite bool_decide_eq_true_2 by done. cbn.
  destruct (disable module (page s)) as [pg [|err]]; cbn; split; try done.
  intros x Hx. by apply elem_of_difference in Hx as [? _].
Qed.

(** One turn of the loop of the listener adds no unit to the active set and
    keeps the record of the calls made so far. *)
Lemma applyChange_keeps oldStates newStates entry s :
  activeModules (applyChange oldStates newStates entry s).1 ⊆ activeModules s
  /\ exists more, calls (applyChange oldStates newStates entry s).1 = calls s ++ more.
Proof.
  destruct entry as [i module]. unfold applyChange.
  destruct (_ && _).
  - destruct (decide (id module ∈ activeModules s)) as [Hin|Hin].
    + run_monad. rewrite bool_decide_eq_true_2 by done. cbn.
      split; [done|]. exists []. by rewrite app_nil_r.
    + destruct (enableModule_inactive module s Hin) as [-> ->]. split; [done|by eexists].
  - destruct (_ && _); [|split; [done|]; exists []; by rewrite app_nil_r].
    destruct (decide (id module ∈ activeModules s)) as [Hin|Hin].
    + destruct (disableModule_active module s Hin) as [-> ?]. split; [done|by eexists].
    + run_monad. rewrite bool_decide_eq_false_2 by done. cbn.
      split; [done|]. exists []. by rewrite app_nil_r.
Qed.

Lemma for_of_applyChange_calls oldStates newStates ms : forall s,
  exists more, calls (for_of ms (applyChange oldStates newStates) s).1 = calls s ++ more.
Proof.
  induction ms as [|entry ms IH]; intros s.
  { exists []. cbn. by rewrite app_nil_r. }
  cbn [for_of]. unfold bind.
  pose proof (applyChange_returns oldStates newStates entry s) as R.
  destruct (applyChange_keeps oldStates newStates entry s) as [_ [more C]].
  destruct (applyChange oldStates newStates entry s) as [s1 r]. cbn in R, C. subst r.
  destruct (IH s1) as [more' C']. exists (more ++ more').
  by rewrite C', C, app_assoc.
Qed.

(** In the loop of the listener, [enable()] of a registered unit that is
    not active and that the change turns on is called, whatever the units
    before it do: the call is among those that the loop adds to the
    record. *)
Lemma for_of_applyChange_enables oldStates newStates ms (k : string) other : forall s,
  (k, other) ∈ ms -> id other ∉ activeModules s ->
  PlainObject.truthyAt newStates k = true ->
  PlainObject.truthyAt oldStates k = false ->
  exists more,
    calls (for_of ms (applyChange oldStates newStates) s).1 = calls s ++ more
    /\ call_enable (id other) ∈ more.
Proof.
  induction ms as [|entry ms IH]; intros s Hin Hact Hnew Hold;
    [by apply elem_of_nil in Hin|].
  cbn [for_of]. unfold bind.
  pose proof (applyChange_returns oldStates newStates entry s) as R.
  apply elem_of_cons in Hin as [<-|Hin].
  - assert (C : calls (applyChange oldStates newStates (k, other) s).1
                = calls s ++ [call_enable (id other)]).
    { unfold applyChange. rewrite Hnew, Hold. cbn [andb negb].
      by destruct (enableModule_inactive other s Hact) as [-> _]. }
    destruct (applyChange oldStates newStates (k, other) s) as [s1 r].
    cbn in R, C. subst r.
    destruct (for_of_applyChange_calls oldStates newStates ms s1) as [more C'].
    exists (call_enable (id other) :: more). split; [|apply list_elem_of_here].
    rewrite C', C, <- app_assoc. done.
  - destruct (applyChange_keeps oldStates newStates entry s) as [A [more C]].
    destruct (applyChange oldStates newStates entry s) as [s1 r]. cbn in R, A, C. subst r.
    destruct (IH s1) as (more' & C' & Hin'); [done| |done|done|].
    { intros H. by apply Hact, A. }
    exists (more ++ more'). split; [by rewrite C', C, app_assoc|].
    apply elem_of_app. by right.
Qed.

(** C1, amended.  When [disable()] of an active unit throws, [disableModule]
    catches the error (it returns normally) and logs it; the unit stays in
    the active set, because the removal comes after the call inside the
    [try] block: the state differs from the one before only in the page,
    the record of the call and the console.  The loop of the change
    listener goes on with the units after it.  Later events are processed:
    none ends with an exception, and an event that turns a registered unit
    that is not active on calls its [enable()].  For the unit itself, which
    still counts as active, a later change that turns it on calls nothing,
    and a later change that turns it off calls [disable()] again. *)
Theorem failed_disable_is_contained module s pg err :
  id module ∈ activeModules s ->
  disable module (page s) = (pg, Throws err) ->
  let s' := (disableModule module s).1 in
  (disableModule module s).2 = Normal tt
  /\ s' = set_console (console s ++ [error_failed_to_disable (id module) err])
            (set_calls (calls s ++ [call_disable (id module)]) (set_page pg s))
  /\ console s' = console s ++ [error_failed_to_disable (id module) err]
  /\ activeModules s' = activeModules s
  /\ modules s' = modules s /\ listening s' = listening s
  /\ suspended s' = suspended s
  /\ (forall oldStates newStates rest,
        PlainObject.truthyAt oldStates (id module) = true ->
        PlainObject.truthyAt newStates (id module) = false ->
        for_of ((id module, module) :: rest) (applyChange oldStates newStates) s
          = for_of rest (applyChange oldStates newStates) s')
  /\ (forall areaName changes, (deliver areaName changes s').2 = Normal tt)
  /\ (forall changes old new (k : string) other,
        listening s = true ->
        Events.moduleStates changes = Some (Events.mkChange old (Some new)) ->
        (k, other) ∈ modules s -> id other ∉ activeModules s ->
        PlainObject.truthyAt new k = true ->
        PlainObject.truthyAt (default ∅ old) k = false ->
        exists more,
          calls (deliver Events.sync changes s').1 = calls s' ++ more
          /\ call_enable (id other) ∈ more)
  /\ (forall oldStates newStates,
        PlainObject.truthyAt newStates (id module) = true ->
        applyChange oldStates newStates (id module, module) s' = (s', Normal tt))
  /\ (forall oldStates newStates,
        PlainObject.truthyAt oldStates (id module) = true ->
        PlainObject.truthyAt newStates (id module) = false ->
        calls (applyChange oldStates newStates (id module, module) s').1
          = calls s' ++ [call_disable (id module)]).
Proof.
  intros Hactive Hthrows s'.
  assert (E : disableModule module s =
              (set_console (console s ++ [error_failed_to_disable (id module) err])
                 (set_calls (calls s ++ [call_disable (id module)]) (set_page pg s)),
               Normal tt)).
  { run_monad. rewrite bool_decide_eq_true_2 by done. cbn. by rewrite Hthrows. }
  assert (A : activeModules s' = activeModules s) by (subst s'; by rewrite E).
  assert (Hactive' : id module ∈ activeModules s') by (by rewrite A).
  split; [apply disableModule_returns|].
  split; [subst s'; by rewrite E|].
  split; [subst s'; by rewrite E|].
  split; [exact A|].
  split; [subst s'; by rewrite E|].
  split; [subst s'; by rewrite E|].
  split; [subst s'; by rewrite E|].
  split; [|split; [|split; [|split]]].
  - intros oldStates newStates rest Hold Hnew. cbn [for_of]. unfold bind at 1.
    unfold applyChange at 1. rewrite Hold, Hnew. cbn [andb negb]. subst s'. by rewrite E.
  - intros. apply deliver_returns.
  - intros changes old new k other Hl Hch Hin Hother Hnew Hold.
    assert (M : modules s' = modules s) by (subst s'; by rewrite E).
    assert (L : listening s' = true) by (subst s'; by rewrite E).
    unfold deliver, bind, gets. rewrite L. unfold onChanged. rewrite Hch.
    cbn [Events.newValue Events.oldValue]. unfold bind, gets.
    pose proof (for_of_returns (applyChange (default ∅ old) new) (modules s') s'
                  (applyChange_returns _ _)) as R.
    pose proof (for_of_applyChange_enables (default ∅ old) new (modules s') k other s')
      as C.
    destruct (for_of (modules s') (applyChange (default ∅ old) new) s') as [s1 r].
    cbn in R, C. subst r. rewrite settle_calls.
    apply C; [by rewrite M|by rewrite A|done|done].
  - intros oldStates newStates Hnew. unfold applyChange. rewrite Hnew. cbn [andb negb].
    destruct (negb (PlainObject.truthyAt oldStates (id module))); [|done].
    run_monad. by rewrite bool_decide_eq_true_2.
  - intros oldStates newStates Hold Hnew. unfold applyChange. rewrite Hold, Hnew.
    cbn [andb negb]. by destruct (disableModule_active module s' Hactive') as [-> _].
Qed.

(** C4.  [enableModule] on a unit that is in the active set does nothing at
    all (no call, no state change), and so does [disableModule] on a unit
    that is not in the active set.  Counting calls: when a first
    [enableModule] put the unit in the active set, a second one leaves the
    state as it is, so that [enable()] has run once in total. *)
Theorem enable_disable_idempotent module s :
  (id module ∈ activeModules s -> enableModule module s = (s, Normal tt))
  /\ (id module ∉ activeModules s -> disableModule module s = (s, Normal tt))
  /\ (let s1 := (settle (enableModule module s).1).1 in
      let s2 := (settle (enableModule module s1).1).1 in
      id module ∈ activeModules s1 ->
      s2 = s1
      /\ enable_count (id module) s2 <= enable_count (id module) s + 1
      /\ disable_count (id module) s2 = disable_count (id module) s).
Proof.
  assert (A : forall s0, id module ∈ activeModules s0 ->
                enableModule module s0 = (s0, Normal tt)).
  { intros s0 H. run_monad. by rewrite bool_decide_eq_true_2. }
  split; [apply A|]. split.
  { intros H. run_monad. by rewrite bool_decide_eq_false_2. }
  intros s1 s2 H. assert (E : s2 = s1).
  { subst s2. rewrite (A s1 H). cbn [fst]. rewrite settle_idle; [done|].
    apply settle_pending. }
  split; [exact E|]. rewrite E. subst s1. unfold enable_count, disable_count.
  rewrite settle_calls. split; [apply enableModule_calls|].
  run_monad. case_bool_decide; [done|].
  destruct (enable module (page s)) as [pg0 [err0|p|]]; cbn;
    rewrite filter_app, length_app; cbn;
    rewrite decide_False by discriminate; cbn; lia.
Qed.

End ManagerProperties.

(** C1, as the claim states it, fails: the unit whose [disable()] throws is
    still in the active set after [disableModule]. *)
Lemma failed_disable_stays_active :
  let s := Samples.bothActive in
  let s' := (Manager.disableModule Samples.bazaarTotal s).1 in
  Manager.disable Samples.bazaarTotal (Manager.page s) = (tt, Manager.Throws "teardown failed")
  /\ "bazaar-total" ∈ Manager.activeModules s
  /\ ~ ("bazaar-total" ∉ Manager.activeModules s').
Proof.
  cbn. split; [reflexivity|]. split; [set_solver|].
  intros H. apply H. vm_compute. set_solver.
Qed.


Lemma failed_disable_is_contained_witness :
  let s := Samples.bothActive in
  let s' := (Manager.disableModule Samples.bazaarTotal s).1 in
  "bazaar-total" ∈ Manager.activeModules s
  /\ Manager.disable Samples.bazaarTotal (Manager.page s)
       = (tt, Manager.Throws "teardown failed")
  /\ (Manager.disableModule Samples.bazaarTotal s).2 = Manager.Normal tt
  /\ Manager.console s'
       = [Manager.error_failed_to_disable "bazaar-total" "teardown failed"]
  /\ Manager.activeModules s' = Manager.activeModules s.
Proof.
  intros s s'.
  assert (Hactive : "bazaar-total" ∈ Manager.activeModules s) by (cbn; set_solver).
  assert (Hthrows : Manager.disable Samples.bazaarTotal (Manager.page s)
                    = (tt, Manager.Throws "teardown failed")) by reflexivity.
  destruct (failed_disable_is_contained Samples.bazaarTotal s tt "teardown failed"
              Hactive Hthrows) as (R & _ & C & A & _).
  exact (conj Hactive (conj Hthrows (conj R (conj C A)))).
Defined.

(** The same failure inside one storage event that turns both sample units
    off: the second unit is still torn down and removed. *)
Example deliver_after_failed_disable :
  let off : gmap string bool :=
    <["bazaar-total" := false]> (<["card-favourites" := false]> ∅) in
  let on : gmap string bool :=
    <["bazaar-total" := true]> (<["card-favourites" := true]> ∅) in
  let changes :=
    Events.mkChanges (Some (Events.mkChange (Some on) (Some off))) None None in
  let s' := (Manager.deliver Events.sync changes Samples.bothActive).1 in
  Manager.calls s'
    = [Manager.call_disable "bazaar-total"; Manager.call_disable "card-favourites"]
  /\ Manager.console s'
       = [Manager.error_failed_to_disable "bazaar-total" "teardown failed";
          Manager.log_disabled "card-favourites"]
  /\ bool_decide ("bazaar-total" ∈ Manager.activeModules s') = true
  /\ bool_decide ("card-favourites" ∈ Manager.activeModules s') = false.
Proof. vm_compute. repeat split. Qed.

(** Between the call of [enable()] and the checkpoint that resumes
    [enableModule], the unit is not yet in the active set: a second
    [enableModule] in this window calls [enable()] again.  After the
    checkpoint it does not. *)
Example enableModule_before_checkpoint :
  let s1 := (Manager.enableModule Samples.cardFavourites Samples.noneActive).1 in
  let s2 := (Manager.enableModule Samples.cardFavourites s1).1 in
  let s3 := (Manager.enableModule Samples.cardFavourites (Manager.settle s2).1).1 in
  Manager.enable_count "card-favourites" s1 = 1%nat
  /\ Manager.enable_count "card-favourites" s2 = 2%nat
  /\ Manager.enable_count "card-favourites" s3 = 2%nat.
Proof. vm_compute. repeat split. Qed.

(** From the empty enabled-state map, [initialize] activates nothing; the
    change to [{"card-favourites": true}] then activates that unit only. *)
Example initialize_then_enable_one :
  let s0 := (Manager.initialize ∅ (Manager.set_listening false Samples.noneActive)).1 in
  let on : gmap string bool := <["card-favourites" := true]> ∅ in
  let changes :=
    Events.mkChanges (Some (Events.mkChange (Some ∅) (Some on))) None None in
  let s1 := (Manager.deliver Events.sync changes s0).1 in
  Manager.calls s0 = [] /\ Manager.listening s0 = true
  /\ Manager.calls s1 = [Manager.call_enable "card-favourites"]
  /\ Manager.console s1 = [Manager.log_enabled "card-favourites"]
  /\ bool_decide ("card-favourites" ∈ Manager.activeModules s1) = true
  /\ bool_decide ("bazaar-total" ∈ Manager.activeModules s1) = false.
Proof. vm_compute. repeat split. Qed.

Lemma enable_disable_idempotent_witness :
  let s := Samples.bothActive in
  let s0 := Samples.noneActive in
  Manager.enableModule Samples.cardFavourites s = (s, Manager.Normal tt)
  /\ Manager.disableModule Samples.cardFavourites s0 = (s0, Manager.Normal tt)
  /\ Manager.enable_count "card-favourites"
       (Manager.settle (Manager.enableModule Samples.cardFavourites
          (Manager.settle (Manager.enableModule Samples.cardFavourites s0).1).1).1).1
     <= 1.
Proof.
  intros s s0.
  destruct (enable_disable_idempotent Samples.cardFavourites s) as (E & _ & _).
  destruct (enable_disable_idempotent Samples.cardFavourites s0) as (_ & D & T).
  split; [apply E; cbn; set_solver|].
  split; [apply D; cbn; set_solver|].
  apply T. vm_compute. set_solver.
Defined.

(** ** The pinned list *)

Section PinnedList.
Import QualityFavourites.

Lemma indexOf_elem_of x l : x ∈ l -> exists i, indexOf x l = Some i.
Proof.
  induction l as [|y l IH]; [by intros ?%elem_of_nil|].
  intros [->|Hin]%elem_of_cons; cbn.
  - rewrite bool_decide_eq_true_2 by done. by eexists.
  - case_bool_decide; [by eexists|].
    destruct (IH Hin) as [i ->]. by eexists.
Qed.

Lemma indexOf_not_elem_of x l : x ∉ l -> indexOf x l = None.
Proof.
  induction l as [|y l IH]; [done|].
  intros [Hne Hnin]%not_elem_of_cons. cbn.
  rewrite bool_decide_eq_false_2 by done. by rewrite IH.
Qed.

Lemma splice_insert_Permutation start x l : splice_insert start x l ≡ₚ x :: l.
Proof.
  unfold splice_insert. rewrite <- Permutation_middle. by rewrite take_drop.
Qed.

Lemma filter_eq_replicate x l :
  filter (fun i => i = x) l = replicate (occurrences x l) x.
Proof.
  unfold occurrences. induction l as [|y l IH]; [done|].
  rewrite filter_cons. destruct (decide (y = x)) as [->|]; [|done].
  cbn. by rewrite <- IH.
Qed.

Lemma occurs_once_Permutation x l :
  occurrences x l = 1 -> l ≡ₚ x :: filter (fun i => i ≠ x) l.
Proof.
  intros H. rewrite <- (filter_app_complement (fun i => i = x) l) at 1.
  by rewrite filter_eq_replicate, H.
Qed.

Lemma occurrences_not_elem_of x l : x ∉ l -> occurrences x l = 0.
Proof.
  unfold occurrences. induction l as [|y l IH]; [done|].
  intros [Hne Hnin]%not_elem_of_cons. rewrite filter_cons.
  rewrite decide_False by (by intros ->). by apply IH.
Qed.

Lemma NoDup_occurrences x l : NoDup l -> x ∈ l -> occurrences x l = 1.
Proof.
  induction 1 as [|y l Hy Hnd IH]; [by intros ?%elem_of_nil|].
  intros Hin. unfold occurrences in *. rewrite filter_cons.
  destruct (decide (y = x)) as [->|Hne].
  - cbn. f_equal. by apply occurrences_not_elem_of.
  - apply IH. apply elem_of_cons in Hin as [?|?]; [by subst|done].
Qed.

(** The three operations on the list keep it free of duplicates. *)
Lemma toggleFavourite_NoDup qualityId st :
  NoDup (favouriteIds st) -> NoDup (favouriteIds (toggleFavourite qualityId st)).
Proof.
  intros Hnd. unfold toggleFavourite, isFavourite. cbn [favouriteIds].
  case_bool_decide as Hin; [by apply NoDup_filter|].
  apply NoDup_app. split; [done|]. split; [|apply NoDup_singleton].
  intros i Hi ->%list_elem_of_singleton. done.
Qed.

Lemma reorderFavourite_NoDup movedId targetId insertBefore st :
  NoDup (favouriteIds st) ->
  NoDup (favouriteIds (reorderFavourite movedId targetId insertBefore st)).
Proof.
  intros Hnd. unfold reorderFavourite.
  destruct (indexOf _ _) as [n|]; [|done]. cbn [favouriteIds].
  rewrite splice_insert_Permutation. apply NoDup_cons. split.
  - rewrite list_elem_of_filter. by intros [? _].
  - by apply NoDup_filter.
Qed.

Lemma drop_NoDup qualityId insertBefore st :
  NoDup (favouriteIds st) -> NoDup (favouriteIds (drop qualityId insertBefore st)).
Proof.
  intros Hnd. unfold drop. destruct (draggedId st) as [dragged|]; [|done].
  destruct (_ || _); [done|]. by apply reorderFavourite_NoDup.
Qed.

Lemma reorderFavourite_persisted movedId targetId insertBefore st :
  Storage.getStorage Storage.favouriteQualities
    (store (reorderFavourite movedId targetId insertBefore st))
  = favouriteIds (reorderFavourite movedId targetId insertBefore st)
  \/ reorderFavourite movedId targetId insertBefore st = st.
Proof.
  unfold reorderFavourite. destruct (indexOf _ _) as [n|]; [by left|by right].
Qed.

(** Every list the unit holds, and every list it has written to the store,
    is free of duplicates. *)
Lemma reachable_NoDup st :
  reachable st ->
  NoDup (favouriteIds st)
  /\ NoDup (Storage.getStorage Storage.favouriteQualities (store st)).
Proof.
  induction 1 as [store Hstore|st _ [IH1 IH2]|st _ [IH1 IH2]|st _ [IH1 IH2]
                 |st qualityId _ [IH1 IH2]|st qualityId _ [IH1 IH2] _|st _ [IH1 IH2]
                 |st qualityId insertBefore _ [IH1 IH2] _|st _ [IH1 IH2]
                 |st store' _ [IH1 IH2] Hsame].
  - split; [constructor|]. unfold Storage.getStorage. cbn.
    destruct Hstore as [->| ->]; constructor.
  - split; [constructor|done].
  - by split.
  - split; [constructor|done].
  - split; [by apply toggleFavourite_NoDup|]. by apply toggleFavourite_NoDup.
  - by split.
  - by split.
  - split; [by apply drop_NoDup|]. unfold drop.
    destruct (draggedId st) as [dragged|]; [|done].
    destruct (_ || _); [done|]. cbn [set_draggedId store].
    destruct (reorderFavourite_persisted dragged qualityId insertBefore st) as [-> | ->];
      [by apply reorderFavourite_NoDup|done].
  - split; [done|]. cbn [store]. unfold Storage.initializeStorage.
    destruct (Storage.sync_get Storage.moduleStates (store st)); [done|].
    unfold Storage.getStorage. cbn. constructor.
  - split; [done|]. cbn [store]. unfold Storage.getStorage in *.
    cbn [Storage.sync_get] in *. by rewrite Hsame.
Qed.

(** On a list that holds the dragged id twice, the result is shorter: every
    copy is filtered out and one is put back.  No state of the unit holds
    such a list ([reachable_NoDup]). *)
Lemma reorderFavourite_shrinks_duplicates :
  let st := mkState ["a"; "a"; "b"] (Some "a") Storage.emptyStore in
  "a" ∈ favouriteIds st /\ "b" ∈ favouriteIds st /\ "b" ≠ "a"
  /\ favouriteIds (reorderFavourite "a" "b" true st) = ["a"; "b"]
  /\ ~ NoDup (favouriteIds st).
Proof.
  cbn. split; [set_solver|]. split; [set_solver|]. split; [done|].
  split; [reflexivity|]. intros [H _]%NoDup_cons. apply H, list_elem_of_here.
Qed.

(** C3.  For every list of pinned ids that the unit holds (every state it
    reaches from the load of the script), every dragged id in the list and
    every target id in the list other than the dragged one,
    [reorderFavourite] produces a permutation of the list: same length,
    same elements; the new list is the persisted one.  The same is true of
    every list without duplicates, wherever it came from, and the lists
    the unit holds or has written to the store are of this kind.  Dragging
    "c" from ["a","b","c"] and dropping it above "a" yields
    ["c","a","b"]. *)
Theorem reorderFavourite_permutation :
  (forall st movedId targetId insertBefore,
     reachable st ->
     movedId ∈ favouriteIds st ->
     targetId ∈ favouriteIds st ->
     targetId ≠ movedId ->
     let st' := reorderFavourite movedId targetId insertBefore st in
     favouriteIds st' ≡ₚ favouriteIds st
     /\ length (favouriteIds st') = length (favouriteIds st)
     /\ (forall i, i ∈ favouriteIds st' <-> i ∈ favouriteIds st)
     /\ persisted st' = Some (favouriteIds st'))
  /\ (forall st movedId targetId insertBefore,
        NoDup (favouriteIds st) ->
        movedId ∈ favouriteIds st ->
        targetId ∈ favouriteIds st ->
        targetId ≠ movedId ->
        let st' := reorderFavourite movedId targetId insertBefore st in
        favouriteIds st' ≡ₚ favouriteIds st
        /\ length (favouriteIds st') = length (favouriteIds st)
        /\ (forall i, i ∈ favouriteIds st' <-> i ∈ favouriteIds st)
        /\ persisted st' = Some (favouriteIds st'))
  /\ (forall st, reachable st ->
        NoDup (favouriteIds st)
        /\ NoDup (Storage.getStorage Storage.favouriteQualities (store st)))
  /\ (forall store,
        let st' := drop "a" true (mkState ["a"; "b"; "c"] (Some "c") store) in
        favouriteIds st' = ["c"; "a"; "b"] /\ persisted st' = Some ["c"; "a"; "b"]).
Proof.
  assert (G : forall st movedId targetId insertBefore,
             NoDup (favouriteIds st) ->
             movedId ∈ favouriteIds st ->
             targetId ∈ favouriteIds st ->
             targetId ≠ movedId ->
             let st' := reorderFavourite movedId targetId insertBefore st in
             favouriteIds st' ≡ₚ favouriteIds st
             /\ length (favouriteIds st') = length (favouriteIds st)
             /\ (forall i, i ∈ favouriteIds st' <-> i ∈ favouriteIds st)
             /\ persisted st' = Some (favouriteIds st')).
  { intros st movedId targetId insertBefore Hnd Hmoved Htarget Hne st'.
    pose proof (NoDup_occurrences movedId _ Hnd Hmoved) as Honce.
    assert (Hin : targetId ∈ filter (fun i => i ≠ movedId) (favouriteIds st))
      by (by apply list_elem_of_filter).
    destruct (indexOf_elem_of _ _ Hin) as [targetIndex Hidx].
    assert (P : favouriteIds st' ≡ₚ favouriteIds st).
    { subst st'. unfold reorderFavourite. rewrite Hidx. cbn [favouriteIds].
      rewrite splice_insert_Permutation. symmetry. by apply occurs_once_Permutation. }
    split; [exact P|]. split; [by rewrite P|]. split; [intros i; by rewrite P|].
    subst st'. unfold reorderFavourite. rewrite Hidx. reflexivity. }
  split; [|split; [exact G|split; [exact reachable_NoDup|by intros store]]].
  intros st movedId targetId insertBefore Hreach. apply G.
  by destruct (reachable_NoDup st Hreach).
Qed.

Lemma reorderFavourite_permutation_witness :
  let st := dragstart "c"
              (toggleFavourite "c" (toggleFavourite "b" (toggleFavourite "a"
                 (mkState [] None Storage.emptyStore)))) in
  reachable st
  /\ "c" ∈ favouriteIds st
  /\ "a" ∈ favouriteIds st
  /\ "a" ≠ "c"
  /\ favouriteIds (reorderFavourite "c" "a" true st) ≡ₚ favouriteIds st
  /\ favouriteIds (reorderFavourite "c" "a" true st) = ["c"; "a"; "b"].
Proof.
  intros st.
  assert (H2 : "c" ∈ favouriteIds st)
    by (apply (bool_decide_eq_true_1 ("c" ∈ favouriteIds st)); reflexivity).
  assert (H3 : "a" ∈ favouriteIds st)
    by (apply (bool_decide_eq_true_1 ("a" ∈ favouriteIds st)); reflexivity).
  assert (H1 : reachable st).
  { apply reachable_dragstart; [|exact H2].
    do 3 apply reachable_toggleFavourite. apply reachable_load. by left. }
  assert (H4 : "a" ≠ "c") by discriminate.
  destruct reorderFavourite_permutation as [R _].
  destruct (R st "c" "a" true H1 H2 H3 H4) as (P & _).
  exact (conj H1 (conj H2 (conj H3 (conj H4 (conj P eq_refl))))).
Defined.

(** C6.  A drop on the pinned copy of the dragged id itself, and a drop (or
    a direct call of [reorderFavourite]) whose target id is not in the pinned
    list, change nothing: the store, hence the persisted list, and the list
    the unit holds are the ones from before. *)
Theorem drop_on_self_or_missing_target st qualityId insertBefore :
  (draggedId st = Some qualityId -> drop qualityId insertBefore st = st)
  /\ (qualityId ∉ favouriteIds st ->
      (forall movedId, reorderFavourite movedId qualityId insertBefore st = st)
      /\ store (drop qualityId insertBefore st) = store st
      /\ persisted (drop qualityId insertBefore st) = persisted st
      /\ favouriteIds (drop qualityId insertBefore st) = favouriteIds st)
  /\ reorderFavourite qualityId qualityId insertBefore st = st.
Proof.
  assert (A : forall movedId, qualityId ∉ filter (fun i => i ≠ movedId) (favouriteIds st) ->
              reorderFavourite movedId qualityId insertBefore st = st).
  { intros movedId H. unfold reorderFavourite. by rewrite indexOf_not_elem_of. }
  split; [|split].
  - intros H. unfold drop. rewrite H.
    rewrite (bool_decide_eq_true_2 (qualityId = qualityId)) by done.
    by rewrite orb_true_r.
  - intros Hmissing.
    assert (B : forall movedId, reorderFavourite movedId qualityId insertBefore st = st).
    { intros movedId. apply A. rewrite list_elem_of_filter. tauto. }
    split; [exact B|]. unfold drop, persisted.
    destruct (draggedId st) as [dragged|]; [|done].
    destruct (_ || _); [done|]. by rewrite B.
  - apply A. rewrite list_elem_of_filter. tauto.
Qed.

Lemma drop_on_self_or_missing_target_witness :
  let st := mkState ["a"; "b"] (Some "a")
              (Storage.mkStore None None (Some ["a"; "b"])) in
  draggedId st = Some "a"
  /\ drop "a" true st = st
  /\ ("z" ∉ favouriteIds st)
  /\ persisted (drop "z" true st) = Some ["a"; "b"].
Proof.
  intros st.
  assert (H1 : draggedId st = Some "a") by reflexivity.
  assert (H2 : "z" ∉ favouriteIds st)
    by (apply (bool_decide_eq_false_1 ("z" ∈ favouriteIds st)); reflexivity).
  destruct (drop_on_self_or_missing_target st "a" true) as (S & _).
  destruct (drop_on_self_or_missing_target st "z" true) as (_ & M & _).
  destruct (M H2) as (_ & _ & P & _).
  exact (conj H1 (conj (S H1) (conj H2 P))).
Defined.

End PinnedList.

(** ** The card preference map *)

Section CardPreferences.
Import Storage CardFavourites.


Lemma assign_insert {A} (key : string) (a : A) (o : gmap string A) :
  key ≠ "__proto__" -> PlainObject.assign key a o = <[key := a]> o.
Proof. intros H. unfold PlainObject.assign. by rewrite bool_decide_eq_false_2. Qed.



(** A card whose id is "__proto__" cannot be tagged: the assignment reaches
    the setter of the prototype, the map gets no own property and nothing
    is persisted for the card. *)
Example toggleCardPref_proto :
  let container := mkContainer (Some "__proto__") in
  let st := mkState ∅ emptyStore in
  let st1 := toggleCardPref container favourite st in
  cardPrefs st1 = ∅ /\ persisted "__proto__" st1 = None
  /\ sync_get cardPreferences (store st1) = Some ∅.
Proof. vm_compute. repeat split. Qed.



End CardPreferences.

(** ** Parsing quantities and prices *)

Section Parsing.
Import JS BazaarTotal Grammar.
Implicit Types (s rest : jsstring) (c d : N).

Lemma trimStart_snoc s c :
  isStrWhiteSpaceChar c = false -> trimStart (s ++ [c]) = trimStart s ++ [c].
Proof.
  intros Hc. induction s as [|d s IH]; cbn [app trimStart]; [by rewrite Hc|].
  by destruct (isStrWhiteSpaceChar d).
Qed.

Lemma trimStart_head s :
  match trimStart s with
  | [] => True
  | c :: _ => isStrWhiteSpaceChar c = false
  end.
Proof.
  induction s as [|d s IH]; [done|]. cbn [trimStart].
  by destruct (isStrWhiteSpaceChar d) eqn:E.
Qed.

(** What [trim] returns has no leading white space left for [parseInt] and
    [parseFloat] to skip. *)
Lemma trimStart_trim s : trimStart (trim s) = trim s.
Proof.
  unfold trim, trimEnd. pose proof (trimStart_head s) as H.
  destruct (trimStart s) as [|c t]; [done|].
  cbn [rev]. rewrite trimStart_snoc by done. rewrite rev_app_distr. cbn [rev app].
  cbn [trimStart]. by rewrite H.
Qed.

Lemma spanDigits_spec s :
  s = (spanDigits s).1 ++ (spanDigits s).2
  /\ Forall (fun c => isDigit c = true) (spanDigits s).1.
Proof.
  induction s as [|c s [IH1 IH2]]; [by split|]. cbn [spanDigits].
  destruct (isDigit c) eqn:E; [|by split].
  destruct (spanDigits s) as [ds rest]. cbn in *. split; [by f_equal|by constructor].
Qed.

Lemma spanDigits_head s d rest :
  isDigit d = true -> (spanDigits (d :: rest)).1 ≠ [].
Proof. intros H. cbn [spanDigits]. rewrite H. by destruct (spanDigits rest). Qed.

Lemma spanSign_spec s :
  exists sign, Sign sign /\ s = sign ++ (spanSign s).2.
Proof.
  destruct s as [|c s]; [exists []; split; [by left|done]|].
  assert (D : c = 45%N \/ c = 43%N \/ (c ≠ 45%N /\ c ≠ 43%N)).
  { destruct (decide (c = 45%N)); [by left|].
    destruct (decide (c = 43%N)); [by right; left|by right; right]. }
  destruct D as [->|[->|[H1 H2]]].
  - exists [45%N]. split; [by right; right|done].
  - exists [43%N]. split; [by right; left|done].
  - exists []. split; [by left|].
    unfold spanSign. destruct c as [|p]; [done|].
    repeat (destruct p as [p|p|]; try done).
Qed.

Lemma parseInt10_NaN s :
  trimStart s = s -> ~ hasIntegerPrefix s -> parseInt10 s = NaN.
Proof.
  intros Htrim Hno. unfold parseInt10. rewrite Htrim.
  destruct (spanSign_spec s) as (sign & Hsign & Hs).
  destruct (spanSign s) as [neg str]. cbn [snd] in Hs.
  destruct (spanDigits_spec str) as [Hstr Hdigits].
  destruct (spanDigits str) as [[|d ds] rest]; [done|]. cbn [fst snd] in *.
  exfalso. apply Hno. exists sign, d, (ds ++ rest). split; [done|].
  split; [by inversion Hdigits|]. by rewrite Hs, Hstr.
Qed.

Lemma parseFloat_NaN s :
  trimStart s = s -> ~ parsesAsDecimal s -> parseFloat s = NaN.
Proof.
  intros Htrim Hno. unfold parseFloat. rewrite Htrim.
  destruct (spanSign_spec s) as (sign & Hsign & Hs).
  destruct (spanSign s) as [neg str]. cbn [snd] in Hs.
  assert (Hlit : forall u rest, StrUnsignedDecimalLiteral u -> str = u ++ rest -> False).
  { intros u rest Hu Hstr. apply Hno. exists (sign ++ u), rest.
    split; [by constructor|]. by rewrite Hs, Hstr, app_assoc. }
  unfold startsWith. case_bool_decide as Hinf.
  { exfalso. apply (Hlit (js "Infinity") (drop (length (js "Infinity")) str));
      [constructor|]. rewrite <- Hinf at 1. by rewrite take_drop. }
  destruct (spanDigits_spec str) as [Hstr Hints].
  destruct (spanDigits str) as [ints rest]. cbn [fst snd] in *.
  destruct ints as [|d ints].
  - (* no integer digits: a literal needs "." and a digit *)
    assert (Hfrac : forall rest', rest = 46%N :: rest' ->
              (spanDigits rest').1 = []).
    { intros rest' ->. destruct (spanDigits_spec rest') as [Hrest' Hfs].
      destruct (spanDigits rest') as [[|f fs] rest'']; [done|]. cbn [fst snd] in *.
      exfalso. apply (Hlit (46%N :: (f :: fs) ++ []) rest'').
      - apply literal_fraction; [split; [done|exact Hfs]|by left].
      - rewrite Hstr, Hrest'. cbn. by rewrite app_nil_r. }
    destruct rest as [|c rest']; [done|].
    destruct (decide (c = 46%N)) as [->|Hc].
    + specialize (Hfrac rest' eq_refl).
      destruct (spanDigits rest') as [fs rest'']. cbn in Hfrac. by subst fs.
    + destruct c as [|p]; [done|].
      repeat (destruct p as [p|p|]; try done).
  - exfalso. apply (Hlit ((d :: ints) ++ []) rest).
    + apply literal_integer; [split; [done|exact Hints]|by left].
    + by rewrite app_nil_r.
Qed.

(** C8.  When the text without its commas, trimmed, does not start with an
    optional sign and a digit, [parseQuantity] returns 0; when no prefix of
    the trimmed text is a decimal literal, [parsePrice] returns 0.  Both are
    total functions of the string (nothing in them can throw), and what they
    return is never NaN. *)
Theorem parse_non_numeric (text : jsstring) :
  (~ hasIntegerPrefix (trim (removeCommas text)) -> parseQuantity text = zero)
  /\ (~ parsesAsDecimal (trim text) -> parsePrice text = zero)
  /\ isNaN (parseQuantity text) = false
  /\ isNaN (parsePrice text) = false.
Proof.
  split; [|split; [|split]].
  - intros H. unfold parseQuantity.
    by rewrite parseInt10_NaN by (done || apply trimStart_trim).
  - intros H. unfold parsePrice.
    by rewrite parseFloat_NaN by (done || apply trimStart_trim).
  - unfold parseQuantity. by destruct (parseInt10 _).
  - unfold parsePrice. by destruct (parseFloat _).
Qed.

Lemma parse_non_numeric_witness :
  let text := js " n,a " in
  ~ hasIntegerPrefix (trim (removeCommas text))
  /\ parseQuantity text = zero
  /\ ~ parsesAsDecimal (trim text)
  /\ parsePrice text = zero.
Proof.
  intros text.
  assert (H1 : ~ hasIntegerPrefix (trim (removeCommas text))).
  { assert (T : trim (removeCommas text) = [110; 97]%N) by (vm_compute; reflexivity).
    rewrite T.
    intros (sign & d & rest & [-> | [-> | ->]] & Hd & Heq);
      cbn [app] in Heq; inversion Heq; subst; vm_compute in Hd; discriminate. }
  assert (H2 : ~ parsesAsDecimal (trim text)).
  { assert (T : trim text = [110; 44; 97]%N) by (vm_compute; reflexivity).
    intros (literal & rest & Hlit & Heq). rewrite T in Heq.
    destruct Hlit as [sign u Hsign Hu].
    assert (Hdigit : forall ds tl, DecimalDigits ds ->
              ~ ([110; 44; 97]%N = ds ++ tl)).
    { intros [|c ds] tl [Hne Hall]; [done|]. inversion Hall as [|? ? Hc _]; subst.
      intros E; inversion E; subst; vm_compute in Hc; discriminate. }
    destruct Hsign as [-> | [-> | ->]]; cbn [app] in Heq;
      try (inversion Heq; fail).
    destruct Hu as [|ds fs ex Hds _ _|fs ex _ _|ds ex Hds _].
    - change (js "Infinity") with [73; 110; 102; 105; 110; 105; 116; 121]%N in Heq.
      cbn [app] in Heq. inversion Heq.
    - rewrite <- app_assoc in Heq. by apply (Hdigit ds _ Hds) in Heq.
    - cbn [app] in Heq. inversion Heq.
    - rewrite <- app_assoc in Heq. by apply (Hdigit ds _ Hds) in Heq. }
  destruct (parse_non_numeric text) as (Q & P & _).
  exact (conj H1 (conj (Q H1) (conj H2 (P H2)))).
Defined.

End Parsing.

(** ** Doubles that hold integers

    Facts about the rounding functions of [SpecFloat] at precision 53: an
    integer below [2 ^ 53] in magnitude has one normalised representation,
    and sums and products that stay below [2 ^ 53] are computed exactly. *)

Section Doubles.
Import JS.
Open Scope Z_scope.

Lemma digits_bounds (p : positive) :
  2 ^ (Zpos (digits2_pos p) - 1) <= Zpos p < 2 ^ Zpos (digits2_pos p).
Proof.
  induction p as [p IH|p IH|]; cbn [digits2_pos]; [| |cbn; lia];
    rewrite Pos2Z.inj_succ;
    replace (Z.succ (Zpos (digits2_pos p)) - 1) with (Z.succ (Zpos (digits2_pos p) - 1)) by lia;
    rewrite !Z.pow_succ_r by lia; lia.
Qed.

Lemma digits_unique (p : positive) (k : Z) :
  2 ^ (k - 1) <= Zpos p < 2 ^ k -> Zpos (digits2_pos p) = k.
Proof.
  intros [Hlo Hhi]. pose proof (digits_bounds p) as [Dlo Dhi].
  destruct (Z.lt_trichotomy (Zpos (digits2_pos p)) k) as [H|[H|H]]; [|done|].
  - assert (2 ^ Zpos (digits2_pos p) <= 2 ^ (k - 1)) by (apply Z.pow_le_mono_r; lia).
    lia.
  - destruct (Z.le_gt_cases 0 k) as [Hk|Hk].
    + assert (2 ^ k <= 2 ^ (Zpos (digits2_pos p) - 1)) by (apply Z.pow_le_mono_r; lia).
      lia.
    + rewrite (Z.pow_neg_r 2 k) in Hhi by lia. lia.
Qed.

Lemma digits_scaled (p q : positive) (n : Z) :
  0 <= n -> Zpos p = Zpos q * 2 ^ n ->
  Zpos (digits2_pos p) = Zpos (digits2_pos q) + n.
Proof.
  intros Hn Hp. apply digits_unique. pose proof (digits_bounds q) as [Dlo Dhi].
  rewrite Hp.
  replace (Zpos (digits2_pos q) + n - 1) with (Zpos (digits2_pos q) - 1 + n) by lia.
  rewrite !Z.pow_add_r by lia.
  assert (0 < 2 ^ n) by (apply Z.pow_pos_nonneg; lia). nia.
Qed.

Lemma iter_xO_pow2 (p k : positive) : Zpos (Pos.iter xO p k) = Zpos p * 2 ^ Zpos k.
Proof.
  induction k as [|k IH] using Pos.peano_ind.
  - cbn. lia.
  - rewrite Pos.iter_succ, Pos2Z.inj_xO, IH, Pos2Z.inj_succ, Z.pow_succ_r by lia. lia.
Qed.

Lemma iter_pos_nat {A} (f : A -> A) (n : positive) (x : A) :
  SpecFloat.iter_pos f n x = Nat.iter (Pos.to_nat n) f x.
Proof.
  revert x. induction n as [n IH|n IH|]; intros x; cbn [SpecFloat.iter_pos]; [| |done].
  - rewrite !IH, Pos2Nat.inj_xI.
    replace (S (2 * Pos.to_nat n)) with (Pos.to_nat n + S (Pos.to_nat n))%nat by lia.
    by rewrite Nat.iter_add, Nat.iter_succ_r.
  - rewrite !IH, Pos2Nat.inj_xO.
    replace (2 * Pos.to_nat n)%nat with (Pos.to_nat n + Pos.to_nat n)%nat by lia.
    by rewrite Nat.iter_add.
Qed.

Lemma shr_1_double (z : Z) :
  0 < z -> shr_1 (Build_shr_record (2 * z) false false) = Build_shr_record z false false.
Proof. destruct z; cbn; done || lia. Qed.

Lemma shr_nat_exact (k : nat) (z : Z) :
  0 < z ->
  Nat.iter k shr_1 (Build_shr_record (z * 2 ^ Z.of_nat k) false false)
    = Build_shr_record z false false.
Proof.
  intros Hz. induction k as [|k IH].
  - cbn [Nat.iter]. change (Z.of_nat 0) with 0. by rewrite Z.pow_0_r, Z.mul_1_r.
  - rewrite Nat.iter_succ_r, Nat2Z.inj_succ, Z.pow_succ_r by lia.
    replace (z * (2 * 2 ^ Z.of_nat k)) with (2 * (z * 2 ^ Z.of_nat k)) by lia.
    rewrite shr_1_double; [exact IH|].
    assert (0 < 2 ^ Z.of_nat k) by (apply Z.pow_pos_nonneg; lia). nia.
Qed.

Lemma shr_exact (M q : positive) (E n : Z) :
  0 <= n -> Zpos M = Zpos q * 2 ^ n ->
  shr (Build_shr_record (Zpos M) false false) E n
    = (Build_shr_record (Zpos q) false false, E + n).
Proof.
  intros Hn HM. destruct n as [|n|n]; [| |lia]; cbn [shr].
  - rewrite Z.add_0_r. rewrite Z.pow_0_r, Z.mul_1_r in HM. by rewrite HM.
  - f_equal. rewrite iter_pos_nat, HM, <- (positive_nat_Z n).
    by apply shr_nat_exact.
Qed.

(** Rounding a mantissa whose low bits are zero drops these bits and
    nothing else. *)
Lemma binary_round_aux_exact (s : bool) (M q : positive) (E n : Z) :
  0 <= n -> Zpos M = Zpos q * 2 ^ n ->
  fexp prec emax (Zpos (digits2_pos M) + E) = E + n ->
  E + n <= 971 ->
  binary_round_aux prec emax s (Zpos M) E loc_Exact = S754_finite s q (E + n).
Proof.
  intros Hn HM Hfexp Hmax. unfold binary_round_aux, shr_fexp.
  cbn [Zdigits2 shr_record_of_loc]. rewrite Hfexp.
  replace (E + n - E) with n by lia. rewrite (shr_exact M q E n) by done.
  cbn [shr_m loc_of_shr_record round_nearest_even Zdigits2 shr_record_of_loc].
  assert (Hq : fexp prec emax (Zpos (digits2_pos q) + (E + n)) = E + n).
  { etrans; [|exact Hfexp]. f_equal. rewrite (digits_scaled M q n) by done. lia. }
  rewrite Hq, Z.sub_diag. cbn [shr shr_m].
  unfold emax, prec. rewrite (proj2 (Z.leb_le _ _)) by lia. done.
Qed.

Lemma digits_le_53 (p : positive) : Zpos p < 2 ^ 53 -> Zpos (digits2_pos p) <= 53.
Proof.
  intros H. pose proof (digits_bounds p) as [Dlo _].
  destruct (Z.le_gt_cases (Zpos (digits2_pos p)) 53) as [|Hgt]; [done|].
  assert (2 ^ 53 <= 2 ^ (Zpos (digits2_pos p) - 1)) by (apply Z.pow_le_mono_r; lia).
  lia.
Qed.

Lemma integer_mantissa (p : positive) :
  Zpos p < 2 ^ 53 ->
  Zpos (Z.to_pos (Zpos p * 2 ^ (53 - Zpos (digits2_pos p))))
    = Zpos p * 2 ^ (53 - Zpos (digits2_pos p)).
Proof.
  intros H. pose proof (digits_le_53 p H).
  apply Z2Pos.id.
  assert (0 < 2 ^ (53 - Zpos (digits2_pos p))) by (apply Z.pow_pos_nonneg; lia). nia.
Qed.

Lemma integer_mantissa_digits (p : positive) :
  Zpos p < 2 ^ 53 ->
  Zpos (digits2_pos (Z.to_pos (Zpos p * 2 ^ (53 - Zpos (digits2_pos p))))) = 53.
Proof.
  intros H. pose proof (digits_le_53 p H).
  rewrite (digits_scaled _ p (53 - Zpos (digits2_pos p))); [lia|lia|].
  by apply integer_mantissa.
Qed.

Lemma fexp_small (d : Z) : -1021 <= d -> fexp prec emax d = d - 53.
Proof. intros H. unfold fexp, emin, prec, emax. lia. Qed.

(** Rounding [p * 2 ^ n] given with exponent [E], when [p * 2 ^ (n + E)] is
    an integer below [2 ^ 53]: the result is the double of that integer. *)
Lemma binary_round_aux_integer (s : bool) (M p : positive) (E : Z) :
  E <= Zpos (digits2_pos p) - 53 ->
  Zpos M = Zpos p * 2 ^ (- E) -> Zpos p < 2 ^ 53 ->
  binary_round_aux prec emax s (Zpos M) E loc_Exact = integer_double s p.
Proof.
  intros HE HM Hp. pose proof (digits_le_53 p Hp) as Hd.
  pose proof (digits_bounds p) as [Dlo Dhi].
  set (d := Zpos (digits2_pos p)) in *.
  assert (HdM : Zpos (digits2_pos M) = d - E).
  { rewrite (digits_scaled M p (- E)) by (lia || done). fold d. lia. }
  unfold integer_double. fold d.
  replace (d - 53) with (E + (d - 53 - E)) by lia.
  apply binary_round_aux_exact.
  - lia.
  - rewrite integer_mantissa by done. fold d. rewrite HM, <- Z.mul_assoc.
    rewrite <- Z.pow_add_r by lia. do 2 f_equal. lia.
  - rewrite HdM, fexp_small by lia. lia.
  - lia.
Qed.

Lemma of_Z_pos (p : positive) :
  Zpos p < 2 ^ 53 -> of_Z (Zpos p) = integer_double false p.
Proof.
  intros Hp. pose proof (digits_le_53 p Hp) as Hd.
  unfold of_Z, binary_normalize, binary_round.
  rewrite fexp_small by lia. unfold shl_align.
  destruct (Zpos (digits2_pos p) + 0 - 53 - 0) as [|k|k] eqn:Hk; [|lia|].
  - apply binary_round_aux_integer; [lia| |done]. cbn. lia.
  - apply binary_round_aux_integer; [lia| |done].
    rewrite iter_xO_pow2. do 2 f_equal. lia.
Qed.

Lemma of_Z_neg (p : positive) :
  Zpos p < 2 ^ 53 -> of_Z (Zneg p) = integer_double true p.
Proof.
  intros Hp. pose proof (digits_le_53 p Hp) as Hd.
  unfold of_Z, binary_normalize, binary_round.
  rewrite fexp_small by lia. unfold shl_align.
  destruct (Zpos (digits2_pos p) + 0 - 53 - 0) as [|k|k] eqn:Hk; [|lia|].
  - apply binary_round_aux_integer; [lia| |done]. cbn. lia.
  - apply binary_round_aux_integer; [lia| |done].
    rewrite iter_xO_pow2. do 2 f_equal. lia.
Qed.

(** Products and sums of integers that stay below [2 ^ 53] are exact. *)
Lemma mul_integer (s1 s2 : bool) (a b : positive) :
  Zpos (a * b) < 2 ^ 53 ->
  mul (integer_double s1 a) (integer_double s2 b) = integer_double (xorb s1 s2) (a * b).
Proof.
  intros Hab.
  assert (Ha : Zpos a < 2 ^ 53) by nia. assert (Hb : Zpos b < 2 ^ 53) by nia.
  pose proof (digits_le_53 a Ha). pose proof (digits_le_53 b Hb).
  assert (Hd : Zpos (digits2_pos a) + Zpos (digits2_pos b) - 1
               <= Zpos (digits2_pos (a * b))).
  { pose proof (digits_bounds a) as [Alo _]. pose proof (digits_bounds b) as [Blo _].
    pose proof (digits_bounds (a * b)) as [_ Dhi].
    destruct (Z.le_gt_cases (Zpos (digits2_pos a) + Zpos (digits2_pos b) - 1)
                (Zpos (digits2_pos (a * b)))) as [|Hgt]; [done|].
    assert (2 ^ Zpos (digits2_pos (a * b))
              <= 2 ^ ((Zpos (digits2_pos a) - 1) + (Zpos (digits2_pos b) - 1)))
      by (apply Z.pow_le_mono_r; lia).
    rewrite Z.pow_add_r in * by lia.
    assert (0 < 2 ^ (Zpos (digits2_pos a) - 1)) by (apply Z.pow_pos_nonneg; lia).
    assert (0 < 2 ^ (Zpos (digits2_pos b) - 1)) by (apply Z.pow_pos_nonneg; lia).
    nia. }
  unfold integer_double at 1 2. unfold mul, SFmul.
  apply binary_round_aux_integer; [lia| |done].
  rewrite Pos2Z.inj_mul, !integer_mantissa by done.
  replace (- (Zpos (digits2_pos a) - 53 + (Zpos (digits2_pos b) - 53)))
    with ((53 - Zpos (digits2_pos a)) + (53 - Zpos (digits2_pos b))) by lia.
  rewrite Z.pow_add_r by lia. lia.
Qed.

Lemma shl_align_pow2 (M : positive) (E ez : Z) :
  ez <= E -> Zpos (shl_align M E ez).1 = Zpos M * 2 ^ (E - ez).
Proof.
  intros H. unfold shl_align. destruct (ez - E) as [|k|k] eqn:Hk; [|lia|]; cbn [fst].
  - replace (E - ez) with 0 by lia. lia.
  - rewrite iter_xO_pow2. do 2 f_equal. lia.
Qed.

Lemma add_integer (a b : positive) :
  Zpos (a + b) < 2 ^ 53 ->
  add (integer_double false a) (integer_double false b) = integer_double false (a + b).
Proof.
  intros Hab.
  assert (Ha : Zpos a < 2 ^ 53) by lia. assert (Hb : Zpos b < 2 ^ 53) by lia.
  pose proof (digits_le_53 a Ha). pose proof (digits_le_53 b Hb).
  unfold integer_double at 1 2. unfold add, SFadd. cbn [cond_Zopp].
  set (Ea := Zpos (digits2_pos a) - 53). set (Eb := Zpos (digits2_pos b) - 53).
  set (ez := Z.min Ea Eb).
  set (Ma := Z.to_pos (Zpos a * 2 ^ (53 - Zpos (digits2_pos a)))).
  set (Mb := Z.to_pos (Zpos b * 2 ^ (53 - Zpos (digits2_pos b)))).
  assert (HMa : Zpos (shl_align Ma Ea ez).1 = Zpos a * 2 ^ (- ez)).
  { rewrite shl_align_pow2 by lia. unfold Ma. rewrite integer_mantissa by done.
    rewrite <- Z.mul_assoc, <- Z.pow_add_r by lia. do 2 f_equal. lia. }
  assert (HMb : Zpos (shl_align Mb Eb ez).1 = Zpos b * 2 ^ (- ez)).
  { rewrite shl_align_pow2 by lia. unfold Mb. rewrite integer_mantissa by done.
    rewrite <- Z.mul_assoc, <- Z.pow_add_r by lia. do 2 f_equal. lia. }
  rewrite <- Pos2Z.inj_add. unfold binary_normalize, binary_round.
  set (S := ((shl_align Ma Ea ez).1 + (shl_align Mb Eb ez).1)%positive).
  assert (HS : Zpos S = Zpos (a + b) * 2 ^ (- ez)).
  { unfold S. rewrite !Pos2Z.inj_add, HMa, HMb. lia. }
  pose proof (digits_le_53 (a + b) Hab) as Hdab.
  pose proof (digits_bounds (a + b)) as [Dlo Dhi].
  pose proof (digits_bounds a) as [Alo Ahi]. pose proof (digits_bounds b) as [Blo Bhi].
  assert (Hda : Zpos (digits2_pos a) <= Zpos (digits2_pos (a + b))).
  { destruct (Z.le_gt_cases (Zpos (digits2_pos a)) (Zpos (digits2_pos (a + b))));
      [done|].
    assert (2 ^ Zpos (digits2_pos (a + b)) <= 2 ^ (Zpos (digits2_pos a) - 1))
      by (apply Z.pow_le_mono_r; lia). lia. }
  assert (HdS : Zpos (digits2_pos S) = Zpos (digits2_pos (a + b)) - ez).
  { rewrite (digits_scaled S (a + b) (- ez)) by (lia || done). lia. }
  rewrite HdS, fexp_small by lia. unfold shl_align.
  destruct (Zpos (digits2_pos (a + b)) - ez + ez - 53 - ez) as [|k|k] eqn:Hk; [| |lia].
  - apply binary_round_aux_integer; [lia|done|done].
  - apply binary_round_aux_integer; [lia|done|done].
Qed.

End Doubles.

(** ** The total of the line items *)

Section Totals.
Import JS BazaarTotal.
Open Scope Z_scope.

Lemma of_Z_N_mul (q p : N) :
  Z.of_N q < 2 ^ 53 -> Z.of_N p < 2 ^ 53 ->
  Z.of_N q * Z.of_N p < 2 ^ 53 ->
  mul (of_Z (Z.of_N q)) (of_Z (Z.of_N p)) = of_Z (Z.of_N q * Z.of_N p).
Proof.
  intros Hq Hp H. destruct q as [|q], p as [|p]; cbn [Z.of_N Z.mul] in *; try done.
  - rewrite of_Z_pos by done. reflexivity.
  - rewrite of_Z_pos by done. reflexivity.
  - rewrite <- Pos2Z.inj_mul in *. rewrite !of_Z_pos by done. by apply mul_integer.
Qed.

Lemma of_Z_add (a b : Z) :
  0 <= a -> 0 <= b -> a + b < 2 ^ 53 -> add (of_Z a) (of_Z b) = of_Z (a + b).
Proof.
  intros Ha Hb H. destruct a as [|a|a], b as [|b|b]; try lia; try done.
  - rewrite Z.add_0_l, of_Z_pos by lia. reflexivity.
  - rewrite Z.add_0_r, of_Z_pos by lia. reflexivity.
  - rewrite <- Pos2Z.inj_add in *. rewrite !of_Z_pos by lia. by apply add_integer.
Qed.

Lemma exactTotal_cons line lines :
  exactTotal (line :: lines) = Z.of_N line.1 * Z.of_N line.2 + exactTotal lines.
Proof. reflexivity. Qed.

Lemma exactTotal_nonneg lines : 0 <= exactTotal lines.
Proof.
  induction lines as [|line lines IH]; [done|]. rewrite exactTotal_cons. lia.
Qed.

Lemma exactTotal_Permutation lines lines' :
  lines ≡ₚ lines' -> exactTotal lines = exactTotal lines'.
Proof. induction 1; rewrite ?exactTotal_cons; lia. Qed.

Lemma fold_integers (lines : list (N * N)) (acc : Z) :
  Forall safeLine lines ->
  0 <= acc -> acc + exactTotal lines < 2 ^ 53 ->
  fold_left (fun sum item => add sum (mul (quantity item) (price item)))
            (map integerItem lines) (of_Z acc)
    = of_Z (acc + exactTotal lines).
Proof.
  intros Hsafe. revert acc.
  induction Hsafe as [|[q p] lines [Hq Hp] Hsafe IH]; intros acc Hacc H.
  - cbn. by rewrite Z.add_0_r.
  - rewrite exactTotal_cons in H.
    cbn [map fold_left integerItem quantity price fst snd] in *.
    pose proof (exactTotal_nonneg lines).
    assert (0 <= Z.of_N q * Z.of_N p) by lia.
    rewrite exactTotal_cons. cbn [fst snd].
    rewrite of_Z_N_mul by lia. rewrite of_Z_add by lia.
    rewrite IH by lia. f_equal. lia.
Qed.

Lemma computeTotal_integers (lines : list (N * N)) :
  Forall safeLine lines ->
  exactTotal lines < 2 ^ 53 ->
  computeTotal (map integerItem lines) = of_Z (exactTotal lines).
Proof.
  intros Hsafe H. unfold computeTotal. change zero with (of_Z 0).
  by rewrite fold_integers.
Qed.

(** C9, as the claim states it, fails: with quantity 1 and the prices 0.1,
    0.2, 0.3 the total depends on the order, because each addition rounds. *)
Lemma computeTotal_depends_on_order :
  let a := mkItem Samples.one Samples.tenth in
  let b := mkItem Samples.one Samples.fifth in
  let c := mkItem Samples.one Samples.threeTenths in
  [a; b; c] ≡ₚ [c; b; a]
  /\ computeTotal [a; b; c] = S754_finite false 5404319552844596 (-53)
  /\ computeTotal [c; b; a] = S754_finite false 5404319552844595 (-53)
  /\ computeTotal [a; b; c] ≠ computeTotal [c; b; a].
Proof.
  intros a b c. split; [exact (Permutation_rev [a; b; c])|by vm_compute].
Qed.

(** C9, amended.  [computeTotal] of the empty sequence is 0; it adds
    quantity × price to the running sum from left to right, in double
    arithmetic; a line whose quantity or price is a zero, the other factor
    being finite, contributes a zero, which leaves a non-zero running sum as
    it is and a zero running sum zero.  When all quantities and prices are
    natural numbers below [2 ^ 53] and the exact total is below [2 ^ 53],
    the result is the exact total, hence the same for every permutation of
    the sequence. *)
Theorem computeTotal_sum :
  computeTotal [] = zero
  /\ (forall items item,
        computeTotal (items ++ [item])
          = add (computeTotal items) (mul (quantity item) (price item)))
  /\ (forall q p,
        (isZero q && isFinite p) || (isFinite q && isZero p) = true ->
        isZero (mul q p) = true
        /\ forall sum, if isZero sum then isZero (add sum (mul q p)) = true
                       else add sum (mul q p) = sum)
  /\ (forall lines lines' : list (N * N),
        lines ≡ₚ lines' ->
        Forall safeLine lines ->
        exactTotal lines < 2 ^ 53 ->
        computeTotal (map integerItem lines) = of_Z (exactTotal lines)
        /\ computeTotal (map integerItem lines') = computeTotal (map integerItem lines)).
Proof.
  split; [done|]. split; [|split].
  - intros items item. unfold computeTotal. by rewrite fold_left_app.
  - intros q p H.
    assert (Z : isZero (mul q p) = true)
      by (destruct q as [| | |? ? ?], p as [| | |? ? ?]; done).
    split; [exact Z|]. intros sum.
    destruct (mul q p) as [sz| | |]; try done.
    by destruct sum as [[]| | |], sz.
  - intros lines lines' HP Hsafe H.
    rewrite !computeTotal_integers;
      [by rewrite (exactTotal_Permutation _ _ HP)
      |by rewrite <- HP|by rewrite <- (exactTotal_Permutation _ _ HP)|done|done].
Qed.

Lemma computeTotal_sum_witness :
  let lines := [(3%N, 5%N); (0%N, 7%N); (2%N, 10%N)] in
  let lines' := [(2%N, 10%N); (3%N, 5%N); (0%N, 7%N)] in
  lines ≡ₚ lines'
  /\ Forall safeLine lines
  /\ exactTotal lines < 2 ^ 53
  /\ computeTotal (map integerItem lines') = of_Z 35
  /\ isZero (mul (of_Z 0) (of_Z 7)) = true.
Proof.
  intros lines lines'.
  assert (HP : lines ≡ₚ lines').
  { symmetry. exact (Permutation_cons_append [(3%N, 5%N); (0%N, 7%N)] (2%N, 10%N)). }
  assert (HS : Forall safeLine lines)
    by (repeat constructor; vm_compute; reflexivity).
  assert (HT : exactTotal lines < 2 ^ 53) by (vm_compute; reflexivity).
  destruct computeTotal_sum as (_ & _ & HZ & HO).
  destruct (HO lines lines' HP HS HT) as [E1 E2].
  destruct (HZ (of_Z 0) (of_Z 7) eq_refl) as [Z _].
  split; [exact HP|]. split; [exact HS|]. split; [exact HT|]. split; [|exact Z].
  rewrite E2. exact E1.
Defined.

End Totals.

(** ** Decimal digits *)

Section DecimalDigits.
Import JS.
Open Scope Z_scope.

Lemma decimalDigits_acc (fuel : nat) (n : Z) (acc : jsstring) :
  decimalDigits fuel n acc = decimalDigits fuel n [] ++ acc.
Proof.
  revert n acc. induction fuel as [|fuel IH]; intros n acc; cbn [decimalDigits];
    [done|].
  destruct (n <? 10); [done|].
  rewrite IH, (IH _ [_]), <- app_assoc. done.
Qed.

Lemma decimalDigits_fuel (f1 f2 : nat) (n : Z) (acc : jsstring) :
  0 <= n < 2 ^ (Z.of_nat f1 + 1) -> n < 2 ^ (Z.of_nat f2 + 1) ->
  decimalDigits f1 n acc = decimalDigits f2 n acc.
Proof.
  revert f2 n acc. induction f1 as [|f1 IH]; intros f2 n acc H1 H2.
  - cbn in H1. destruct f2 as [|f2]; [done|]. cbn [decimalDigits].
    by rewrite (proj2 (Z.ltb_lt n 10)) by lia.
  - cbn [decimalDigits]. destruct (n <? 10) eqn:E.
    + destruct f2 as [|f2]; cbn [decimalDigits]; [done|by rewrite E].
    + apply Z.ltb_ge in E.
      assert (D : forall f : nat, n < 2 ^ (Z.of_nat (S f) + 1) ->
                    n / 10 < 2 ^ (Z.of_nat f + 1)).
      { intros f Hf. rewrite Nat2Z.inj_succ in Hf.
        replace (Z.succ (Z.of_nat f) + 1) with (Z.succ (Z.of_nat f + 1)) in Hf by lia.
        rewrite Z.pow_succ_r in Hf by lia.
        apply Z.div_lt_upper_bound; lia. }
      destruct f2 as [|f2].
      * cbn in H2. lia.
      * cbn [decimalDigits]. rewrite (proj2 (Z.ltb_ge n 10)) by done.
        apply IH; [split; [apply Z.div_pos; lia|apply D; lia]|apply D; lia].
Qed.

Lemma log2_fuel (n : Z) : 0 <= n -> n < 2 ^ (Z.of_nat (Z.to_nat (Z.log2 n)) + 1).
Proof.
  intros H. rewrite Z2Nat.id by apply Z.log2_nonneg.
  destruct (Z.eq_dec n 0) as [->|]; [done|].
  replace (Z.log2 n + 1) with (Z.succ (Z.log2 n)) by lia.
  apply Z.log2_spec. lia.
Qed.

Lemma decimal_small (n : Z) : 0 <= n < 10 -> decimal n = [digitChar n].
Proof.
  intros H. unfold decimal.
  destruct (Z.to_nat (Z.log2 n)); cbn [decimalDigits]; [done|].
  by rewrite (proj2 (Z.ltb_lt n 10)) by lia.
Qed.

Lemma decimal_step (n : Z) :
  10 <= n -> decimal n = decimal (n / 10) ++ [digitChar n].
Proof.
  intros H. unfold decimal.
  assert (Hlog : 3 <= Z.log2 n) by (apply Z.log2_le_pow2; cbn; lia).
  destruct (Z.to_nat (Z.log2 n)) as [|fuel] eqn:E; [lia|].
  cbn [decimalDigits]. rewrite (proj2 (Z.ltb_ge n 10)) by done.
  rewrite decimalDigits_acc. f_equal.
  assert (0 <= n / 10) by (apply Z.div_pos; lia).
  apply decimalDigits_fuel; [split; [done|]|by apply log2_fuel].
  pose proof (log2_fuel n ltac:(lia)) as L. rewrite E, Nat2Z.inj_succ in L.
  replace (Z.succ (Z.of_nat fuel) + 1) with (Z.succ (Z.of_nat fuel + 1)) in L by lia.
  rewrite Z.pow_succ_r in L by lia.
  apply Z.div_lt_upper_bound; lia.
Qed.

Lemma decimal_pow10 (c : Z) (j : nat) :
  0 < c -> decimal (c * 10 ^ Z.of_nat j) = decimal c ++ zeros j.
Proof.
  intros Hc. induction j as [|j IH].
  - cbn [zeros replicate]. rewrite app_nil_r. f_equal. cbn. lia.
  - assert (0 < 10 ^ Z.of_nat j) by (apply Z.pow_pos_nonneg; lia).
    rewrite Nat2Z.inj_succ, Z.pow_succ_r by lia.
    rewrite decimal_step by nia.
    replace (c * (10 * 10 ^ Z.of_nat j)) with (c * 10 ^ Z.of_nat j * 10) by lia.
    rewrite Z.div_mul by lia. rewrite IH.
    unfold digitChar. rewrite Z.mod_mul by lia.
    unfold zeros. rewrite <- app_assoc. f_equal.
    change (Z.to_N (48 + 0)) with 48%N. by rewrite <- replicate_cons_app.
Qed.

Lemma decimal_all_digits (n : Z) :
  0 <= n -> Forall (fun c => isDigit c = true) (decimal n).
Proof.
  intros H. generalize H. pattern n. apply Z_lt_induction; [|done].
  clear n H. intros n IH H.
  assert (Hd : isDigit (digitChar n) = true).
  { unfold digitChar, isDigit. pose proof (Z.mod_pos_bound n 10 ltac:(lia)).
    apply andb_true_intro. split; apply N.leb_le; lia. }
  destruct (Z.lt_ge_cases n 10) as [Hs|Hl].
  - rewrite decimal_small by lia. by constructor.
  - rewrite decimal_step by done. apply Forall_app. split; [|by constructor].
    apply IH; [|apply Z.div_pos; lia].
    split; [apply Z.div_pos; lia|apply Z.div_lt; lia].
Qed.

Lemma decimal_length (n : Z) :
  0 < n -> 10 ^ (Z.of_nat (length (decimal n)) - 1) <= n.
Proof.
  intros H. generalize H. pattern n. apply Z_lt_induction; [|lia].
  clear n H. intros n IH H.
  destruct (Z.lt_ge_cases n 10) as [Hs|Hl].
  - rewrite decimal_small by lia. cbn. lia.
  - rewrite decimal_step by done. rewrite length_app. cbn [length].
    assert (0 < n / 10) by (apply Z.div_str_pos; lia).
    specialize (IH (n / 10) ltac:(split; [lia|apply Z.div_lt; lia]) ltac:(lia)).
    replace (Z.of_nat (length (decimal (n / 10)) + 1) - 1)
      with (Z.succ (Z.of_nat (length (decimal (n / 10))) - 1)) by lia.
    assert (0 < length (decimal (n / 10)))%nat.
    { destruct (Z.lt_ge_cases (n / 10) 10).
      - rewrite decimal_small by lia. cbn. lia.
      - rewrite decimal_step by done. rewrite length_app. cbn. lia. }
    rewrite Z.pow_succ_r by lia.
    pose proof (Z.mul_div_le n 10 ltac:(lia)). lia.
Qed.

End DecimalDigits.

(** ** [toString] of a double that holds an integer *)

Section IntegerToString.
Import JS.
Open Scope Z_scope.

Lemma same_eq (x y : number) : same x y = true -> x = y.
Proof.
  destruct x as [s| s| |s m e], y as [s'| s'| |s' m' e']; cbn; try done.
  - by intros ->%eqb_prop.
  - by intros ->%eqb_prop.
  - intros [[->%eqb_prop ->%Pos.eqb_eq]%andb_prop ->%Z.eqb_eq]%andb_prop. done.
Qed.

Lemma same_refl (x : number) : same x x = true.
Proof.
  destruct x as [s| s| |s m e]; cbn; rewrite ?eqb_reflx, ?Pos.eqb_refl, ?Z.eqb_refl; done.
Qed.

Lemma integer_double_inj (s s' : bool) (a b : positive) :
  Zpos a < 2 ^ 53 -> Zpos b < 2 ^ 53 ->
  integer_double s a = integer_double s' b -> a = b.
Proof.
  intros Ha Hb E. unfold integer_double in E. injection E as _ Em Ee.
  assert (Hd : Zpos (digits2_pos a) = Zpos (digits2_pos b)) by lia.
  apply (f_equal Zpos) in Em. rewrite !integer_mantissa in Em by done.
  rewrite Hd in Em. pose proof (digits_le_53 b Hb).
  assert (0 < 2 ^ (53 - Zpos (digits2_pos b))) by (apply Z.pow_pos_nonneg; lia).
  assert (Zpos a = Zpos b) by nia. congruence.
Qed.

Lemma of_decimal_integer (k : positive) (j : Z) :
  0 <= j -> Zpos k * 10 ^ j < 2 ^ 53 ->
  of_decimal false k j = integer_double false (k * Z.to_pos (10 ^ j)).
Proof.
  intros Hj H. assert (0 < 10 ^ j) by (apply Z.pow_pos_nonneg; lia).
  assert (E : of_decimal false k j = of_Z (Zpos (k * Z.to_pos (10 ^ j))))
    by (destruct j; done || lia).
  rewrite E. apply of_Z_pos. rewrite Pos2Z.inj_mul, Z2Pos.id by done. done.
Qed.

Lemma readsBack_integer (p : positive) (c j : Z) :
  0 <= j -> c * 10 ^ j < 2 ^ 53 -> Zpos p < 2 ^ 53 ->
  readsBack (integer_double false p) c j = true -> 0 < c /\ c * 10 ^ j = Zpos p.
Proof.
  intros Hj Hc Hp H. destruct c as [|k|k]; try done. split; [done|].
  assert (0 < 10 ^ j) by (apply Z.pow_pos_nonneg; lia).
  cbn [readsBack] in H. apply same_eq in H.
  rewrite of_decimal_integer in H by done.
  apply integer_double_inj in H; [|by rewrite Pos2Z.inj_mul, Z2Pos.id|done].
  rewrite <- H, Pos2Z.inj_mul, Z2Pos.id by done. done.
Qed.

Lemma readsBack_self (p : positive) :
  Zpos p < 2 ^ 53 -> readsBack (integer_double false p) (Zpos p) 0 = true.
Proof.
  intros Hp. cbn [readsBack]. rewrite of_decimal_integer by (cbn; lia).
  change (Z.to_pos (10 ^ 0)) with 1%positive. rewrite Pos.mul_1_r. apply same_refl.
Qed.

(** The search returns an exact decimal decomposition of the integer. *)
Lemma shortest_integer (p : positive) (den : Z) (fuel : nat) (j : Z) :
  0 < den -> 0 <= j <= Z.of_nat fuel -> Zpos p + 10 ^ j < 2 ^ 53 ->
  exists c j', shortest fuel (integer_double false p) (Zpos p * den) den j = Some (c, j')
               /\ 0 <= j' /\ 0 < c /\ c * 10 ^ j' = Zpos p.
Proof.
  intros Hden. revert j. induction fuel as [|fuel IH]; intros j Hj Hb.
  all: assert (P10 : 0 < 10 ^ j) by (apply Z.pow_pos_nonneg; lia).
  all: assert (Hp : Zpos p < 2 ^ 53) by lia.
  all: assert (C1 : neighbour (Zpos p * den) den j = Zpos p / 10 ^ j)
         by (unfold neighbour; rewrite (proj2 (Z.leb_le 0 j)) by lia;
             rewrite (Z.mul_comm (Zpos p)), Z.div_mul_cancel_l by lia; done).
  all: pose proof (Z.mul_div_le (Zpos p) (10 ^ j) P10) as Hlo.
  all: assert (R : forall c, c = Zpos p / 10 ^ j \/ c = Zpos p / 10 ^ j + 1 ->
                  readsBack (integer_double false p) c j = true ->
                  0 < c /\ c * 10 ^ j = Zpos p)
         by (intros c Hc; apply readsBack_integer; [lia|destruct Hc; subst c; nia|done]).
  all: cbn [shortest]; rewrite C1.
  all: destruct (readsBack _ (Zpos p / 10 ^ j) j) eqn:E1;
       destruct (readsBack _ (Zpos p / 10 ^ j + 1) j) eqn:E2; cbn [orb andb].
  all: try (destruct (R _ (or_introl eq_refl) E1) as [? ?]).
  all: try (destruct (R _ (or_intror eq_refl) E2) as [? ?]).
  all: try (exfalso; lia).
  all: try (eexists _, j; split; [reflexivity|]; split; [lia|]; split; assumption).
  - (* no fuel: j is 0 and the integer itself reads back *)
    assert (j = 0) by lia. subst j. rewrite Z.pow_0_r, Z.div_1_r in E1.
    by rewrite readsBack_self in E1.
  - destruct (Z.eq_dec j 0) as [->|Hj0].
    + rewrite Z.pow_0_r, Z.div_1_r in E1. by rewrite readsBack_self in E1.
    + apply IH; [lia|].
      assert (10 ^ (j - 1) <= 10 ^ j) by (apply Z.pow_le_mono_r; lia). lia.
Qed.

Lemma decimal_at_most_21 (p : positive) :
  Zpos p < 2 ^ 53 -> Z.of_nat (length (decimal (Zpos p))) <= 21.
Proof.
  intros H. pose proof (decimal_length (Zpos p) ltac:(lia)) as L.
  destruct (Z.le_gt_cases (Z.of_nat (length (decimal (Zpos p)))) 21) as [|Hgt]; [done|].
  assert (10 ^ 21 <= 10 ^ (Z.of_nat (length (decimal (Zpos p))) - 1))
    by (apply Z.pow_le_mono_r; lia).
  assert (2 ^ 53 < 10 ^ 21) by (vm_compute; reflexivity). lia.
Qed.

Lemma positiveToString_integer (p : positive) :
  Zpos p < 2 ^ 49 ->
  positiveToString (Z.to_pos (Zpos p * 2 ^ (53 - Zpos (digits2_pos p))))
                   (Zpos (digits2_pos p) - 53)
    = decimal (Zpos p).
Proof.
  intros H49. assert (Hp : Zpos p < 2 ^ 53).
  { assert (2 ^ 49 < 2 ^ 53) by (vm_compute; reflexivity). lia. }
  pose proof (digits_le_53 p Hp) as Hd.
  assert (Hd49 : Zpos (digits2_pos p) <= 49).
  { pose proof (digits_bounds p) as [Dlo _].
    destruct (Z.le_gt_cases (Zpos (digits2_pos p)) 49) as [|Hgt]; [done|].
    assert (2 ^ 49 <= 2 ^ (Zpos (digits2_pos p) - 1)) by (apply Z.pow_le_mono_r; lia).
    lia. }
  unfold positiveToString.
  rewrite (proj2 (Z.leb_gt 0 _)) by lia.
  rewrite integer_mantissa by done.
  replace (- (Zpos (digits2_pos p) - 53)) with (53 - Zpos (digits2_pos p)) by lia.
  set (den := 2 ^ (53 - Zpos (digits2_pos p))).
  assert (Hden : 0 < den) by (apply Z.pow_pos_nonneg; lia).
  rewrite Z.div_mul by lia.
  set (start := Z.of_nat (length (decimal (Zpos p + 1)))).
  assert (Hstart : Zpos p + 10 ^ start < 2 ^ 53).
  { pose proof (decimal_length (Zpos p + 1) ltac:(lia)) as L. fold start in L.
    assert (0 < start).
    { unfold start. destruct (Z.lt_ge_cases (Zpos p + 1) 10).
      - rewrite decimal_small by lia. cbn. lia.
      - rewrite decimal_step by done. rewrite length_app. cbn. lia. }
    replace start with (Z.succ (start - 1)) by lia. rewrite Z.pow_succ_r by lia.
    assert (11 * 2 ^ 49 + 10 < 2 ^ 53) by (vm_compute; reflexivity). lia. }
  change (S754_finite false _ _) with (integer_double false p).
  destruct (shortest_integer p den (Z.to_nat start + 400) start Hden)
    as (c & j & -> & Hj & Hc & Hcj); [lia|done|].
  assert (D : decimal (Zpos p) = decimal c ++ zeros (Z.to_nat j)).
  { rewrite <- Hcj. rewrite <- (Z2Nat.id j) at 1 by done. by apply decimal_pow10. }
  pose proof (decimal_at_most_21 p Hp) as L21. rewrite D, length_app in L21.
  unfold zeros in L21. rewrite length_replicate in L21.
  rewrite (proj2 (Z.leb_le _ _)) by lia. rewrite (proj2 (Z.leb_le _ _)) by lia.
  cbn [andb]. rewrite D. do 2 f_equal. lia.
Qed.

(** [toString] of the double of an integer is the decimal expansion. *)
Lemma Number_toString_integer (k : Z) :
  Z.abs k < 2 ^ 49 ->
  Number_toString (of_Z k) = signText (k <? 0) ++ decimal (Z.abs k).
Proof.
  intros H. assert (2 ^ 49 < 2 ^ 53) by (vm_compute; reflexivity).
  destruct k as [|p|p]; cbn [Z.abs Z.ltb Z.compare signText app] in *; [done| |].
  - rewrite of_Z_pos by lia. cbn [Number_toString integer_double signText app].
    by apply positiveToString_integer.
  - rewrite of_Z_neg by lia. cbn [Number_toString integer_double signText].
    f_equal. by apply positiveToString_integer.
Qed.

End IntegerToString.

(** ** Thousands separators *)

Section Thousands.
Import JS Rendering.
Implicit Types (s ds : jsstring) (c d p : N).

Lemma mod3 (n k r : nat) :
  n = (3 * k + r)%nat -> (r < 3)%nat -> (n mod 3 = r /\ n / 3 = k)%nat.
Proof.
  intros Hn Hr. split; symmetry.
  - by apply (Nat.mod_unique n 3 k r).
  - by apply (Nat.div_unique n 3 k r).
Qed.

Lemma spanDigits_all ds :
  Forall (fun c => isDigit c = true) ds -> spanDigits ds = (ds, []).
Proof.
  induction 1 as [|c ds Hc _ IH]; [done|]. cbn [spanDigits]. by rewrite Hc, IH.
Qed.

Lemma isDigit_isWordChar c : isDigit c = true -> isWordChar c = true.
Proof. intros H. unfold isWordChar. by rewrite H. Qed.

(** The pattern does not match before [c]: the run of digits from [c] on is
    not a multiple of three, or no word character precedes. *)
Lemma thousandsFrom_skip (prev : option N) c ds :
  Forall (fun c => isDigit c = true) (c :: ds) ->
  (length (c :: ds) mod 3 ≠ 0)%nat \/ from_option isWordChar false prev = false ->
  thousandsFrom prev (c :: ds) = c :: thousandsFrom (Some c) ds.
Proof.
  intros Hall H. cbn [thousandsFrom]. destruct prev as [p|]; [|done].
  unfold groupAhead. rewrite spanDigits_all by done. cbn [fst].
  destruct H as [H|H].
  - rewrite (proj2 (Nat.eqb_neq _ _) H). by rewrite !andb_false_r.
  - cbn in H. by rewrite H.
Qed.

Lemma thousandsFrom_match p c ds :
  isWordChar p = true ->
  Forall (fun c => isDigit c = true) (c :: ds) ->
  (length (c :: ds) mod 3 = 0)%nat ->
  thousandsFrom (Some p) (c :: ds) = 44%N :: c :: thousandsFrom (Some c) ds.
Proof.
  intros Hp Hall H. cbn [thousandsFrom].
  unfold groupAhead. rewrite spanDigits_all by done. cbn [fst].
  rewrite Hp, H. done.
Qed.

Lemma thousandsFrom_groups (k : nat) p ds :
  isWordChar p = true ->
  Forall (fun c => isDigit c = true) ds ->
  length ds = (3 * k)%nat ->
  thousandsFrom (Some p) ds = groups k ds.
Proof.
  revert p ds. induction k as [|k IH]; intros p ds Hp Hall Hlen.
  - by destruct ds.
  - destruct ds as [|a [|b [|c ds]]]; cbn [length] in Hlen; try lia.
    pose proof Hall as Hall'.
    apply Forall_cons in Hall' as [Ha [Hb [Hc Hds]%Forall_cons]%Forall_cons].
    assert (Hk : length ds = (3 * k)%nat) by lia.
    destruct (mod3 (length (a :: b :: c :: ds)) (S k) 0) as [Hm _];
      [cbn [length]; lia|lia|].
    destruct (mod3 (length (b :: c :: ds)) k 2) as [Hm2 _]; [cbn [length]; lia|lia|].
    destruct (mod3 (length (c :: ds)) k 1) as [Hm1 _]; [cbn [length]; lia|lia|].
    rewrite thousandsFrom_match by done.
    rewrite thousandsFrom_skip; [|by repeat constructor|left; lia].
    rewrite thousandsFrom_skip; [|by repeat constructor|left; lia].
    rewrite (IH c ds) by (done || by apply isDigit_isWordChar). done.
Qed.

(** On a digit string, after an optional sign, the replacement by the
    regular expression is the grouping by threes from the right. *)
Lemma thousands_digits (b : bool) ds :
  Forall (fun c => isDigit c = true) ds ->
  thousands (signText b ++ ds) = signText b ++ groupThousands ds.
Proof.
  intros Hall.
  assert (G : forall prev, from_option isWordChar false prev = false ->
                thousandsFrom prev ds = groupThousands ds).
  { intros prev Hprev. unfold groupThousands.
    destruct ds as [|a ds]; [done|].
    pose proof Hall as Hall'. apply Forall_cons in Hall' as [Ha Hds].
    rewrite thousandsFrom_skip by (done || by right).
    pose proof (Nat.div_mod_eq (length (a :: ds)) 3) as Hdm.
    pose proof (Nat.mod_upper_bound (length (a :: ds)) 3 ltac:(lia)) as Hub.
    set (k := (length (a :: ds) / 3)%nat) in *.
    destruct (length (a :: ds) mod 3)%nat as [|[|[|r]]] eqn:Hr; [| | |lia].
    - (* full groups only *)
      destruct ds as [|b' [|c' ds]]; cbn [length] in Hdm; try lia.
      apply Forall_cons in Hds as [Hb [Hc Hds]%Forall_cons].
      destruct k as [|k]; [lia|].
      destruct (mod3 (length (b' :: c' :: ds)) k 2) as [Hm2 _]; [cbn [length]; lia|lia|].
      destruct (mod3 (length (c' :: ds)) k 1) as [Hm1 _]; [cbn [length]; lia|lia|].
      rewrite thousandsFrom_skip; [|by repeat constructor|left; lia].
      rewrite thousandsFrom_skip; [|by repeat constructor|left; lia].
      rewrite (thousandsFrom_groups k c' ds);
        [done|by apply isDigit_isWordChar|done|lia].
    - rewrite (thousandsFrom_groups k a ds);
        [done|by apply isDigit_isWordChar|done|cbn [length] in Hdm; lia].
    - destruct ds as [|b' ds]; cbn [length] in Hdm; [lia|].
      apply Forall_cons in Hds as [Hb Hds].
      destruct (mod3 (length (b' :: ds)) k 1) as [Hm1 _]; [cbn [length]; lia|lia|].
      rewrite thousandsFrom_skip; [|by repeat constructor|left; lia].
      rewrite (thousandsFrom_groups k b' ds);
        [done|by apply isDigit_isWordChar|done|lia]. }
  unfold thousands. destruct b; cbn [signText app]; [|by apply G].
  cbn [thousandsFrom app]. f_equal. by apply G.
Qed.

End Thousands.

(** ** Formatting a total *)

Section WholeNumbers.
Import JS BazaarTotal Rendering.
Open Scope Z_scope.

(** A double whose exponent is not negative is at least [2 ^ 52]. *)
Lemma double_exponent_nonneg (s : bool) (m : positive) (e : Z) :
  is_double (S754_finite s m e) -> 0 <= e -> 2 ^ 52 <= Zpos m * 2 ^ e.
Proof.
  unfold is_double, valid_binary, bounded, canonical_mantissa.
  intros [Hc _]%andb_prop He. apply Z.eqb_eq in Hc.
  unfold fexp, emin, prec, emax in Hc.
  assert (Hd : Zpos (digits2_pos m) = 53) by lia.
  pose proof (digits_bounds m) as [Dlo _]. rewrite Hd in Dlo.
  assert (1 <= 2 ^ e) by (pose proof (Z.pow_pos_nonneg 2 e); lia).
  change (2 ^ (53 - 1)) with (2 ^ 52) in Dlo. nia.
Qed.

(** [Math.round] of a finite double below [2 ^ 52] in magnitude is the double
    of the half-up rounding of its exact value, or a zero. *)
Lemma Math_round_halfUp (x : number) :
  is_double x -> isFinite x = true -> Z.abs (halfUp 1 x) < 2 ^ 52 ->
  Math_round x = if halfUp 1 x =? 0 then Math_round x else of_Z (halfUp 1 x).
Proof.
  intros Hx Hfin Hk. destruct x as [s| s| |s m e]; try done.
  cbn [Math_round halfUp] in *. destruct (0 <=? e) eqn:He; [|by destruct (_ =? 0)].
  apply Z.leb_le in He. pose proof (double_exponent_nonneg s m e Hx He) as H52.
  unfold nearest_scaled in Hk. rewrite (proj2 (Z.leb_le 0 e)) in Hk by done.
  destruct s; lia.
Qed.

Lemma Math_round_toString (x : number) :
  is_double x -> isFinite x = true -> Z.abs (halfUp 1 x) < 2 ^ 49 ->
  Number_toString (Math_round x)
    = signText (halfUp 1 x <? 0) ++ decimal (Z.abs (halfUp 1 x)).
Proof.
  intros Hx Hfin Hk.
  assert (2 ^ 49 < 2 ^ 52) by (vm_compute; reflexivity).
  destruct (Z.eqb_spec (halfUp 1 x) 0) as [E0|E0].
  - rewrite E0. destruct x as [s| s| |s m e]; try done.
    cbn [Math_round halfUp] in *. destruct (0 <=? e) eqn:He.
    + apply Z.leb_le in He. pose proof (double_exponent_nonneg s m e Hx He).
      unfold nearest_scaled in E0. rewrite (proj2 (Z.leb_le 0 e)) in E0 by done.
      destruct s; lia.
    + by rewrite E0.
  - rewrite Math_round_halfUp by (done || lia).
    rewrite (proj2 (Z.eqb_neq _ _)) by done.
    by apply Number_toString_integer.
Qed.

(** The whole-number policy: every label but "Echoes". *)
Lemma formatCurrency_whole (total : number) (currency : jsstring) :
  is_double total -> isFinite total = true ->
  Z.abs (halfUp 1 total) < 2 ^ 49 ->
  currency ≠ js "Echoes" ->
  formatCurrency total currency
    = renderWhole (halfUp 1 total) ++ js " " ++ currency.
Proof.
  intros Hx Hfin Hk Hc. unfold formatCurrency.
  rewrite bool_decide_eq_false_2 by done.
  rewrite Math_round_toString by done.
  rewrite thousands_digits by (apply decimal_all_digits; lia). done.
Qed.

End WholeNumbers.

(** ** Dividing by 100 and printing two decimals *)

Section Hundredths.
Import JS BazaarTotal Rendering.
Open Scope Z_scope.

Lemma shr_1_bounds (r : shr_record) :
  0 <= shr_m r -> 2 * shr_m (shr_1 r) <= shr_m r <= 2 * shr_m (shr_1 r) + 1.
Proof. destruct r as [[|[p|p|]|p] b1 b2]; cbn; lia. Qed.

Lemma shr_record_of_loc_m (m : Z) (l : location) : shr_m (shr_record_of_loc m l) = m.
Proof. by destruct l as [|[]]. Qed.

Lemma round_nearest_even_bounds (m : Z) (l : location) :
  m <= round_nearest_even m l <= m + 1.
Proof. destruct l as [|[]]; cbn; try destruct (Z.even m); lia. Qed.

Lemma digits_53_54 (q : positive) :
  2 ^ 52 <= Zpos q < 2 ^ 54 ->
  (Zpos q < 2 ^ 53 /\ Zpos (digits2_pos q) = 53)
  \/ (2 ^ 53 <= Zpos q /\ Zpos (digits2_pos q) = 54).
Proof.
  intros H. destruct (Z.lt_ge_cases (Zpos q) (2 ^ 53)).
  - left. split; [done|]. apply digits_unique. change (53 - 1) with 52. lia.
  - right. split; [done|]. apply digits_unique. change (54 - 1) with 53. lia.
Qed.

(** One pass of [shr_fexp] on a mantissa of 53 or 54 bits: nothing, or one
    bit dropped. *)
Lemma shr_fexp_near (q : positive) (E : Z) (l : location) :
  2 ^ 52 <= Zpos q < 2 ^ 54 -> -1074 <= E ->
  exists r e1,
    shr_fexp prec emax (Zpos q) E l = (r, e1)
    /\ E <= e1 <= E + 1
    /\ 2 ^ 52 <= shr_m r < 2 ^ 53
    /\ Zpos q - 1 <= shr_m r * 2 ^ (e1 - E) <= Zpos q.
Proof.
  intros Hq HE. unfold shr_fexp. cbn [Zdigits2].
  destruct (digits_53_54 q Hq) as [[Hlt Hd]|[Hge Hd]]; rewrite Hd.
  - rewrite fexp_small by lia. replace (53 + E - 53 - E) with 0 by lia.
    cbn [shr]. eexists _, E. split; [reflexivity|].
    rewrite shr_record_of_loc_m, Z.sub_diag. cbn. lia.
  - rewrite fexp_small by lia. replace (54 + E - 53 - E) with 1 by lia.
    cbn [shr SpecFloat.iter_pos]. eexists _, (E + 1). split; [reflexivity|].
    pose proof (shr_1_bounds (shr_record_of_loc (Zpos q) l)) as B.
    rewrite shr_record_of_loc_m in B. specialize (B ltac:(lia)).
    replace (E + 1 - E) with 1 by lia. change (2 ^ 1) with 2.
    change (2 ^ 54) with (2 * 2 ^ 53) in Hq. change (2 ^ 53) with (2 * 2 ^ 52) in *.
    lia.
Qed.

(** Rounding a mantissa of 53 or 54 bits, whatever the position of the
    discarded part: the result stays within three units of the last place
    of the input. *)
Lemma binary_round_aux_near (s : bool) (q : positive) (E : Z) (l : location) :
  2 ^ 52 <= Zpos q < 2 ^ 54 -> -1074 <= E <= 900 ->
  exists m e2,
    binary_round_aux prec emax s (Zpos q) E l = S754_finite s m e2
    /\ E <= e2 <= E + 2
    /\ Zpos q - 3 <= Zpos m * 2 ^ (e2 - E) <= Zpos q + 2.
Proof.
  intros Hq HE. unfold binary_round_aux.
  destruct (shr_fexp_near q E l Hq ltac:(lia)) as (r1 & e1 & -> & He1 & Hr1 & Hv1).
  pose proof (round_nearest_even_bounds (shr_m r1) (loc_of_shr_record r1)) as Hn.
  set (m1 := round_nearest_even (shr_m r1) (loc_of_shr_record r1)) in *.
  destruct m1 as [|q1|q1] eqn:Em1; [lia| |lia].
  assert (Hq1 : 2 ^ 52 <= Zpos q1 < 2 ^ 54).
  { change (2 ^ 54) with (2 * 2 ^ 53). lia. }
  destruct (shr_fexp_near q1 e1 loc_Exact Hq1 ltac:(lia)) as (r2 & e2 & -> & He2 & Hr2 & Hv2).
  destruct (shr_m r2) as [|m|m] eqn:Em; [lia| |lia].
  rewrite (proj2 (Z.leb_le e2 (emax - prec))) by (unfold emax, prec; lia).
  exists m, e2. split; [reflexivity|]. split; [lia|].
  replace (e2 - E) with ((e2 - e1) + (e1 - E)) by lia.
  rewrite Z.pow_add_r by lia.
  assert (G1 : e1 - E = 0 \/ e1 - E = 1) by lia.
  assert (G2 : e2 - e1 = 0 \/ e2 - e1 = 1) by lia.
  destruct G1 as [G1|G1], G2 as [G2|G2]; rewrite G1 in *; rewrite G2 in *;
    change (2 ^ 0) with 1 in *; change (2 ^ 1) with 2 in *; lia.
Qed.

Lemma hundred_double : of_Z 100 = S754_finite false 7036874417766400 (-46).
Proof. vm_compute. reflexivity. Qed.

(** The quotient by 100, computed as [SFdiv] computes it. *)
Lemma div_hundred (s : bool) (m : positive) (e : Z) :
  let d := Zpos (digits2_pos m) in
  let E := d + e - 60 in
  let q := Zpos m * 2 ^ (60 - d) / 100 in
  d <= 53 -> -900 <= d + e <= 900 ->
  exists m2 e2,
    div (S754_finite s m e) (of_Z 100) = S754_finite s m2 e2
    /\ E <= e2 <= E + 2
    /\ q - 3 <= Zpos m2 * 2 ^ (e2 - E) <= q + 2.
Proof.
  intros d E q Hd Hde. rewrite hundred_double. unfold div, SFdiv, SFdiv_core_binary.
  cbn [Zdigits2]. fold d.
  change (Zpos (digits2_pos 7036874417766400)) with 53.
  replace (d + e - (53 + -46)) with (d + e - 7) by lia.
  rewrite fexp_small by lia.
  replace (Z.min (d + e - 7 - 53) (e - -46)) with E by (unfold E; lia).
  replace (e - -46 - E) with (106 - d) by (unfold E; lia).
  destruct (106 - d) as [|k|k] eqn:Hk; [lia| |lia].
  rewrite Z.shiftl_mul_pow2 by lia. rewrite <- Hk.
  pose proof (digits_bounds m) as [Dlo Dhi]. fold d in Dlo, Dhi.
  assert (P46 : 0 < 2 ^ 46) by (vm_compute; reflexivity).
  assert (Hm' : Zpos m * 2 ^ (106 - d) = Zpos m * 2 ^ (60 - d) * 2 ^ 46).
  { rewrite <- Z.mul_assoc, <- Z.pow_add_r by lia. do 2 f_equal. lia. }
  assert (Hq : Zpos m * 2 ^ (106 - d) / 7036874417766400 = q).
  { rewrite Hm'. change 7036874417766400 with (100 * 2 ^ 46).
    by rewrite Z.div_mul_cancel_r by lia. }
  assert (Hrange : 2 ^ 52 <= q < 2 ^ 54).
  { assert (B : 2 ^ 59 <= Zpos m * 2 ^ (60 - d) < 2 ^ 60).
    { assert (P : 0 < 2 ^ (60 - d)) by (apply Z.pow_pos_nonneg; lia).
      assert (E59 : 2 ^ 59 = 2 ^ (d - 1) * 2 ^ (60 - d))
        by (rewrite <- Z.pow_add_r by lia; f_equal; lia).
      assert (E60 : 2 ^ 60 = 2 ^ d * 2 ^ (60 - d))
        by (rewrite <- Z.pow_add_r by lia; f_equal; lia).
      rewrite E59, E60. nia. }
    unfold q. split.
    - apply Z.div_le_lower_bound; [lia|].
      assert (100 * 2 ^ 52 <= 2 ^ 59) by (vm_compute; discriminate). lia.
    - apply Z.div_lt_upper_bound; [lia|].
      assert (2 ^ 60 <= 100 * 2 ^ 54) by (vm_compute; discriminate). lia. }
  unfold Z.div in Hq.
  destruct (Z.div_eucl (Zpos m * 2 ^ (106 - d)) 7036874417766400) as [q' r'].
  subst q'. destruct q as [|qp|qp] eqn:Eq; [lia| |lia].
  rewrite xorb_false_r.
  destruct (binary_round_aux_near s qp E (new_location 7036874417766400 r') Hrange)
    as (m2 & e2 & -> & He2 & Hv); [unfold E; lia|].
  by exists m2, e2.
Qed.

Lemma decimal_nonempty (n : Z) : 0 <= n -> (0 < length (decimal n))%nat.
Proof.
  intros H. destruct (Z.lt_ge_cases n 10).
  - rewrite decimal_small by lia. cbn. lia.
  - rewrite decimal_step by done. rewrite length_app. cbn. lia.
Qed.

(** [n] hundredths, written with two digits after the point. *)
Lemma fixedDigits_two (n : Z) :
  0 <= n ->
  fixedDigits n 2 = decimal (n / 100) ++ 46%N :: [digitChar (n / 10); digitChar n].
Proof.
  intros H. unfold fixedDigits.
  destruct (Z.lt_ge_cases n 10) as [H10|H10].
  { rewrite (Z.div_small n 100), (Z.div_small n 10) by lia.
    rewrite !decimal_small by lia. reflexivity. }
  rewrite (decimal_step n) by done.
  destruct (Z.lt_ge_cases n 100) as [H100|H100].
  { rewrite (Z.div_small n 100) by lia.
    assert (0 <= n / 10 < 10)
      by (split; [apply Z.div_pos; lia|apply Z.div_lt_upper_bound; lia]).
    rewrite !decimal_small by lia. reflexivity. }
  assert (10 <= n / 10) by (apply Z.div_le_lower_bound; lia).
  rewrite (decimal_step (n / 10)) by done.
  rewrite Z.div_div by lia. change (10 * 10) with 100.
  pose proof (decimal_nonempty (n / 100) ltac:(apply Z.div_pos; lia)) as Hne.
  rewrite <- !app_assoc. cbn [app].
  set (ds := decimal (n / 100)) in *.
  rewrite !length_app. cbn [length].
  replace (3 - (length ds + 2))%nat with 0%nat by lia. cbn [zeros replicate app].
  replace (length (@nil N) + (length ds + 2) - 2)%nat with (length ds) by (cbn; lia).
  rewrite take_app_length, drop_app_length. reflexivity.
Qed.

Lemma split_dot_plain (x : jsstring) : 46%N ∉ x -> split_dot x = [x].
Proof.
  induction x as [|c x IH]; [done|]. intros [Hc Hx]%not_elem_of_cons.
  cbn [split_dot]. rewrite (proj2 (N.eqb_neq c 46)) by done. by rewrite IH.
Qed.

Lemma split_dot_app (x y : jsstring) :
  46%N ∉ x -> split_dot (x ++ 46%N :: y) = x :: split_dot y.
Proof.
  induction x as [|c x IH]; [done|]. intros [Hc Hx]%not_elem_of_cons.
  cbn [split_dot app]. rewrite (proj2 (N.eqb_neq c 46)) by done. by rewrite IH.
Qed.

Lemma digits_no_dot (ds : jsstring) :
  Forall (fun c => isDigit c = true) ds -> 46%N ∉ ds.
Proof.
  intros H Hin. rewrite Forall_forall in H. by specialize (H _ Hin).
Qed.

Lemma isDigit_digitChar (n : Z) : isDigit (digitChar n) = true.
Proof.
  unfold digitChar, isDigit. pose proof (Z.mod_pos_bound n 10 ltac:(lia)).
  apply andb_true_intro. split; apply N.leb_le; lia.
Qed.

(** The text of an amount in hundredths goes through [split], the
    replacement and [join] as the specification draws it. *)
Lemma echoes_text (sg : bool) (n : Z) :
  0 <= n ->
  let parts := split_dot (signText sg ++ fixedDigits n 2) in
  join_dot (match parts with
            | part0 :: rest => thousands part0 :: rest
            | [] => []
            end)
    = signText sg ++ groupThousands (decimal (n / 100))
        ++ 46%N :: [digitChar (n / 10); digitChar n].
Proof.
  intros H. cbn zeta. rewrite fixedDigits_two by done.
  assert (Hds : Forall (fun c => isDigit c = true) (decimal (n / 100)))
    by (apply decimal_all_digits, Z.div_pos; lia).
  rewrite app_assoc, split_dot_app.
  - rewrite split_dot_plain.
    + rewrite thousands_digits by done. cbn [join_dot]. by rewrite <- app_assoc.
    + apply digits_no_dot. repeat constructor; apply isDigit_digitChar.
  - intros [Hin|Hin]%elem_of_app; [by destruct sg; inversion Hin as [|? ? ? Hn]; inversion Hn|].
    by apply digits_no_dot in Hin.
Qed.

(** [toFixed(2)] of the quotient by 100 of a double that holds the integer
    [K]: the two decimals are those of [K] hundredths. *)
Lemma toFixed_quotient (s : bool) (m : positive) (e K : Z) :
  let d := Zpos (digits2_pos m) in
  0 < K < 2 ^ 50 -> d <= 53 -> -900 <= d + e <= 50 ->
  Zpos m * 2 ^ (60 - d) = K * 2 ^ (60 - d - e) ->
  toFixed 2 (div (S754_finite s m e) (of_Z 100)) = signText s ++ fixedDigits K 2.
Proof.
  intros d HK Hd Hde Hrep.
  destruct (div_hundred s m e Hd ltac:(lia)) as (m2 & e2 & -> & He2 & Hv).
  fold d in He2, Hv. set (E := d + e - 60) in *.
  set (T := 2 ^ (60 - d - e)) in *.
  assert (HT : 2 ^ 10 <= T) by (apply Z.pow_le_mono_r; lia).
  change (2 ^ 10) with 1024 in HT.
  set (T2 := 2 ^ (- e2)). set (g := 2 ^ (e2 - E)) in *.
  assert (HT2 : 0 < T2) by (apply Z.pow_pos_nonneg; lia).
  assert (Hg : 0 < g) by (apply Z.pow_pos_nonneg; lia).
  assert (HTg : T = T2 * g).
  { unfold T, T2, g. rewrite <- Z.pow_add_r by lia. f_equal. unfold E. lia. }
  rewrite Hrep in Hv.
  pose proof (Z.div_mod (K * T) 100 ltac:(lia)) as Hdm.
  pose proof (Z.mod_pos_bound (K * T) 100 ltac:(lia)) as Hmod.
  set (q := K * T / 100) in *. set (W := Zpos m2 * g) in *.
  assert (Hlo : 2 * T2 * K <= 200 * Zpos m2 + T2).
  { apply (Z.mul_le_mono_pos_r _ _ g Hg).
    replace (2 * T2 * K * g) with (2 * (K * T)) by (rewrite HTg; ring).
    replace ((200 * Zpos m2 + T2) * g) with (200 * W + T) by (unfold W; rewrite HTg; ring).
    lia. }
  assert (Hhi : 200 * Zpos m2 + T2 < 2 * T2 * (K + 1)).
  { apply (Z.mul_lt_mono_pos_r g _ _ Hg).
    replace (2 * T2 * (K + 1) * g) with (2 * (K * T) + 2 * T) by (rewrite HTg; ring).
    replace ((200 * Zpos m2 + T2) * g) with (200 * W + T) by (unfold W; rewrite HTg; ring).
    lia. }
  assert (Hn : nearest_scaled (Zpos m2) e2 (10 ^ Z.of_nat 2) = K).
  { unfold nearest_scaled. rewrite (proj2 (Z.leb_gt 0 e2)) by (unfold E in He2; lia).
    change (10 ^ Z.of_nat 2) with 100.
    replace (2 ^ (1 - e2)) with (2 * T2)
      by (unfold T2; rewrite <- Z.pow_succ_r by lia; f_equal; lia).
    replace (2 * Zpos m2 * 100) with (200 * Zpos m2) by lia.
    apply Z.le_antisymm.
    - apply Z.lt_succ_r. apply Z.div_lt_upper_bound; lia.
    - apply Z.div_le_lower_bound; lia. }
  unfold toFixed. rewrite (proj2 (Z.leb_gt 0 e2)) by (unfold E in He2; lia).
  fold T2. rewrite Hn.
  assert (Hsmall : (10 ^ 21 * T2 <=? Zpos m2) = false).
  { apply Z.leb_gt.
    assert (2 ^ 50 < 10 ^ 21) by (vm_compute; reflexivity).
    assert (Zpos m2 < (K + 1) * T2) by nia. nia. }
  by rewrite Hsmall.
Qed.

Lemma digits_le (p : positive) (n : Z) :
  Zpos p < 2 ^ n -> Zpos (digits2_pos p) <= n.
Proof.
  intros H. pose proof (digits_bounds p) as [Dlo _].
  destruct (Z.le_gt_cases (Zpos (digits2_pos p)) n) as [|Hgt]; [done|].
  destruct (Z.le_gt_cases 0 n) as [Hn|Hn].
  - assert (2 ^ n <= 2 ^ (Zpos (digits2_pos p) - 1)) by (apply Z.pow_le_mono_r; lia).
    lia.
  - rewrite Z.pow_neg_r in H by done. lia.
Qed.

Lemma toFixed_integer_quotient (sg : bool) (k : positive) :
  Zpos k < 2 ^ 50 ->
  toFixed 2 (div (integer_double sg k) (of_Z 100)) = signText sg ++ fixedDigits (Zpos k) 2.
Proof.
  intros Hk. assert (2 ^ 50 < 2 ^ 53) by (vm_compute; reflexivity).
  pose proof (digits_le k 50 Hk) as Hdk.
  unfold integer_double.
  apply toFixed_quotient; cbn zeta; rewrite ?integer_mantissa_digits by lia; try lia.
  rewrite integer_mantissa by lia.
  rewrite <- Z.mul_assoc, <- Z.pow_add_r by lia. do 2 f_equal. lia.
Qed.

(** What the "Echoes" branch prints before the label. *)
Lemma echoes_rounded (p : number) :
  isFinite p = true -> Z.abs (halfUp 1 p) < 2 ^ 50 ->
  toFixed 2 (div (Math_round p) (of_Z 100))
    = signText (halfUp 1 p <? 0) ++ fixedDigits (Z.abs (halfUp 1 p)) 2.
Proof.
  intros Hfin HK. assert (H5053 : 2 ^ 50 < 2 ^ 53) by (vm_compute; reflexivity).
  assert (Zero : forall s, toFixed 2 (div (S754_zero s) (of_Z 100))
                           = signText false ++ fixedDigits 0 2)
    by (intros s; rewrite hundred_double; reflexivity).
  destruct p as [s| s| |s m e]; try done.
  cbn [halfUp Math_round] in *. unfold nearest_scaled in *.
  destruct (0 <=? e) eqn:He.
  - (* the double is already integral *)
    apply Z.leb_le in He. rewrite !Z.mul_1_r in *.
    assert (P : 0 < 2 ^ e) by (apply Z.pow_pos_nonneg; lia).
    assert (HK' : Zpos m * 2 ^ e < 2 ^ 50) by (destruct s; lia).
    assert (Hm : Zpos m < 2 ^ 50) by nia.
    pose proof (digits_le m 50 Hm) as Hd.
    pose proof (digits_bounds m) as [Dlo _].
    assert (Hde : Zpos (digits2_pos m) + e <= 50).
    { destruct (Z.le_gt_cases (Zpos (digits2_pos m) + e) 50) as [|Hgt]; [done|].
      assert (2 ^ 50 <= 2 ^ ((Zpos (digits2_pos m) - 1) + e))
        by (apply Z.pow_le_mono_r; lia).
      rewrite Z.pow_add_r in * by lia. nia. }
    assert (Hsg : ((if s then Zneg m else Zpos m) * 2 ^ e <? 0) = s).
    { destruct s; [apply Z.ltb_lt|apply Z.ltb_ge]; nia. }
    assert (Habs : Z.abs ((if s then Zneg m else Zpos m) * 2 ^ e) = Zpos m * 2 ^ e).
    { destruct s; [|lia]. rewrite Z.abs_neq by nia. change (Zneg m) with (- Zpos m). lia. }
    rewrite Hsg, Habs.
    apply toFixed_quotient; cbn zeta; try lia.
    rewrite <- !Z.mul_assoc, <- Z.pow_add_r by lia. do 2 f_equal. lia.
  - rewrite !Z.mul_1_r in *.
    destruct ((2 * (if s then Zneg m else Zpos m) + 2 ^ (- e)) / 2 ^ (1 - e))
      as [|k|k] eqn:Ek; cbn [Z.eqb Z.abs Z.ltb Z.compare] in *.
    + apply Zero.
    + rewrite of_Z_pos by lia. by apply toFixed_integer_quotient.
    + rewrite of_Z_neg by lia. by apply toFixed_integer_quotient.
Qed.

(** The two-decimal policy, for the label "Echoes": the half-up rounding
    is taken on the double product [total * 100]. *)
Lemma formatCurrency_echoes (total : number) :
  let product := mul total (of_Z 100) in
  isFinite product = true -> Z.abs (halfUp 1 product) < 2 ^ 50 ->
  formatCurrency total (js "Echoes") = renderCents (halfUp 1 product) ++ js " Echoes".
Proof.
  intros product Hfin HK. unfold formatCurrency.
  rewrite bool_decide_eq_true_2 by done. fold product.
  rewrite echoes_rounded by done.
  rewrite echoes_text by lia. unfold renderCents. by rewrite <- !app_assoc.
Qed.

End Hundredths.

(** ** The formatting policies *)

Section Policies.
Import JS BazaarTotal Rendering.
Open Scope Z_scope.

(** [nearest_scaled] is rounding half-up: with [v = m * 2 ^ e] the result
    [n] satisfies [n <= v * scale + 1/2 < n + 1], written here without
    fractions. *)
Lemma nearest_scaled_half_up (m e scale : Z) :
  let n := nearest_scaled m e scale in
  if 0 <=? e then n = m * 2 ^ e * scale
  else 2 ^ (1 - e) * n <= 2 * m * scale + 2 ^ (- e) < 2 ^ (1 - e) * (n + 1).
Proof.
  cbn zeta. unfold nearest_scaled. destruct (0 <=? e) eqn:He; [done|].
  apply Z.leb_gt in He.
  assert (P : 0 < 2 ^ (1 - e)) by (apply Z.pow_pos_nonneg; lia).
  pose proof (Z.div_mod (2 * m * scale + 2 ^ (- e)) (2 ^ (1 - e)) ltac:(lia)).
  pose proof (Z.mod_pos_bound (2 * m * scale + 2 ^ (- e)) (2 ^ (1 - e)) P). lia.
Qed.

(** The samples are what the parser reads from the decimal texts. *)
Example samples_parse :
  parsePrice (js "0.005") = Samples.halfCent
  /\ parsePrice (js "0.015") = Samples.oneAndAHalfCent
  /\ parsePrice (js "49.7") = Samples.fortyNineSeven
  /\ parsePrice (js "0.1") = Samples.tenth
  /\ parsePrice (js "0.2") = Samples.fifth
  /\ parsePrice (js "0.3") = Samples.threeTenths.
Proof. vm_compute. repeat split. Qed.

(** C7, as the claim states it, fails: the cents are not the half-up
    rounding of the total.  The double nearest to 0.015 is below 0.015, so
    that its half-up rounding to the cent is 0.01; the product by 100 rounds
    to 1.5 and [formatCurrency] prints 0.02. *)
Lemma formatCurrency_rounds_the_product :
  let total := Samples.oneAndAHalfCent in
  is_double total
  /\ 1000 * 8646911284551352 < 15 * 2 ^ 59
  /\ halfUp 100 total = 1
  /\ renderCents (halfUp 100 total) ++ js " Echoes" = js "0.01 Echoes"
  /\ formatCurrency total (js "Echoes") = js "0.02 Echoes"
  /\ formatCurrency total (js "Echoes") ≠ renderCents (halfUp 100 total) ++ js " Echoes".
Proof. vm_compute. repeat split; discriminate. Qed.

(** C7, amended.  [formatCurrency] chooses the policy by the label.  For
    "Echoes" it prints the half-up rounding of the double product
    [total * 100], as hundredths: thousands separators in the integer part
    and exactly two decimals (for a product below [2 ^ 50] in magnitude);
    so [formatCurrency(0.005, "Echoes")] is "0.01 Echoes".  For every other
    label it prints the half-up rounding of the exact total as a whole
    number with thousands separators and no decimal part (for a total below
    [2 ^ 49] in magnitude); so [formatCurrency(49.7, "Hinterland Scrip")] is
    "50 Hinterland Scrip". *)
Theorem formatCurrency_policies :
  formatCurrency Samples.halfCent (js "Echoes") = js "0.01 Echoes"
  /\ formatCurrency Samples.fortyNineSeven (js "Hinterland Scrip")
       = js "50 Hinterland Scrip"
  /\ (forall total,
        let product := mul total (of_Z 100) in
        isFinite product = true ->
        Z.abs (halfUp 1 product) < 2 ^ 50 ->
        formatCurrency total (js "Echoes")
          = renderCents (halfUp 1 product) ++ js " Echoes")
  /\ (forall total currency,
        is_double total ->
        isFinite total = true ->
        Z.abs (halfUp 1 total) < 2 ^ 49 ->
        currency ≠ js "Echoes" ->
        formatCurrency total currency
          = renderWhole (halfUp 1 total) ++ js " " ++ currency).
Proof.
  split; [by vm_compute|]. split; [by vm_compute|].
  split; [apply formatCurrency_echoes|apply formatCurrency_whole].
Qed.

Lemma formatCurrency_policies_witness :
  let product := mul Samples.halfCent (of_Z 100) in
  isFinite product = true
  /\ Z.abs (halfUp 1 product) < 2 ^ 50
  /\ formatCurrency Samples.halfCent (js "Echoes") = renderCents 1 ++ js " Echoes"
  /\ is_double Samples.fortyNineSeven
  /\ isFinite Samples.fortyNineSeven = true
  /\ Z.abs (halfUp 1 Samples.fortyNineSeven) < 2 ^ 49
  /\ js "Hinterland Scrip" ≠ js "Echoes"
  /\ formatCurrency Samples.fortyNineSeven (js "Hinterland Scrip")
       = renderWhole 50 ++ js " " ++ js "Hinterland Scrip".
Proof.
  intros product.
  assert (H1 : isFinite product = true) by (vm_compute; reflexivity).
  assert (H2 : Z.abs (halfUp 1 product) < 2 ^ 50) by (vm_compute; reflexivity).
  assert (H3 : is_double Samples.fortyNineSeven) by (vm_compute; reflexivity).
  assert (H4 : isFinite Samples.fortyNineSeven = true) by reflexivity.
  assert (H5 : Z.abs (halfUp 1 Samples.fortyNineSeven) < 2 ^ 49)
    by (vm_compute; reflexivity).
  assert (H6 : js "Hinterland Scrip" ≠ js "Echoes") by (vm_compute; discriminate).
  destruct formatCurrency_policies as (_ & _ & E & W).
  pose proof (E Samples.halfCent H1 H2) as RE.
  pose proof (W Samples.fortyNineSeven (js "Hinterland Scrip") H3 H4 H5 H6) as RW.
  exact (conj H1 (conj H2 (conj RE (conj H3 (conj H4 (conj H5 (conj H6 RW))))))).
Defined.

End Policies.

(** * Further properties

    Properties of the storage helpers, of the manager, of the two
    preference units and of the parsing and totalling of the bazaar unit
    that the code shows. *)

(** ** The storage helpers *)

Section StorageRoundTrips.
Import Constants Storage.

(** X1.  What [setStorage] writes under a key is what [getStorage] reads
    back there, and the other two keys keep what they held (also their being
    unset). *)
Theorem setStorage_getStorage (key : StorageKey) (value : StorageSchema key)
    (store : Store) :
  getStorage key (setStorage key value store) = value
  /\ forall key', key' <> key ->
       sync_get key' (setStorage key value store) = sync_get key' store.
Proof.
  split; [by destruct key|]. intros key' H. by destruct key, key'.
Qed.

Lemma isModuleEnabled_setStorage (i : string) (states : gmap string bool) store :
  isModuleEnabled i (setStorage moduleStates states store)
    = PlainObject.orFalse (PlainObject.get states i).
Proof. reflexivity. Qed.

Lemma get_insert {A} (o : gmap string A) (i j : string) (a : A) :
  PlainObject.get (<[i := a]> o) j
    = if decide (j = i) then PlainObject.own a else PlainObject.get o j.
Proof.
  unfold PlainObject.get. destruct (decide (j = i)) as [->|Hne].
  - by rewrite lookup_insert_eq.
  - by rewrite lookup_insert_ne.
Qed.

Lemma assign_own {A} (key : string) (a : A) (o : gmap string A) :
  key ≠ "__proto__" -> PlainObject.assign key a o = <[key := a]> o.
Proof. intros H. unfold PlainObject.assign. by rewrite bool_decide_eq_false_2. Qed.

Lemma assign_proto {A} (a : A) (o : gmap string A) :
  o !! "__proto__" = None -> PlainObject.assign "__proto__" a o = o.
Proof.
  intros H. unfold PlainObject.assign.
  by rewrite (bool_decide_eq_true_2 ("__proto__" = "__proto__")),
    (bool_decide_eq_true_2 (o !! "__proto__" = None)).
Qed.

Lemma truthy_orFalse (r : PlainObject.Read bool) :
  PlainObject.truthy (PlainObject.orFalse r) = PlainObject.truthy r.
Proof. by destruct r. Qed.

(** X2.  After [setModuleEnabled(i, enabled)] with [i] other than
    "__proto__", [isModuleEnabled(i)] is [enabled] and every other module
    reads as before.  For "__proto__", when the stored object has no own
    property of that name, the assignment is lost: the stored states are the
    same and [isModuleEnabled] goes on returning the prototype.  The stored
    card preferences and pinned list are untouched in every case. *)
Theorem setModuleEnabled_isModuleEnabled (i j : string) (enabled : bool) store :
  (i <> "__proto__" ->
   isModuleEnabled j (setModuleEnabled i enabled store)
     = if decide (j = i) then PlainObject.own enabled else isModuleEnabled j store)
  /\ (i = "__proto__" -> getStorage moduleStates store !! i = None ->
      getStorage moduleStates (setModuleEnabled i enabled store)
        = getStorage moduleStates store
      /\ isModuleEnabled i (setModuleEnabled i enabled store)
         = PlainObject.from_prototype i)
  /\ sync_get cardPreferences (setModuleEnabled i enabled store)
       = sync_get cardPreferences store
  /\ sync_get favouriteQualities (setModuleEnabled i enabled store)
       = sync_get favouriteQualities store.
Proof.
  split; [|split; [|done]].
  - intros Hi. unfold setModuleEnabled. rewrite isModuleEnabled_setStorage.
    rewrite assign_own by done. cbv [StorageSchema]. rewrite get_insert.
    by destruct (decide (j = i)).
  - intros -> Hnone. unfold setModuleEnabled. rewrite isModuleEnabled_setStorage.
    cbv [StorageSchema] in Hnone |- *. rewrite assign_proto by done.
    split; [done|]. unfold PlainObject.get. by rewrite Hnone.
Qed.

Lemma assign_assign_eq {A} (k : string) (a b : A) (o : gmap string A) :
  PlainObject.assign k b (PlainObject.assign k a o) = PlainObject.assign k b o.
Proof.
  unfold PlainObject.assign. destruct (decide (k = "__proto__")) as [->|Hk].
  - rewrite !(bool_decide_eq_true_2 ("__proto__" = "__proto__")) by done.
    cbn [andb]. destruct (o !! "__proto__") as [c|] eqn:E.
    + rewrite !(bool_decide_eq_false_2 (Some c = None)) by done.
      rewrite lookup_insert_eq.
      rewrite (bool_decide_eq_false_2 (Some a = None)) by done.
      apply insert_insert_eq.
    + rewrite !(bool_decide_eq_true_2 (None = None)) by done.
      rewrite E. by rewrite (bool_decide_eq_true_2 (None = None)).
  - rewrite !(bool_decide_eq_false_2 (k = "__proto__")) by done. cbn [andb].
    apply insert_insert_eq.
Qed.

Lemma assign_assign_ne {A} (i j : string) (a b : A) (o : gmap string A) :
  i <> j ->
  PlainObject.assign i a (PlainObject.assign j b o)
    = PlainObject.assign j b (PlainObject.assign i a o).
Proof.
  intros Hne. unfold PlainObject.assign.
  destruct (decide (i = "__proto__")) as [->|Hi];
    destruct (decide (j = "__proto__")) as [->|Hj]; [done| | |].
  - rewrite !(bool_decide_eq_true_2 ("__proto__" = "__proto__")) by done.
    rewrite !(bool_decide_eq_false_2 (j = "__proto__")) by done. cbn [andb].
    rewrite lookup_insert_ne by done.
    destruct (bool_decide (o !! "__proto__" = None)); [done|].
    by apply insert_insert_ne.
  - rewrite !(bool_decide_eq_true_2 ("__proto__" = "__proto__")) by done.
    rewrite !(bool_decide_eq_false_2 (i = "__proto__")) by done. cbn [andb].
    rewrite lookup_insert_ne by done.
    destruct (bool_decide (o !! "__proto__" = None)); [done|].
    by apply insert_insert_ne.
  - rewrite !(bool_decide_eq_false_2 (i = "__proto__")) by done.
    rewrite !(bool_decide_eq_false_2 (j = "__proto__")) by done. cbn [andb].
    by apply insert_insert_ne.
Qed.

(** X3.  Writes of the enabled state compose: a second write for the same
    module replaces the first, and writes for two different modules
    commute. *)
Theorem setModuleEnabled_compose (i j : string) (a b : bool) store :
  setModuleEnabled i b (setModuleEnabled i a store) = setModuleEnabled i b store
  /\ (i <> j ->
      setModuleEnabled i a (setModuleEnabled j b store)
        = setModuleEnabled j b (setModuleEnabled i a store)).
Proof.
  split.
  - unfold setModuleEnabled, setStorage, getStorage. cbn. cbv [StorageSchema].
    by rewrite assign_assign_eq.
  - intros Hne. unfold setModuleEnabled, setStorage, getStorage. cbn.
    cbv [StorageSchema]. by rewrite (assign_assign_ne i j).
Qed.

(** X4.  [toggleModule] returns the negation of the truthiness of what
    [isModuleEnabled] reported.  For an id other than "__proto__" it stores
    it; other modules are not affected; toggling twice gives back the
    enabled state of every module (the stored map itself may have gained an
    explicit entry).  For "__proto__", when the stored object has no own
    property of that name, it returns [false] every time and the stored
    states are the same. *)
Theorem toggleModule_flips (i : string) store :
  let '(store', newState) := toggleModule i store in
  newState = negb (PlainObject.truthy (isModuleEnabled i store))
  /\ (i <> "__proto__" -> isModuleEnabled i store' = PlainObject.own newState)
  /\ (forall j, j <> i -> isModuleEnabled j store' = isModuleEnabled j store)
  /\ (i <> "__proto__" ->
      forall j, PlainObject.truthy (isModuleEnabled j (toggleModule i store').1)
                = PlainObject.truthy (isModuleEnabled j store))
  /\ (i = "__proto__" -> getStorage moduleStates store !! i = None ->
      newState = false
      /\ getStorage moduleStates store' = getStorage moduleStates store).
Proof.
  unfold toggleModule.
  set (states := getStorage moduleStates store : gmap string bool).
  assert (O : forall (j : string) (o : gmap string bool), j <> i ->
            PlainObject.get (PlainObject.assign i
                               (negb (PlainObject.truthy (PlainObject.get states i))) o) j
            = PlainObject.get o j).
  { intros j o Hj. unfold PlainObject.assign. destruct (_ && _); [done|].
    rewrite get_insert. by rewrite decide_False. }
  split; [by unfold isModuleEnabled; rewrite truthy_orFalse|].
  split; [|split; [|split]].
  - intros Hi. rewrite isModuleEnabled_setStorage, assign_own by done.
    rewrite get_insert. by rewrite decide_True.
  - intros j Hj. rewrite isModuleEnabled_setStorage. unfold isModuleEnabled.
    fold states. by rewrite O.
  - intros Hi j. cbn [fst]. rewrite isModuleEnabled_setStorage.
    change (getStorage moduleStates (setStorage moduleStates ?v store)) with v.
    rewrite !assign_own by done. unfold isModuleEnabled. fold states.
    rewrite !truthy_orFalse, !get_insert.
    destruct (decide (j = i)) as [->|Hne].
    + rewrite decide_True by done. cbn [PlainObject.truthy].
      by rewrite negb_involutive.
    + reflexivity.
  - intros -> Hnone. fold states in Hnone. cbv [StorageSchema] in Hnone, states |- *.
    rewrite assign_proto by done. unfold PlainObject.get. rewrite Hnone.
    by split.
Qed.

(** Toggling a module that has no stored entry leaves a store that differs
    from the original after the second toggle: the round trip of
    [toggleModule] is on the enabled states, not on the stored map. *)
Example toggleModule_twice_stores_false :
  let store := (toggleModule "bazaar-total" (toggleModule "bazaar-total" emptyStore).1).1 in
  sync_get moduleStates store = Some (<["bazaar-total" := false]> ∅)
  /\ sync_get moduleStates emptyStore = None.
Proof. vm_compute. done. Qed.

(** What the object model means for ids that are property names of
    [Object.prototype]: "constructor" reads as an object, so the first
    toggle gives [false]; a write to "__proto__" is lost. *)
Example inherited_ids :
  isModuleEnabled "constructor" emptyStore = PlainObject.from_prototype "constructor"
  /\ (toggleModule "constructor" emptyStore).2 = false
  /\ isModuleEnabled "__proto__" (setModuleEnabled "__proto__" true emptyStore)
     = PlainObject.from_prototype "__proto__"
  /\ (toggleModule "__proto__" (toggleModule "__proto__" emptyStore).1).2 = false.
Proof. vm_compute. done. Qed.

(** X5.  [initializeStorage] never changes the enabled state of a module: on
    a store without enabled states every module read as disabled before, and
    the defaults say the same; otherwise nothing is written. So the result
    of [getAllModuleStates] is the same before and after, and this holds for
    the listener of [runtime.onInstalled] whatever the reason. *)
Theorem initializeStorage_keeps_enabled_states (store : Store) (i : string)
    (reason : ServiceWorker.OnInstalledReason) :
  isModuleEnabled i (initializeStorage store) = isModuleEnabled i store
  /\ getAllModuleStates (initializeStorage store) = getAllModuleStates store
  /\ isModuleEnabled i (ServiceWorker.onInstalled reason store) = isModuleEnabled i store.
Proof.
  assert (L : forall j : string,
            default false (getStorage moduleStates (initializeStorage store) !! j)
            = default false (getStorage moduleStates store !! j)).
  { intros j. unfold initializeStorage, getStorage.
    destruct (sync_get moduleStates store) as [states|] eqn:Hs; [by rewrite Hs|].
    cbn [sync_get stored_moduleStates getDefault]. rewrite allDisabled_lookup.
    destruct (decide _); reflexivity. }
  assert (E : forall j, isModuleEnabled j (initializeStorage store) = isModuleEnabled j store).
  { intros j. unfold initializeStorage, isModuleEnabled, getStorage.
    destruct (sync_get moduleStates store) as [states|] eqn:Hs; [by rewrite Hs|].
    cbn [sync_get stored_moduleStates getDefault]. unfold PlainObject.get.
    rewrite allDisabled_lookup.
    destruct (decide (j ∈ map id MODULE_REGISTRY)) as [Hin|Hin]; [|done].
    assert (H : PlainObject.inherited j = false).
    { cbn in Hin. unfold PlainObject.inherited.
      repeat (apply elem_of_cons in Hin as [->|Hin]; [reflexivity|]).
      by apply elem_of_nil in Hin. }
    cbv [StorageSchema]. rewrite lookup_empty. by rewrite H. }
  split; [apply E|]. split.
  - apply map_eq. intros j. unfold getAllModuleStates.
    rewrite !fillStates_lookup. destruct (decide _); [|done].
    f_equal. apply L.
  - destruct reason; [apply E|done..].
Qed.

(** X6.  What [getAllModuleStates] returns after [setModuleEnabled(i,
    enabled)]: for a module of the registry, the map from before with [i]
    set to [enabled]; for any other id, the map from before (the write is
    stored, but it does not show). *)
Theorem getAllModuleStates_setModuleEnabled (i : string) (enabled : bool) store :
  getAllModuleStates (setModuleEnabled i enabled store)
    = if decide (i ∈ map id MODULE_REGISTRY)
      then <[i := enabled]> (getAllModuleStates store)
      else getAllModuleStates store.
Proof.
  apply map_eq. intros j. unfold getAllModuleStates at 1. rewrite fillStates_lookup.
  change (getStorage moduleStates (setModuleEnabled i enabled store))
    with (PlainObject.assign i enabled (getStorage moduleStates store) : gmap string bool).
  cbv [StorageSchema].
  destruct (decide (i ∈ map id MODULE_REGISTRY)) as [Hi|Hi].
  - assert (Hp : i <> "__proto__").
    { intros ->. cbn in Hi.
      repeat (apply elem_of_cons in Hi as [Hi|Hi]; [discriminate Hi|]).
      by apply elem_of_nil in Hi. }
    rewrite assign_own by done.
    destruct (decide (j = i)) as [->|Hne].
    + rewrite decide_True by done. by rewrite !lookup_insert_eq.
    + rewrite !lookup_insert_ne by done. unfold getAllModuleStates.
      by rewrite fillStates_lookup.
  - unfold getAllModuleStates. rewrite fillStates_lookup.
    destruct (decide (j ∈ map id MODULE_REGISTRY)) as [Hj|Hj]; [|done].
    unfold PlainObject.assign. destruct (_ && _); [done|].
    rewrite lookup_insert_ne; [done|]. by intros ->.
Qed.

End StorageRoundTrips.

Lemma setStorage_getStorage_witness :
  let store := Storage.setStorage Storage.favouriteQualities ["a"] Storage.emptyStore in
  Storage.cardPreferences <> Storage.favouriteQualities
  /\ Storage.getStorage Storage.favouriteQualities store = ["a"]
  /\ Storage.sync_get Storage.cardPreferences store = None.
Proof.
  intros store.
  assert (H : Storage.cardPreferences <> Storage.favouriteQualities) by discriminate.
  destruct (setStorage_getStorage Storage.favouriteQualities ["a"] Storage.emptyStore)
    as [G O].
  exact (conj H (conj G (O _ H))).
Defined.

Lemma setModuleEnabled_compose_witness :
  "bazaar-total" <> "card-favourites"
  /\ Storage.setModuleEnabled "bazaar-total" true
       (Storage.setModuleEnabled "card-favourites" false Storage.emptyStore)
     = Storage.setModuleEnabled "card-favourites" false
         (Storage.setModuleEnabled "bazaar-total" true Storage.emptyStore).
Proof.
  assert (H : "bazaar-total" <> "card-favourites") by discriminate.
  destruct (setModuleEnabled_compose "bazaar-total" "card-favourites" true false
              Storage.emptyStore) as [_ C].
  exact (conj H (C H)).
Defined.

Lemma toggleModule_flips_witness :
  "card-favourites" <> "bazaar-total"
  /\ (Storage.toggleModule "bazaar-total" Storage.emptyStore).2 = true
  /\ Storage.isModuleEnabled "card-favourites"
       (Storage.toggleModule "bazaar-total" Storage.emptyStore).1
     = PlainObject.own false.
Proof.
  assert (H : "card-favourites" <> "bazaar-total") by discriminate.
  pose proof (toggleModule_flips "bazaar-total" Storage.emptyStore) as T.
  destruct (Storage.toggleModule "bazaar-total" Storage.emptyStore) as [store' newState].
  destruct T as (N & _ & O & _).
  exact (conj H (conj N (O _ H))).
Defined.

(** ** The manager: registration, start-up and the change listener *)

Section ManagerLifecycle.
Import Manager ManagerInvariant.
Context {Page : Type}.
Implicit Types (module : FeatureModule Page) (s : State Page)
  (ms : list (string * FeatureModule Page)) (old new states : gmap string bool).

Lemma map_set_fresh (i : string) module ms :
  i ∉ map fst ms -> map_set _ i module ms = ms ++ [(i, module)].
Proof.
  induction ms as [|[j m] ms IH]; intros Hi; [done|].
  cbn [map_set]. cbn [map fst] in Hi. apply not_elem_of_cons in Hi. destruct Hi as [Hne Hi].
  rewrite bool_decide_eq_false_2 by done. cbn [app]. by rewrite IH.
Qed.

Lemma modules_has_spec (i : string) s :
  modules_has _ i s = (s, Normal (bool_decide (i ∈ map fst (modules s)))).
Proof.
  unfold modules_has, gets. do 2 f_equal.
  induction (modules s) as [|[j m] ms IH]; [done|].
  cbn [existsb map fst]. rewrite IH.
  destruct (decide (j = i)) as [->|Hne].
  - rewrite bool_decide_eq_true_2 by done. cbn [orb]. symmetry.
    apply bool_decide_eq_true_2. apply list_elem_of_here.
  - rewrite (bool_decide_eq_false_2 (j = i)) by done. cbn [orb].
    apply bool_decide_ext. rewrite elem_of_cons. split; [by right|].
    by intros [->|?].
Qed.

(** X7.  [register] keeps the first unit registered under an id: registering
    an id again changes nothing but the console, which gets a warning; a new
    id is appended. The ids stay distinct, every unit sits under its own id,
    and nothing is enabled: no routine is called and the active set is
    unchanged. *)
Theorem register_first_wins module s :
  wellKeyed (modules s) ->
  let s' := (register module s).1 in
  (register module s).2 = Normal tt
  /\ wellKeyed (modules s')
  /\ activeModules s' = activeModules s /\ calls s' = calls s
  /\ (if decide (id module ∈ map fst (modules s))
      then modules s' = modules s
           /\ console s' = console s ++ [warn_already_registered (id module)]
      else modules s' = modules s ++ [(id module, module)]
           /\ console s' = console s).
Proof.
  intros [Hnd Hkeys]. unfold register, bind. rewrite modules_has_spec.
  destruct (decide (id module ∈ map fst (modules s))) as [Hin|Hin].
  - rewrite bool_decide_eq_true_2 by done. cbn. by repeat split.
  - rewrite bool_decide_eq_false_2 by done.
    unfold modules_set, modify. cbn [fst snd set_modules modules activeModules calls console].
    rewrite map_set_fresh by done. repeat split; try done.
    + rewrite map_app. cbn [map fst]. apply NoDup_app. repeat split; try done.
      * intros j Hj ->%list_elem_of_singleton. done.
      * apply NoDup_singleton.
    + apply Forall_app. split; [done|]. by constructor.
Qed.


(** What the two methods do with a unit whose routines do not fail. *)
Lemma enableModule_reliable module s :
  reliable module -> id module ∉ activeModules s ->
  let s' := (enableModule module s).1 in
  modules s' = modules s /\ listening s' = listening s
  /\ activeModules s' = activeModules s /\ console s' = console s
  /\ (exists k, suspended s' = suspended s ++ [k]
                /\ unfailing k /\ unitOf k = id module)
  /\ calls s' = calls s ++ [call_enable (id module)].
Proof.
  intros Hrel Hin. run_monad. rewrite bool_decide_eq_false_2 by done.
  destruct (Hrel (page s)) as [He _].
  destruct (enable module (page s)) as [pg c]. cbn in He.
  destruct He as [-> | ->]; cbn; repeat split; by eexists.
Qed.

Lemma disableModule_reliable module s :
  reliable module -> id module ∈ activeModules s ->
  let s' := (disableModule module s).1 in
  modules s' = modules s /\ listening s' = listening s
  /\ activeModules s' = activeModules s ∖ {[id module]}
  /\ suspended s' = suspended s
  /\ calls s' = calls s ++ [call_disable (id module)].
Proof.
  intros Hrel Hin. run_monad. rewrite bool_decide_eq_true_2 by done. cbn.
  destruct (Hrel (page s)) as [_ Hd].
  destruct (disable module (page s)) as [pg c]. cbn in Hd. subst c. by cbn.
Qed.

Lemma turns_exclusive old new (i : string) :
  turnsOn old new i = true -> turnsOff old new i = false.
Proof. unfold turnsOn, turnsOff. by destruct (PlainObject.truthyAt new i). Qed.

(** The loop of the change listener over the registered units. *)
Lemma applyChange_loop old new ms : forall s,
  wellKeyed ms -> Forall (fun entry => reliable entry.2) ms ->
  (forall i, i ∈ map fst ms ->
             (i ∈ activeModules s <-> PlainObject.truthyAt old i = true)) ->
  let s' := (for_of ms (applyChange old new) s).1 in
  modules s' = modules s /\ listening s' = listening s
  /\ (exists ks, suspended s' = suspended s ++ ks
                 /\ Forall unfailing ks
                 /\ map unitOf ks
                    = map fst (filter (fun entry => turnsOn old new entry.1 = true) ms))
  /\ (forall i, i ∈ activeModules s' <->
                i ∈ activeModules s /\ ~ (i ∈ map fst ms /\ turnsOff old new i = true))
  /\ calls s' = calls s ++ expectedCalls old new ms.
Proof.
  induction ms as [|[i module] ms IH]; intros s [Hnd Hkeys] Hrel Hact.
  { cbn. rewrite !app_nil_r. split; [done|]. split; [done|].
    split; [exists []; by rewrite app_nil_r|].
    split; [|done]. intros j. split; [|by intros [? _]].
    intros ?. split; [done|]. intros [Hnil _]. by apply elem_of_nil in Hnil. }
  cbn [map fst] in Hnd. apply NoDup_cons in Hnd as [Hi Hnd].
  apply Forall_cons in Hkeys as [Hid Hkeys]. cbn in Hid.
  apply Forall_cons in Hrel as [Hm Hrel]. cbn in Hm.
  cbn [for_of]. unfold bind.
  pose proof (applyChange_returns old new (i, module) s) as R.
  set (s1 := (applyChange old new (i, module) s).1).
  assert (S1 : modules s1 = modules s /\ listening s1 = listening s
    /\ (exists k1, suspended s1 = suspended s ++ k1 /\ Forall unfailing k1
                   /\ map unitOf k1 = if turnsOn old new i then [i] else [])
    /\ activeModules s1
         = (if turnsOff old new i then activeModules s ∖ {[i]} else activeModules s)
    /\ calls s1 = calls s
         ++ (if turnsOn old new i then [call_enable i]
             else if turnsOff old new i then [call_disable i] else [])).
  { subst s1. unfold applyChange.
    assert (Hai : i ∈ activeModules s <-> PlainObject.truthyAt old i = true)
      by (apply Hact; cbn; apply list_elem_of_here).
    fold (turnsOn old new i). fold (turnsOff old new i).
    destruct (turnsOn old new i) eqn:Hon.
    - rewrite (turns_exclusive _ _ _ Hon).
      assert (Hnot : id module ∉ activeModules s).
      { rewrite Hid, Hai. unfold turnsOn in Hon.
        destruct (PlainObject.truthyAt old i); [|done]. by rewrite andb_false_r in Hon. }
      destruct (enableModule_reliable module s Hm Hnot)
        as (?&?&?&?&(k & Hk & Hu & Hunit)&?).
      rewrite <- Hid. split; [done|]. split; [done|]. split; [|done].
      exists [k]. split; [done|]. split; [by constructor|]. cbn. by rewrite Hunit.
    - destruct (turnsOff old new i) eqn:Hoff.
      + assert (Hin : id module ∈ activeModules s).
        { rewrite Hid, Hai. unfold turnsOff in Hoff.
          by apply andb_prop in Hoff as [_ ?]. }
        destruct (disableModule_reliable module s Hm Hin) as (?&?&?&?&?).
        rewrite <- Hid. split; [done|]. split; [done|]. split; [|done].
        exists []. by rewrite app_nil_r.
      + cbn. rewrite !app_nil_r. split; [done|]. split; [done|]. split; [|done].
        exists []. by rewrite app_nil_r. }
  destruct (applyChange old new (i, module) s) as [s1' r]. cbn in R, s1. subst r s1.
  destruct S1 as (M1 & L1 & (k1 & P1 & U1 & I1) & A1 & C1).
  destruct (IH s1') as (M2 & L2 & (k2 & P2 & U2 & I2) & A2 & C2); [done|done| |].
  { intros j Hj. rewrite <- (Hact j) by (cbn; by apply list_elem_of_further).
    rewrite A1. destruct (turnsOff old new i); [|done].
    rewrite elem_of_difference, elem_of_singleton. split; [by intros [? _]|].
    intros ?. split; [done|]. by intros ->. }
  cbn zeta in *. rewrite M2, L2, C2, M1, L1, C1.
  split; [done|]. split; [done|]. split; [|split].
  - exists (k1 ++ k2). rewrite P2, P1, <- app_assoc. split; [done|].
    split; [by apply Forall_app|]. rewrite map_app, I1, I2, filter_cons. cbn [fst snd].
    destruct (turnsOn old new i) eqn:Hon.
    + by rewrite decide_True by done.
    + by rewrite decide_False by done.
  - intros j. rewrite A2, A1. split.
    + intros [Hj Hno]. split.
      * destruct (turnsOff old new i); [|done].
        by apply elem_of_difference in Hj as [? _].
      * intros [Hin Hoff]. cbn [map fst] in Hin. apply elem_of_cons in Hin as [->|Hin].
        -- rewrite Hoff in Hj. apply elem_of_difference in Hj as [_ Hj].
           by apply Hj, elem_of_singleton.
        -- by apply Hno.
    + intros [Hj Hno]. split.
      * destruct (turnsOff old new i) eqn:Hoff; [|done].
        apply elem_of_difference. split; [done|]. intros ->%elem_of_singleton.
        apply Hno. split; [cbn; apply list_elem_of_here|done].
      * intros [Hin Hoff]. apply Hno. split; [|done]. cbn. by apply list_elem_of_further.
  - cbn [expectedCalls flat_map fst]. by rewrite <- app_assoc.
Qed.

Lemma resume_fulfilled module s :
  resume (after_enable module Fulfilled) s
    = (set_console (console s ++ [log_enabled (id module)])
         (set_activeModules (activeModules s ∪ {[id module]}) s), Normal tt).
Proof. reflexivity. Qed.

Lemma resume_awaiting module s :
  resume (awaiting_enable module) s
    = (set_suspended (suspended s ++ [awaiting_enable module]) s, Normal tt).
Proof. reflexivity. Qed.

(** The checkpoint: the parked calls whose value is fulfilled add their
    units to the active set; the others stay awaited. *)
Lemma resume_unfailing (ks : list (Continuation Page)) :
  Forall unfailing ks -> forall s,
  let s' := (for_of ks resume s).1 in
  modules s' = modules s /\ listening s' = listening s
  /\ forall i, i ∈ activeModules s'
               \/ i ∈ map unitOf (filter (fun k => pending k = true) ks)
               <-> i ∈ activeModules s \/ i ∈ map unitOf ks.
Proof.
  induction 1 as [|k ks Hk _ IH]; intros s; [done|].
  cbn [for_of]. unfold bind. destruct k as [module [|err]|module]; [| done |].
  - rewrite resume_fulfilled.
    destruct (IH (set_console (console s ++ [log_enabled (id module)])
                    (set_activeModules (activeModules s ∪ {[id module]}) s)))
      as (M & L & A).
    cbn zeta in *. rewrite M, L. split; [done|]. split; [done|].
    intros i. rewrite filter_cons, decide_False by done. rewrite A.
    cbn [set_console set_activeModules activeModules map unitOf].
    rewrite elem_of_union, elem_of_singleton, elem_of_cons. tauto.
  - rewrite resume_awaiting.
    destruct (IH (set_suspended (suspended s ++ [awaiting_enable module]) s))
      as (M & L & A).
    cbn zeta in *. rewrite M, L. split; [done|]. split; [done|].
    intros i. rewrite filter_cons, decide_True by done.
    cbn [map unitOf]. rewrite !elem_of_cons.
    specialize (A i). cbn [set_suspended activeModules] in A. tauto.
Qed.

Lemma settle_unfold s :
  (settle s).1 = (for_of (suspended s) resume (set_suspended [] s)).1.
Proof. reflexivity. Qed.

Lemma turnedOn_ids old new ms (i : string) :
  i ∈ map fst (filter (fun entry => turnsOn old new entry.1 = true) ms)
  <-> i ∈ map fst ms /\ turnsOn old new i = true.
Proof.
  rewrite !list_elem_of_fmap. split.
  - intros ([j m] & -> & [Hon Hin]%list_elem_of_filter). cbn in *.
    split; [|done]. by exists (j, m).
  - intros [([j m] & -> & Hin) Hon]. exists (j, m). cbn in *.
    split; [done|]. by apply list_elem_of_filter.
Qed.

(** The loop and the checkpoint after it, from a state in which no call is
    parked and the active set follows [old]. *)
Lemma change_settled old new s :
  wellKeyed (modules s) -> Forall (fun entry => reliable entry.2) (modules s) ->
  suspended s = [] -> tracks old s ->
  let s' := (settle (for_of (modules s) (applyChange old new) s).1).1 in
  settling new s'
  /\ calls s' = calls s ++ expectedCalls old new (modules s)
  /\ modules s' = modules s /\ listening s' = listening s.
Proof.
  intros Hkeys Hrel Hsusp Htracks.
  destruct (applyChange_loop old new (modules s) s Hkeys Hrel)
    as (M1 & L1 & (ks & P1 & U1 & I1) & A1 & C1).
  { intros i Hi. rewrite (Htracks i). unfold registered. split; [by intros [_ ?]|done]. }
  cbn zeta in *.
  set (s1 := (for_of (modules s) (applyChange old new) s).1) in *.
  rewrite Hsusp in P1. cbn [app] in P1.
  destruct (resume_unfailing ks U1 (set_suspended [] s1)) as (M2 & L2 & A2).
  cbn zeta in *.
  assert (E : (settle s1).1 = (for_of ks resume (set_suspended [] s1)).1)
    by (by rewrite settle_unfold, P1).
  split; [|split; [|split]].
  - split; [apply settle_pending|].
    intros i. unfold awaitedIds, registered. rewrite settle_suspended, P1, E, M2.
    cbn [set_suspended modules]. rewrite M1, A2. cbn [set_suspended activeModules].
    rewrite I1, turnedOn_ids, A1, (Htracks i). unfold registered, turnsOn, turnsOff.
    destruct (PlainObject.truthyAt old i), (PlainObject.truthyAt new i); cbn;
      intuition congruence.
  - by rewrite settle_calls, C1.
  - by rewrite E, M2.
  - by rewrite E, L2.
Qed.

(** The environment fulfils a pending promise. *)
Lemma settlePending_fulfilled (n : nat) (pg : Page) s :
  let s' := (settlePending n pg Fulfilled s).1 in
  modules s' = modules s /\ listening s' = listening s /\ calls s' = calls s
  /\ match suspended s !! n with
     | Some (awaiting_enable module) =>
         suspended s' = delete n (suspended s)
         /\ activeModules s' = activeModules s ∪ {[id module]}
     | _ => s' = s
     end.
Proof.
  unfold settlePending, bind, gets.
  destruct (suspended s !! n) as [[module p|module]|]; try done.
Qed.

Lemma settling_fulfilled states (n : nat) (pg : Page) s :
  settling states s -> settling states (settlePending n pg Fulfilled s).1.
Proof.
  intros [Hp Hs].
  destruct (settlePending_fulfilled n pg s) as (M & L & C & H).
  cbn zeta in *. destruct (suspended s !! n) as [k|] eqn:E; [|by rewrite H].
  destruct k as [module p|module]; [by rewrite H|]. destruct H as [P A].
  pose proof (take_drop_middle _ _ _ E) as T.
  unfold settling, awaitedIds, registered in *. rewrite P, A, M.
  rewrite delete_take_drop. rewrite <- T in Hp, Hs.
  apply Forall_app in Hp as [Hp1 Hp2]. apply Forall_cons in Hp2 as [_ Hp2].
  split; [by apply Forall_app|].
  intros i. rewrite <- (Hs i). rewrite !map_app. cbn [map unitOf].
  rewrite elem_of_union, elem_of_singleton, !elem_of_app, elem_of_cons. tauto.
Qed.

Lemma fulfil_settling states (schedule : list (nat * Page)) : forall s,
  settling states s ->
  settling states (fulfil schedule s)
  /\ calls (fulfil schedule s) = calls s
  /\ modules (fulfil schedule s) = modules s
  /\ listening (fulfil schedule s) = listening s.
Proof.
  induction schedule as [|[n pg] schedule IH]; intros s Hs; [done|].
  cbn [fulfil foldl fst snd].
  destruct (settlePending_fulfilled n pg s) as (M & L & C & _). cbn zeta in *.
  destruct (IH (settlePending n pg Fulfilled s).1) as (S' & C' & M' & L').
  { by apply settling_fulfilled. }
  unfold fulfil in *. by rewrite C', M', L', C, M, L.
Qed.

Lemma settling_tracks states s : settling states s -> suspended s = [] -> tracks states s.
Proof.
  intros [_ Hs] Hnil i. rewrite <- (Hs i). unfold awaitedIds. rewrite Hnil.
  cbn. rewrite elem_of_nil. tauto.
Qed.

(** Fulfilling the first parked call, as many times as calls are parked,
    leaves none. *)
Lemma fulfil_first (pg : Page) : forall (n : nat) s,
  Forall (fun k => pending k = true) (suspended s) ->
  length (suspended s) = n ->
  suspended (fulfil (replicate n (0, pg)) s) = [].
Proof.
  induction n as [|n IH]; intros s Hp Hlen.
  - cbn. by apply nil_length_inv.
  - change (fulfil (replicate (S n) (0, pg)) s)
      with (fulfil (replicate n (0, pg)) (settlePending 0 pg Fulfilled s).1).
    pose proof (settlePending_fulfilled 0 pg s) as H. cbn zeta in H.
    set (s1 := (settlePending 0 pg Fulfilled s).1) in *.
    destruct H as (_ & _ & _ & H).
    destruct (suspended s) as [|k ks] eqn:E; [done|].
    apply Forall_cons in Hp as [Hk Hp]. destruct k as [module p|module]; [done|].
    cbn in H. destruct H as [P _].
    apply IH; rewrite P; [done|]. cbn in Hlen. lia.
Qed.

Lemma deliver_change s changes (old : option (gmap string bool)) new :
  listening s = true ->
  Events.moduleStates changes = Some (Events.mkChange old (Some new)) ->
  (deliver Events.sync changes s).1
    = (settle (for_of (modules s) (applyChange (default ∅ old) new) s).1).1.
Proof.
  intros Hl Hch. unfold deliver, bind, gets. rewrite Hl. unfold onChanged. rewrite Hch.
  cbn [Events.newValue Events.oldValue]. unfold bind, gets.
  pose proof (for_of_returns (applyChange (default ∅ old) new) (modules s) s
                (applyChange_returns _ _)) as R.
  destruct (for_of (modules s) (applyChange (default ∅ old) new) s) as [s1 r].
  cbn in R. by subst r.
Qed.

(** X8.  The change listener brings the active set in step with the stored
    enabled states.  Take registered units whose routines do not fail, no
    call of [enableModule] parked, and an active set that is the set of the
    registered units that the old value enables.  An event of the sync area
    that carries a new value makes all the calls in the event itself:
    [enable()] of the units that went from disabled to enabled and
    [disable()] of those that went back, in the order of registration, and
    no other.  After the event and its checkpoint, the units that are
    active or whose [enable()] is still awaited are the registered units
    that the new value enables; a unit whose [enable()] returns a pending
    promise, as an [async enable()] that waits for the storage does, is not
    active yet.  This stays so while the environment fulfils the pending
    promises, in any order; no routine is called meanwhile; and once no
    call is awaited (which the environment can bring about) the active set
    is the set of the registered units that the new value enables. *)
Theorem deliver_tracks_storage s changes (old : option (gmap string bool)) new :
  wellKeyed (modules s) -> Forall (fun entry => reliable entry.2) (modules s) ->
  listening s = true -> suspended s = [] ->
  Events.moduleStates changes = Some (Events.mkChange old (Some new)) ->
  tracks (default ∅ old) s ->
  let s1 := (deliver Events.sync changes s).1 in
  calls s1 = calls s ++ expectedCalls (default ∅ old) new (modules s)
  /\ settling new s1
  /\ (forall schedule,
        let s2 := fulfil schedule s1 in
        settling new s2
        /\ (suspended s2 = [] -> tracks new s2)
        /\ calls s2 = calls s1 /\ modules s2 = modules s /\ listening s2 = true)
  /\ (forall pg, suspended (fulfil (replicate (length (suspended s1)) (0, pg)) s1) = []).
Proof.
  intros Hkeys Hrel Hl Hsusp Hch Htracks. cbn zeta.
  rewrite (deliver_change s changes old new Hl Hch).
  destruct (change_settled (default ∅ old) new s Hkeys Hrel Hsusp Htracks)
    as (S & C & M & L).
  cbn zeta in *. split; [done|]. split; [done|]. split.
  - intros schedule. destruct (fulfil_settling new schedule _ S) as (S' & C' & M' & L').
    split; [done|]. split; [by apply settling_tracks|].
    by rewrite C', M', L', M, L.
  - intros pg. apply fulfil_first; [by destruct S|done].
Qed.

(** X9.  Over a whole run the active set follows the store, provided that
    every awaited [enable()] has settled when the next event arrives.  From
    a state in which no call is parked and the active set is the set of the
    registered units that the stored value enables, after any sequence of
    changes of the stored value, each reported by its event and followed by
    the fulfilment of the promises that its calls of [enable()] returned,
    the active set is the set of the registered units that the last value
    enables. *)
Theorem active_set_follows_store
    (steps : list (gmap string bool * list (nat * Page))) :
  forall s (previous : option (gmap string bool)),
  wellKeyed (modules s) -> Forall (fun entry => reliable entry.2) (modules s) ->
  listening s = true -> suspended s = [] ->
  tracks (default ∅ previous) s ->
  settledBetween previous steps s ->
  let s' := deliverAll previous steps s in
  tracks (default (default ∅ previous) (last (map fst steps))) s'
  /\ modules s' = modules s /\ listening s' = true /\ suspended s' = [].
Proof.
  induction steps as [|[new schedule] steps IH];
    intros s previous Hkeys Hrel Hl Hsusp Htracks Hquiet.
  { by cbn. }
  cbn [deliverAll]. cbn [settledBetween] in Hquiet. destruct Hquiet as [Hnil Hquiet].
  set (s1 := (deliver Events.sync (changeTo previous new) s).1) in *.
  assert (E : s1 = (settle (for_of (modules s) (applyChange (default ∅ previous) new) s).1).1)
    by (by apply deliver_change).
  destruct (change_settled (default ∅ previous) new s Hkeys Hrel Hsusp Htracks)
    as (S & _ & M & L).
  cbn zeta in S, M, L. rewrite <- E in S, M, L.
  destruct (fulfil_settling new schedule s1 S) as (S' & _ & M' & L').
  set (s2 := fulfil schedule s1) in *.
  destruct (IH s2 (Some new)) as (T' & M'' & L'' & P''); try done.
  - by rewrite M', M.
  - by rewrite M', M.
  - by rewrite L', L.
  - by apply settling_tracks.
  - cbn zeta in *. rewrite M'', M', M. split; [|done].
    assert (Hlast : default (default ∅ previous) (last (map fst ((new, schedule) :: steps)))
                    = default (default ∅ (Some new)) (last (map fst steps))).
    { cbn [map fst]. destruct (map fst steps) as [|v values]; [done|].
      rewrite last_cons_cons. cbn [default from_option Datatypes.id].
      destruct (proj2 (last_is_Some (v :: values))) as [x ->]; done. }
    by rewrite Hlast.
Qed.

Lemma for_of_none old new ms : forall s,
  (forall j, j ∈ map fst ms -> turnsOn old new j = false /\ turnsOff old new j = false) ->
  for_of ms (applyChange old new) s = (s, Normal tt).
Proof.
  induction ms as [|[j m] ms IH]; intros s H; [done|].
  cbn [for_of]. unfold bind.
  assert (E : applyChange old new (j, m) s = (s, Normal tt)).
  { unfold applyChange. fold (turnsOn old new j). fold (turnsOff old new j).
    destruct (H j) as [-> ->]; [cbn; apply list_elem_of_here|done]. }
  rewrite E. apply IH. intros k Hk. apply H. cbn. by apply list_elem_of_further.
Qed.

(** A change that concerns one registered unit: the loop does what its turn
    for this unit does. *)
Lemma for_of_single old new ms (i : string) module : forall s,
  NoDup (map fst ms) -> (i, module) ∈ ms ->
  (forall j, j ∈ map fst ms -> j <> i ->
             turnsOn old new j = false /\ turnsOff old new j = false) ->
  for_of ms (applyChange old new) s = applyChange old new (i, module) s.
Proof.
  induction ms as [|[j m] ms IH]; intros s Hnd Hin H; [by apply elem_of_nil in Hin|].
  cbn [map fst] in Hnd. apply NoDup_cons in Hnd as [Hj Hnd].
  cbn [for_of]. unfold bind. apply elem_of_cons in Hin as [Heq|Hin].
  - injection Heq as <- <-.
    pose proof (applyChange_returns old new (i, module) s) as R.
    destruct (applyChange old new (i, module) s) as [s1 r]. cbn in R. subst r.
    apply for_of_none. intros k Hk. apply H; [cbn; by apply list_elem_of_further|].
    by intros ->.
  - assert (Hne : j <> i).
    { intros ->. apply Hj. apply list_elem_of_fmap. by exists (i, module). }
    assert (E : applyChange old new (j, m) s = (s, Normal tt)).
    { unfold applyChange. fold (turnsOn old new j). fold (turnsOff old new j).
      destruct (H j) as [-> ->]; [cbn; apply list_elem_of_here|done|done]. }
    rewrite E. apply IH; [done|done|].
    intros k Hk. apply H. cbn. by apply list_elem_of_further.
Qed.

(** X28.  A change that is reverted while [enable()] is awaited leaves the
    unit active against the store.  A registered unit that is not active
    has an [enable()] that returns a pending promise.  The event that turns
    it on calls [enable()]; the event that turns it off again arrives
    before the promise settles and calls nothing, because the unit is not
    in the active set yet; when the promise is fulfilled the unit enters
    the active set.  At the end no call is parked, the store has the unit
    disabled, the unit is active, and [disable()] was never called. *)
Theorem pending_enable_misses_disable s (i : string) module
    (off on : gmap string bool) (pg1 pg2 : Page) :
  wellKeyed (modules s) -> listening s = true -> suspended s = [] ->
  (i, module) ∈ modules s -> i ∉ activeModules s ->
  enable module (page s) = (pg1, EnablePending) ->
  PlainObject.truthyAt off i = false -> PlainObject.truthyAt on i = true ->
  (forall j, j ∈ map fst (modules s) -> j <> i ->
             PlainObject.truthyAt on j = PlainObject.truthyAt off j) ->
  let s1 := (deliver Events.sync (changeTo (Some off) on) s).1 in
  let s2 := (deliver Events.sync (changeTo (Some on) off) s1).1 in
  let s3 := (settlePending 0 pg2 Fulfilled s2).1 in
  (i ∉ activeModules s1) /\ suspended s1 = [awaiting_enable module]
  /\ s2 = s1
  /\ i ∈ activeModules s3 /\ suspended s3 = []
  /\ calls s3 = calls s ++ [call_enable i]
  /\ ~ tracks off s3.
Proof.
  intros [Hnd Hkeys] Hl Hsusp Hin Hact He Hoff Hon Hothers.
  assert (Hid : id module = i).
  { rewrite Forall_forall in Hkeys. exact (Hkeys _ Hin). }
  assert (N1 : forall j, j ∈ map fst (modules s) -> j <> i ->
                         turnsOn off on j = false /\ turnsOff off on j = false).
  { intros j Hj Hne. unfold turnsOn, turnsOff. rewrite (Hothers j Hj Hne).
    by destruct (PlainObject.truthyAt off j). }
  assert (N2 : forall j, j ∈ map fst (modules s) -> j <> i ->
                         turnsOn on off j = false /\ turnsOff on off j = false).
  { intros j Hj Hne. unfold turnsOn, turnsOff. rewrite (Hothers j Hj Hne).
    by destruct (PlainObject.truthyAt off j). }
  set (t1 := set_suspended [awaiting_enable module]
               (set_calls (calls s ++ [call_enable i]) (set_page pg1 s))).
  assert (E1 : (deliver Events.sync (changeTo (Some off) on) s).1 = t1).
  { rewrite (deliver_change s (changeTo (Some off) on) (Some off) on Hl eq_refl).
    change (default ∅ (Some off)) with off.
    rewrite (for_of_single _ _ _ i module s Hnd Hin N1). unfold applyChange.
    rewrite Hon, Hoff. cbn [andb negb].
    assert (A : enableModule module s = (t1, Normal tt)).
    { subst t1. rewrite <- Hid in Hact |- *. run_monad.
      rewrite bool_decide_eq_false_2 by done. rewrite He. cbn. by rewrite Hsusp. }
    rewrite A. cbn [fst]. by rewrite settle_idle by (by repeat constructor). }
  assert (E2 : (deliver Events.sync (changeTo (Some on) off) t1).1 = t1).
  { rewrite (deliver_change t1 (changeTo (Some on) off) (Some on) off Hl eq_refl).
    change (modules t1) with (modules s). change (default ∅ (Some on)) with on.
    rewrite (for_of_single _ _ _ i module t1 Hnd Hin N2). unfold applyChange.
    rewrite Hon, Hoff. cbn [andb negb].
    assert (A : disableModule module t1 = (t1, Normal tt)).
    { rewrite <- Hid in Hact. run_monad. by rewrite bool_decide_eq_false_2. }
    rewrite A. cbn [fst]. by rewrite settle_idle by (by repeat constructor). }
  cbn zeta. rewrite E1, E2.
  split; [done|]. split; [done|]. split; [done|].
  assert (A3 : i ∈ activeModules (settlePending 0 pg2 Fulfilled t1).1).
  { cbn. rewrite Hid. apply elem_of_union. right. by apply elem_of_singleton. }
  split; [exact A3|]. split; [done|]. split; [done|].
  intros T. apply (T i) in A3 as [_ A3]. congruence.
Qed.

Lemma for_of_ext {X} (f g : X -> M Page unit) (l : list X) s :
  (forall x, x ∈ l -> forall s', f x s' = g x s') -> for_of l f s = for_of l g s.
Proof.
  revert s. induction l as [|x l IH]; intros s H; [done|].
  cbn [for_of]. unfold bind. rewrite H by apply list_elem_of_here.
  destruct (g x s) as [s' [[]|err]]; [|done].
  apply IH. intros y Hy. apply H. by apply list_elem_of_further.
Qed.

Lemma resume_loop_listening (ks : list (Continuation Page)) s :
  (for_of ks resume (set_listening true s)).1
    = set_listening true (for_of ks resume s).1.
Proof.
  revert s. induction ks as [|[module p|module] ks IH]; intros s; [done| |].
  - cbn [for_of]. unfold bind. destruct p as [|err]; cbn;
      match goal with
      | |- _ = set_listening true (for_of ks resume ?s0).1 => exact (IH s0)
      end.
  - cbn [for_of]. unfold bind. cbn.
    match goal with
    | |- _ = set_listening true (for_of ks resume ?s0).1 => exact (IH s0)
    end.
Qed.

Lemma truthyAt_empty (i : string) :
  PlainObject.inherited i = false -> PlainObject.truthyAt ∅ i = false.
Proof.
  intros H. unfold PlainObject.truthyAt, PlainObject.get. by rewrite lookup_empty, H.
Qed.

(** [initialize] and the checkpoint after it, from a state with no active
    unit, for units whose ids are not property names of
    [Object.prototype]. *)
Lemma initialize_settled states s :
  wellKeyed (modules s) -> Forall (fun entry => reliable entry.2) (modules s) ->
  Forall (fun entry => PlainObject.inherited entry.1 = false) (modules s) ->
  suspended s = [] -> activeModules s = ∅ ->
  let s' := (settle (initialize states s).1).1 in
  settling states s'
  /\ calls s' = calls s ++ expectedCalls ∅ states (modules s)
  /\ modules s' = modules s /\ listening s' = true.
Proof.
  intros Hkeys Hrel Hplain Hsusp Hact.
  assert (Hempty : forall i, i ∈ map fst (modules s) -> PlainObject.truthyAt ∅ i = false).
  { intros i ([j m] & -> & Hin)%list_elem_of_fmap. apply truthyAt_empty.
    rewrite Forall_forall in Hplain. exact (Hplain _ Hin). }
  assert (Htracks : tracks ∅ s).
  { intros i. rewrite Hact. split; [by intros ?%elem_of_empty|].
    intros [Hreg Ht]. rewrite Hempty in Ht; done. }
  destruct (change_settled ∅ states s Hkeys Hrel Hsusp Htracks) as (S & C & M & L).
  assert (E : (initialize states s).1
    = set_listening true (for_of (modules s) (applyChange ∅ states) s).1).
  { unfold initialize, bind, gets, modify.
    rewrite (for_of_ext _ (applyChange ∅ states)).
    - pose proof (for_of_returns (applyChange ∅ states) (modules s) s
                    (applyChange_returns _ _)) as R.
      destruct (for_of (modules s) (applyChange ∅ states) s) as [s1 r].
      cbn in R. by subst r.
    - intros [i module] Hin s0. unfold applyChange.
      rewrite Hempty by (apply list_elem_of_fmap; by exists (i, module)). cbn.
      by destruct (PlainObject.truthyAt states i). }
  cbn zeta in *. rewrite E.
  assert (St : forall s1, (settle (set_listening true s1)).1
                          = set_listening true (settle s1).1).
  { intros s1. rewrite !settle_unfold.
    exact (resume_loop_listening (suspended s1) (set_suspended [] s1)). }
  rewrite St. cbn [set_listening calls modules listening].
  split; [|done]. exact S.
Qed.

(** X10.  The start of the content script.  With the three units registered
    under the ids of the registry and routines that do not fail,
    [initialize] calls [enable()] of the units that the store enables, once
    each, in the order of the registry, and installs the change listener.
    After the checkpoint, the units that are active or whose [enable()] is
    still awaited are exactly these; a unit with an [async enable()] that
    waits for the storage is not active yet.  While the environment fulfils
    the pending promises no routine is called, and once no call is awaited
    the active units are exactly the units of the registry that the store
    enables. *)
Theorem main_enables_stored
    (bazaarTotal cardFavourites qualityFavourites : FeatureModule Page)
    (pg : Page) (store : Storage.Store) :
  id bazaarTotal = "bazaar-total" -> id cardFavourites = "card-favourites" ->
  id qualityFavourites = "quality-favourites" ->
  reliable bazaarTotal -> reliable cardFavourites -> reliable qualityFavourites ->
  let states := Storage.getStorage Storage.moduleStates store in
  let s1 := (settle (ContentScript.main bazaarTotal cardFavourites qualityFavourites
                       store (newManager pg)).1).1 in
  calls s1 = map call_enable
                (filter (fun i => PlainObject.truthyAt states i = true)
                        (map Constants.id Constants.MODULE_REGISTRY))
  /\ modules s1 = [("bazaar-total", bazaarTotal); ("card-favourites", cardFavourites);
                   ("quality-favourites", qualityFavourites)]
  /\ listening s1 = true
  /\ settling states s1
  /\ forall schedule,
       let s2 := fulfil schedule s1 in
       calls s2 = calls s1 /\ listening s2 = true
       /\ (suspended s2 = [] ->
           forall i, i ∈ activeModules s2 <->
                     i ∈ map Constants.id Constants.MODULE_REGISTRY
                     /\ PlainObject.truthyAt states i = true).
Proof.
  intros Hb Hc Hq Rb Rc Rq states.
  set (ms := [("bazaar-total", bazaarTotal); ("card-favourites", cardFavourites);
              ("quality-favourites", qualityFavourites)]).
  set (s0 := mkState pg ms ∅ [] [] [] false).
  assert (E : ContentScript.main bazaarTotal cardFavourites qualityFavourites
                store (newManager pg) = initialize states s0).
  { subst s0 ms. destruct bazaarTotal as [ib eb db], cardFavourites as [ic ec dc],
      qualityFavourites as [iq eq dq]. cbn in Hb, Hc, Hq. subst. reflexivity. }
  cbn zeta. rewrite E.
  assert (K : wellKeyed (modules s0)).
  { split; cbn [s0 ms modules].
    - apply (bool_decide_unpack _). reflexivity.
    - repeat (apply Forall_cons; split; [cbn; assumption|]). constructor. }
  assert (R : Forall (fun entry => reliable entry.2) (modules s0)).
  { cbn [s0 ms modules].
    repeat (apply Forall_cons; split; [cbn; assumption|]). constructor. }
  assert (P : Forall (fun entry => PlainObject.inherited entry.1 = false) (modules s0))
    by (by repeat constructor).
  destruct (initialize_settled states s0 K R P eq_refl eq_refl) as (S & C & M & L).
  cbn zeta in *. split; [|split; [done|split; [done|split; [done|]]]].
  - rewrite C. cbn [s0 calls modules app ms expectedCalls flat_map fst].
    unfold turnsOn, turnsOff.
    rewrite !truthyAt_empty by reflexivity.
    cbn [map Constants.MODULE_REGISTRY Constants.id].
    rewrite !filter_cons, filter_nil. clearbody states.
    destruct (PlainObject.truthyAt states "bazaar-total"),
             (PlainObject.truthyAt states "card-favourites"),
             (PlainObject.truthyAt states "quality-favourites");
      cbn [negb andb]; repeat case_decide; done.
  - intros schedule. destruct (fulfil_settling states schedule _ S) as (S' & C' & M' & L').
    split; [done|]. split; [by rewrite L'|]. intros Hnil i.
    rewrite (settling_tracks _ _ S' Hnil i). unfold registered. by rewrite M', M.
Qed.



Lemma expectedCalls_cons old new (j : string) module ms :
  expectedCalls old new ((j, module) :: ms)
    = (if turnsOn old new j then [call_enable j]
       else if turnsOff old new j then [call_disable j] else [])
      ++ expectedCalls old new ms.
Proof. reflexivity. Qed.

Lemma expectedCalls_unchanged old new ms :
  (forall j, j ∈ map fst ms -> PlainObject.truthyAt new j = PlainObject.truthyAt old j) ->
  expectedCalls old new ms = [].
Proof.
  induction ms as [|[j m] ms IH]; intros H; [done|].
  rewrite expectedCalls_cons. unfold turnsOn, turnsOff.
  rewrite (H j) by (cbn; apply list_elem_of_here).
  rewrite IH.
  - by destruct (PlainObject.truthyAt old j).
  - intros k Hk. apply H. cbn. by apply list_elem_of_further.
Qed.

Lemma truthyAt_insert old (i j : string) (b : bool) :
  PlainObject.truthyAt (<[i := b]> old) j
    = if decide (j = i) then b else PlainObject.truthyAt old j.
Proof.
  unfold PlainObject.truthyAt, PlainObject.get. destruct (decide (j = i)) as [->|Hne].
  - by rewrite lookup_insert_eq.
  - by rewrite lookup_insert_ne.
Qed.

Lemma expectedCalls_one old ms (i : string) (b : bool) :
  NoDup (map fst ms) ->
  expectedCalls old (<[i := b]> old) ms
    = if decide (i ∈ map fst ms /\ PlainObject.truthyAt old i <> b)
      then [if b then call_enable i else call_disable i] else [].
Proof.
  induction ms as [|[j m] ms IH]; intros Hnd.
  { rewrite decide_False; [done|]. intros [H _]. by apply elem_of_nil in H. }
  cbn [map fst] in Hnd. apply NoDup_cons in Hnd as [Hj Hnd].
  rewrite expectedCalls_cons.
  destruct (decide (j = i)) as [->|Hne].
  - rewrite expectedCalls_unchanged, app_nil_r.
    + unfold turnsOn, turnsOff. rewrite truthyAt_insert, decide_True by done.
      destruct b, (PlainObject.truthyAt old i); cbn;
        first [ rewrite decide_True; [done|split; [cbn; apply list_elem_of_here|done]]
              | rewrite decide_False; [done|by intros [_ ?]] ].
    + intros k Hk. rewrite truthyAt_insert. rewrite decide_False; [done|]. by intros ->.
  - rewrite IH by done. unfold turnsOn, turnsOff.
    rewrite truthyAt_insert, decide_False by done.
    assert (Hno : (if PlainObject.truthyAt old j && negb (PlainObject.truthyAt old j)
                   then [call_enable j]
                   else if negb (PlainObject.truthyAt old j) && PlainObject.truthyAt old j
                        then [call_disable j] else []) = [])
      by (by destruct (PlainObject.truthyAt old j)).
    rewrite Hno. cbn [app]. apply decide_ext. cbn [map fst].
    rewrite elem_of_cons. split; [intros [? ?]; split; [by right|done]|].
    intros [[->|?] ?]; [done|by split].
Qed.

(** X13.  From the popup to the unit.  [setModuleEnabled(i, b)] changes the
    store; the change event that reports it (old value: what was stored
    before, if anything; new value: what is stored now) reaches a manager
    in which no call is parked and whose active set followed the store.
    For [i] other than "__proto__" the manager makes one call in the event,
    [enable()] or [disable()] of unit [i], if [i] is registered and its
    state changed, and no call otherwise.  After the event the units that
    are active or whose [enable()] is awaited are the registered units that
    the new store enables, and once no call is awaited the active set
    follows the new store. *)
Theorem setModuleEnabled_reaches_manager s (store : Storage.Store) (i : string) (b : bool) :
  wellKeyed (modules s) -> Forall (fun entry => reliable entry.2) (modules s) ->
  listening s = true -> suspended s = [] ->
  tracks (Storage.getStorage Storage.moduleStates store) s ->
  let store' := Storage.setModuleEnabled i b store in
  let changes :=
    Events.mkChanges
      (Some (Events.mkChange (Storage.sync_get Storage.moduleStates store)
                             (Storage.sync_get Storage.moduleStates store')))
      None None in
  let s1 := (deliver Events.sync changes s).1 in
  settling (Storage.getStorage Storage.moduleStates store') s1
  /\ (i <> "__proto__" ->
      calls s1 = calls s
        ++ (if decide (i ∈ map fst (modules s)
                       /\ PlainObject.truthyAt
                            (Storage.getStorage Storage.moduleStates store) i <> b)
            then [if b then call_enable i else call_disable i] else []))
  /\ (forall schedule,
        let s2 := fulfil schedule s1 in
        calls s2 = calls s1
        /\ (suspended s2 = [] ->
            tracks (Storage.getStorage Storage.moduleStates store') s2))
  /\ modules s1 = modules s /\ listening s1 = true.
Proof.
  intros Hkeys Hrel Hl Hsusp Htracks. cbn zeta.
  set (old := Storage.getStorage Storage.moduleStates store : gmap string bool) in *.
  set (new := PlainObject.assign i b old).
  assert (Hold : default ∅ (Storage.sync_get Storage.moduleStates store) = old).
  { subst old. unfold Storage.getStorage. by destruct (Storage.sync_get _ _). }
  assert (Hnew : Storage.getStorage Storage.moduleStates (Storage.setModuleEnabled i b store)
                 = new) by done.
  rewrite (deliver_change s
             (Events.mkChanges
                (Some (Events.mkChange (Storage.sync_get Storage.moduleStates store)
                         (Storage.sync_get Storage.moduleStates
                            (Storage.setModuleEnabled i b store))))
                None None)
             (Storage.sync_get Storage.moduleStates store) new Hl eq_refl).
  change (default ∅ (Storage.sync_get Storage.moduleStates store))
    with (Storage.getStorage Storage.moduleStates store).
  fold old. rewrite Hnew.
  destruct (change_settled old new s Hkeys Hrel Hsusp Htracks) as (S & C & M & L).
  cbn zeta in *. split; [done|]. split; [|split; [|by rewrite M, L]].
  - intros Hi. rewrite C. subst new. unfold PlainObject.assign.
    rewrite bool_decide_eq_false_2 by done. cbn [andb].
    by rewrite expectedCalls_one by (by destruct Hkeys).
  - intros schedule. destruct (fulfil_settling new schedule _ S) as (S' & C' & _).
    split; [done|]. by apply settling_tracks.
Qed.

End ManagerLifecycle.

Lemma wellBehaved_reliable (i : string) : ManagerInvariant.reliable (Samples.wellBehaved i).
Proof. intros pg. split; [by left|done]. Qed.

Lemma waiting_reliable (i : string) : ManagerInvariant.reliable (Samples.waiting i).
Proof. intros pg. split; [by right|done]. Qed.

Lemma register_first_wins_witness :
  let s0 := Manager.newManager tt in
  let s1 := (Manager.register Samples.cardFavourites s0).1 in
  let s2 := (Manager.register (Samples.stuck "card-favourites") s1).1 in
  ManagerInvariant.wellKeyed (Manager.modules s0)
  /\ Manager.modules s1 = [("card-favourites", Samples.cardFavourites)]
  /\ ManagerInvariant.wellKeyed (Manager.modules s1)
  /\ Manager.modules s2 = Manager.modules s1
  /\ Manager.console s2 = [Manager.warn_already_registered "card-favourites"].
Proof.
  intros s0 s1 s2.
  assert (K0 : ManagerInvariant.wellKeyed (Manager.modules s0))
    by (split; constructor).
  destruct (register_first_wins Samples.cardFavourites s0 K0) as (_ & K1 & _ & _ & F).
  destruct (register_first_wins (Samples.stuck "card-favourites") s1 K1)
    as (_ & _ & _ & _ & G).
  rewrite decide_False in F by (cbn; apply not_elem_of_nil).
  rewrite decide_True in G by (cbn; apply list_elem_of_here).
  destruct F as [M1 _]. destruct G as [M2 C2].
  exact (conj K0 (conj M1 (conj K1 (conj M2 C2)))).
Defined.

(** A manager with a unit whose [enable()] returns at once and one whose
    [enable()] waits for the storage. *)
Lemma twoUnits_tracks_empty :
  let s := Manager.mkState tt [("bazaar-total", Samples.wellBehaved "bazaar-total");
                               ("card-favourites", Samples.waiting "card-favourites")]
             ∅ [] [] [] true in
  ManagerInvariant.wellKeyed (Manager.modules s)
  /\ Forall (fun entry => ManagerInvariant.reliable entry.2) (Manager.modules s)
  /\ ManagerInvariant.tracks ∅ s.
Proof.
  intros s. split; [|split].
  - split; [apply (bool_decide_unpack _); reflexivity|]. by repeat constructor.
  - apply Forall_cons. split; [apply wellBehaved_reliable|].
    apply Forall_cons. split; [apply waiting_reliable|constructor].
  - intros i. split; [by intros ?%elem_of_empty|]. intros [Hreg H].
    unfold ManagerInvariant.registered in Hreg. cbn in Hreg.
    apply elem_of_cons in Hreg as [->|Hreg]; [discriminate H|].
    apply elem_of_cons in Hreg as [->|Hreg]; [discriminate H|].
    by apply elem_of_nil in Hreg.
Defined.

Lemma deliver_tracks_storage_witness :
  let s := Manager.mkState tt [("bazaar-total", Samples.wellBehaved "bazaar-total");
                               ("card-favourites", Samples.waiting "card-favourites")]
             ∅ [] [] [] true in
  let new : gmap string bool :=
    <["bazaar-total" := true]> (<["card-favourites" := true]> ∅) in
  let changes := Events.mkChanges (Some (Events.mkChange None (Some new))) None None in
  let s1 := (Manager.deliver Events.sync changes s).1 in
  let s2 := ManagerInvariant.fulfil [(0, tt)] s1 in
  ManagerInvariant.wellKeyed (Manager.modules s)
  /\ Forall (fun entry => ManagerInvariant.reliable entry.2) (Manager.modules s)
  /\ ManagerInvariant.tracks ∅ s
  /\ Manager.calls s1 = [Manager.call_enable "bazaar-total";
                         Manager.call_enable "card-favourites"]
  /\ ManagerInvariant.awaitedIds s1 = ["card-favourites"]
  /\ Manager.suspended s2 = []
  /\ ManagerInvariant.tracks new s2.
Proof.
  intros s new changes s1 s2.
  destruct twoUnits_tracks_empty as (K & R & T).
  destruct (deliver_tracks_storage s changes None new K R eq_refl eq_refl eq_refl T)
    as (C & _ & F & _).
  destruct (F [(0, tt)]) as (_ & T2 & _).
  exact (conj K (conj R (conj T (conj C (conj eq_refl (conj eq_refl (T2 eq_refl))))))).
Defined.

Lemma active_set_follows_store_witness :
  let s := Manager.mkState tt [("bazaar-total", Samples.wellBehaved "bazaar-total");
                               ("card-favourites", Samples.waiting "card-favourites")]
             ∅ [] [] [] true in
  let on : gmap string bool := <["card-favourites" := true]> ∅ in
  let off : gmap string bool := <["card-favourites" := false]> ∅ in
  let steps := [(on, [(0, tt)]); (off, []); (on, [(0, tt)])] in
  let s' := ManagerInvariant.deliverAll None steps s in
  ManagerInvariant.tracks ∅ s
  /\ ManagerInvariant.settledBetween None steps s
  /\ ManagerInvariant.tracks on s'
  /\ Manager.calls s' = [Manager.call_enable "card-favourites";
                         Manager.call_disable "card-favourites";
                         Manager.call_enable "card-favourites"].
Proof.
  intros s on off steps s'.
  destruct twoUnits_tracks_empty as (K & R & T).
  assert (Q : ManagerInvariant.settledBetween None steps s) by (by repeat split).
  destruct (active_set_follows_store steps s None K R eq_refl eq_refl T Q) as (T' & _).
  exact (conj T (conj Q (conj T' eq_refl))).
Defined.

Lemma pending_enable_misses_disable_witness :
  let s := Manager.mkState tt [("bazaar-total", Samples.wellBehaved "bazaar-total");
                               ("card-favourites", Samples.waiting "card-favourites")]
             ∅ [] [] [] true in
  let on : gmap string bool := <["card-favourites" := true]> ∅ in
  let off : gmap string bool := <["card-favourites" := false]> ∅ in
  let s1 := (Manager.deliver Events.sync (ManagerInvariant.changeTo (Some off) on) s).1 in
  let s2 := (Manager.deliver Events.sync (ManagerInvariant.changeTo (Some on) off) s1).1 in
  let s3 := (Manager.settlePending 0 tt Manager.Fulfilled s2).1 in
  ManagerInvariant.wellKeyed (Manager.modules s)
  /\ ("card-favourites" ∉ Manager.activeModules s)
  /\ "card-favourites" ∈ Manager.activeModules s3
  /\ Manager.calls s3 = [Manager.call_enable "card-favourites"]
  /\ ~ ManagerInvariant.tracks off s3.
Proof.
  intros s on off s1 s2 s3.
  destruct twoUnits_tracks_empty as (K & _ & _).
  assert (A : "card-favourites" ∉ Manager.activeModules s) by apply not_elem_of_empty.
  assert (I : ("card-favourites", Samples.waiting "card-favourites") ∈ Manager.modules s)
    by (apply list_elem_of_further, list_elem_of_here).
  assert (O : forall j : string, j ∈ map fst (Manager.modules s) -> j <> "card-favourites" ->
              PlainObject.truthyAt on j = PlainObject.truthyAt off j).
  { intros j Hj Hne. unfold PlainObject.truthyAt, PlainObject.get, on, off.
    by rewrite !lookup_insert_ne by done. }
  destruct (pending_enable_misses_disable s "card-favourites"
              (Samples.waiting "card-favourites") off on tt tt
              K eq_refl eq_refl I A eq_refl eq_refl eq_refl O)
    as (_ & _ & _ & A3 & _ & C3 & N3).
  exact (conj K (conj A (conj A3 (conj C3 N3)))).
Defined.

Lemma main_enables_stored_witness :
  let store := Storage.setModuleEnabled "card-favourites" true
                 (Storage.setModuleEnabled "bazaar-total" true Storage.emptyStore) in
  let s1 := (Manager.settle
               (ContentScript.main (Samples.wellBehaved "bazaar-total")
                  (Samples.waiting "card-favourites")
                  (Samples.waiting "quality-favourites") store
                  (Manager.newManager tt)).1).1 in
  let s2 := ManagerInvariant.fulfil [(0, tt)] s1 in
  Manager.calls s1 = [Manager.call_enable "bazaar-total";
                      Manager.call_enable "card-favourites"]
  /\ ManagerInvariant.awaitedIds s1 = ["card-favourites"]
  /\ Manager.listening s1 = true
  /\ Manager.suspended s2 = []
  /\ ("card-favourites" ∈ Manager.activeModules s2 <->
      "card-favourites" ∈ map Constants.id Constants.MODULE_REGISTRY
      /\ PlainObject.truthyAt (Storage.getStorage Storage.moduleStates store)
           "card-favourites" = true).
Proof.
  intros store s1 s2.
  destruct (main_enables_stored (Samples.wellBehaved "bazaar-total")
              (Samples.waiting "card-favourites")
              (Samples.waiting "quality-favourites") tt store
              eq_refl eq_refl eq_refl
              (wellBehaved_reliable _) (waiting_reliable _) (waiting_reliable _))
    as (C & _ & L & _ & F).
  destruct (F [(0, tt)]) as (_ & _ & A).
  exact (conj C (conj eq_refl (conj L (conj eq_refl (A eq_refl "card-favourites"))))).
Defined.



Lemma setModuleEnabled_reaches_manager_witness :
  let s := Manager.mkState tt [("bazaar-total", Samples.wellBehaved "bazaar-total");
                               ("card-favourites", Samples.waiting "card-favourites")]
             ∅ [] [] [] true in
  let store := Storage.emptyStore in
  let store' := Storage.setModuleEnabled "card-favourites" true store in
  let changes :=
    Events.mkChanges
      (Some (Events.mkChange (Storage.sync_get Storage.moduleStates store)
                             (Storage.sync_get Storage.moduleStates store')))
      None None in
  let s1 := (Manager.deliver Events.sync changes s).1 in
  let s2 := ManagerInvariant.fulfil [(0, tt)] s1 in
  ManagerInvariant.tracks (Storage.getStorage Storage.moduleStates store) s
  /\ "card-favourites" <> "__proto__"
  /\ Manager.calls s1 = [Manager.call_enable "card-favourites"]
  /\ Manager.suspended s2 = []
  /\ ManagerInvariant.tracks (Storage.getStorage Storage.moduleStates store') s2.
Proof.
  intros s store store' changes s1 s2.
  destruct twoUnits_tracks_empty as (K & R & T).
  assert (P : "card-favourites" <> "__proto__") by discriminate.
  destruct (setModuleEnabled_reaches_manager s store "card-favourites" true
              K R eq_refl eq_refl T) as (_ & C & F & _).
  specialize (C P). rewrite decide_True in C.
  - destruct (F [(0, tt)]) as (_ & T2).
    exact (conj T (conj P (conj C (conj eq_refl (T2 eq_refl))))).
  - split; [cbn; apply list_elem_of_further, list_elem_of_here|discriminate].
Defined.

(** ** The pinned list: toggling, position after a drop, restart *)

Section PinnedListOperations.
Import QualityFavourites.
Implicit Types (st : State) (l : list string).

Lemma indexOf_split x l n :
  indexOf x l = Some n ->
  exists l1 l2, l = l1 ++ x :: l2 /\ (x ∉ l1) /\ length l1 = n.
Proof.
  revert n. induction l as [|y l IH]; intros n; [done|]. cbn [indexOf].
  case_bool_decide as Hy.
  - intros [= <-]. subst y. exists [], l. split; [done|]. split; [|done].
    apply not_elem_of_nil.
  - destruct (indexOf x l) as [m|]; [|done]. cbn. intros [= <-].
    destruct (IH m eq_refl) as (l1 & l2 & -> & Hnin & Hlen).
    exists (y :: l1), l2. split; [done|]. split; [|by cbn; rewrite Hlen].
    apply not_elem_of_cons. split; [by intros ->|done].
Qed.

Lemma splice_insert_at l1 l2 x :
  splice_insert (length l1) x (l1 ++ l2) = l1 ++ x :: l2.
Proof.
  unfold splice_insert. by rewrite take_app_length, drop_app_length.
Qed.

(** X14.  [toggleFavourite] flips whether the id is pinned and leaves every
    other id pinned or not as it was; a newly pinned id goes to the end, and
    unpinning removes every occurrence. The list is written to the store:
    afterwards the persisted list is the list the unit holds. *)
Theorem toggleFavourite_flips (qualityId : string) st :
  let st' := toggleFavourite qualityId st in
  isFavourite qualityId st' = negb (isFavourite qualityId st)
  /\ (forall other, other <> qualityId ->
        isFavourite other st' = isFavourite other st)
  /\ favouriteIds st'
       = (if isFavourite qualityId st
          then filter (fun i => i <> qualityId) (favouriteIds st)
          else favouriteIds st ++ [qualityId])
  /\ persisted st' = Some (favouriteIds st')
  /\ draggedId st' = draggedId st.
Proof.
  cbn zeta. unfold toggleFavourite, isFavourite. cbn [favouriteIds persisted store draggedId].
  destruct (decide (qualityId ∈ favouriteIds st)) as [Hin|Hin].
  - rewrite !(bool_decide_eq_true_2 (qualityId ∈ favouriteIds st)) by done. cbn [negb].
    split; [|split; [|done]].
    + apply bool_decide_eq_false_2. rewrite list_elem_of_filter. by intros [? _].
    + intros other Hne. apply bool_decide_ext. rewrite list_elem_of_filter.
      split; [by intros [_ ?]|done].
  - rewrite !(bool_decide_eq_false_2 (qualityId ∈ favouriteIds st)) by done. cbn [negb].
    split; [|split; [|done]].
    + apply bool_decide_eq_true_2. rewrite elem_of_app, list_elem_of_singleton. by right.
    + intros other Hne. apply bool_decide_ext.
      rewrite elem_of_app, list_elem_of_singleton. split; [by intros [?|?]|by left].
Qed.

(** X15.  Toggling, reordering and dropping keep a pinned list free of
    duplicates: a list with a duplicate can only come from the store. *)
Theorem pinned_list_stays_duplicate_free st :
  NoDup (favouriteIds st) ->
  (forall qualityId, NoDup (favouriteIds (toggleFavourite qualityId st)))
  /\ (forall movedId targetId insertBefore,
        NoDup (favouriteIds (reorderFavourite movedId targetId insertBefore st)))
  /\ (forall qualityId insertBefore, NoDup (favouriteIds (drop qualityId insertBefore st))).
Proof.
  intros Hnd.
  assert (R : forall movedId targetId insertBefore,
            NoDup (favouriteIds (reorderFavourite movedId targetId insertBefore st))).
  { intros movedId targetId insertBefore. unfold reorderFavourite.
    destruct (indexOf _ _) as [n|]; [|done]. cbn [favouriteIds].
    rewrite splice_insert_Permutation. apply NoDup_cons. split.
    - rewrite list_elem_of_filter. by intros [? _].
    - by apply NoDup_filter. }
  split; [|split; [exact R|]].
  - intros qualityId. unfold toggleFavourite, isFavourite. cbn [favouriteIds].
    case_bool_decide as Hin; [by apply NoDup_filter|].
    apply NoDup_app. split; [done|]. split; [|apply NoDup_singleton].
    intros i Hi ->%list_elem_of_singleton. done.
  - intros qualityId insertBefore. unfold drop.
    destruct (draggedId st) as [dragged|]; [|done].
    destruct (_ || _); [done|]. apply R.
Qed.

(** X16.  Where a drop puts the dragged id. When the target is pinned and is
    not the dragged id, the list without the dragged id is cut at the first
    occurrence of the target, and the dragged id is put right before the
    target or right after it; the other ids keep their order. This is also
    what happens when the dragged id was not pinned: it becomes pinned. *)
Theorem reorderFavourite_places_next_to_target st (movedId targetId : string)
    (insertBefore : bool) :
  targetId ∈ favouriteIds st -> targetId <> movedId ->
  exists l1 l2,
    filter (fun i => i <> movedId) (favouriteIds st) = l1 ++ targetId :: l2
    /\ (targetId ∉ l1)
    /\ favouriteIds (reorderFavourite movedId targetId insertBefore st)
         = (if insertBefore then l1 ++ movedId :: targetId :: l2
            else l1 ++ targetId :: movedId :: l2)
    /\ persisted (reorderFavourite movedId targetId insertBefore st)
         = Some (favouriteIds (reorderFavourite movedId targetId insertBefore st)).
Proof.
  intros Hin Hne.
  assert (Hin' : targetId ∈ filter (fun i => i <> movedId) (favouriteIds st))
    by (by apply list_elem_of_filter).
  destruct (indexOf_elem_of _ _ Hin') as [n Hn].
  destruct (indexOf_split _ _ _ Hn) as (l1 & l2 & Hl & Hnin & Hlen).
  exists l1, l2. split; [done|]. split; [done|].
  unfold reorderFavourite. rewrite Hn. cbn [favouriteIds persisted store].
  split; [|done]. rewrite Hl, <- Hlen. destruct insertBefore.
  - apply splice_insert_at.
  - replace (length l1 + 1) with (length (l1 ++ [targetId]))
      by (rewrite length_app; reflexivity).
    rewrite (cons_middle targetId l1 l2), app_assoc, splice_insert_at.
    by rewrite <- app_assoc.
Qed.

(** X17.  After a change of the list, turning the unit off and on again
    restores the unit's state from the store: [disable()] forgets the list
    and [enable()] reads back the one that the last change persisted. *)
Theorem pinned_list_survives_restart st :
  (forall qualityId,
     enable (disable (toggleFavourite qualityId st)) = toggleFavourite qualityId st)
  /\ (forall movedId targetId insertBefore,
        targetId ∈ favouriteIds st -> targetId <> movedId ->
        enable (disable (reorderFavourite movedId targetId insertBefore st))
          = reorderFavourite movedId targetId insertBefore st)
  /\ (persisted st = None -> favouriteIds (enable (disable st)) = []).
Proof.
  split; [done|]. split.
  - intros movedId targetId insertBefore Hin Hne.
    assert (Hin' : targetId ∈ filter (fun i => i <> movedId) (favouriteIds st))
      by (by apply list_elem_of_filter).
    destruct (indexOf_elem_of _ _ Hin') as [n Hn].
    unfold reorderFavourite. by rewrite Hn.
  - unfold persisted, enable, disable, Storage.getStorage. cbn. by intros ->.
Qed.

End PinnedListOperations.

(** ** The card preference map: writes and restart *)

Section CardPreferenceWrites.
Import Storage CardFavourites.

(** X18.  [setCardPref] on a card with an id writes the whole map the unit
    holds to the store: afterwards the persisted map is that map, whatever
    the store held before, and the other two keys are not written.  For an
    id other than "__proto__" it sets (or, for [null], removes) the
    preference of that card; for the id "__proto__", when the map has no
    own entry of that name, the assignment goes to the prototype setter and
    the map is left as it was.  In both cases no other card is touched.  A
    container without id, or with the empty id, changes nothing. *)
Theorem setCardPref_persists container (pref : option CardPref) st :
  let st' := setCardPref container pref st in
  (forall cardId, truthy (getCardId container) = Some cardId ->
     (cardId <> "__proto__" -> cardPrefs st' !! cardId = pref)
     /\ (cardId = "__proto__" -> cardPrefs st !! cardId = None ->
         cardPrefs st' = cardPrefs st)
     /\ (forall other, other <> cardId -> cardPrefs st' !! other = cardPrefs st !! other)
     /\ sync_get cardPreferences (store st') = Some (cardPrefs st')
     /\ sync_get moduleStates (store st') = sync_get moduleStates (store st)
     /\ sync_get favouriteQualities (store st') = sync_get favouriteQualities (store st))
  /\ (truthy (getCardId container) = None -> st' = st).
Proof.
  cbn zeta. unfold setCardPref. split.
  - intros cardId ->. cbn [cardPrefs store].
    split; [|split; [|split; [|done]]].
    + intros Hne. destruct pref as [p|]; [|apply lookup_delete_eq].
      rewrite assign_insert by done. apply lookup_insert_eq.
    + intros -> Hnone. destruct pref as [p|]; [|by apply delete_id].
      unfold PlainObject.assign. by rewrite Hnone.
    + intros other Hne. destruct pref as [p|]; [|by apply lookup_delete_ne].
      unfold PlainObject.assign. destruct (_ && _); [done|by apply lookup_insert_ne].
  - by intros ->.
Qed.

(** X19.  After a click on a card with an id, turning the unit off and on
    again gives back the map the unit held: [disable()] empties it,
    [enable()] reads the persisted one. *)
Theorem card_preferences_survive_restart container (pref : CardPref) (cardId : string) st :
  truthy (getCardId container) = Some cardId ->
  enable (disable (toggleCardPref container pref st)) = toggleCardPref container pref st
  /\ forall p, enable (disable (setCardPref container p st)) = setCardPref container p st.
Proof.
  intros H. unfold toggleCardPref, setCardPref. rewrite H. done.
Qed.

End CardPreferenceWrites.

Lemma toggleFavourite_flips_witness :
  let st := QualityFavourites.mkState ["a"; "b"] None Storage.emptyStore in
  let st' := QualityFavourites.toggleFavourite "a" st in
  "b" <> "a"
  /\ QualityFavourites.isFavourite "a" st' = false
  /\ QualityFavourites.isFavourite "b" st' = true
  /\ QualityFavourites.persisted st' = Some ["b"].
Proof.
  intros st st'.
  assert (H : "b" <> "a") by discriminate.
  destruct (toggleFavourite_flips "a" st) as (F & O & _ & P & _).
  exact (conj H (conj F (conj (O _ H) P))).
Defined.

Lemma pinned_list_stays_duplicate_free_witness :
  let st := QualityFavourites.mkState ["a"; "b"; "c"] (Some "c") Storage.emptyStore in
  NoDup (QualityFavourites.favouriteIds st)
  /\ NoDup (QualityFavourites.favouriteIds (QualityFavourites.drop "a" true st)).
Proof.
  intros st.
  assert (H : NoDup (QualityFavourites.favouriteIds st))
    by (apply (bool_decide_unpack _); reflexivity).
  destruct (pinned_list_stays_duplicate_free st H) as (_ & _ & D).
  exact (conj H (D "a" true)).
Defined.

Lemma reorderFavourite_places_next_to_target_witness :
  let st := QualityFavourites.mkState ["a"; "b"; "c"] (Some "c") Storage.emptyStore in
  ("a" ∈ QualityFavourites.favouriteIds st) /\ "a" <> "c"
  /\ exists l1 l2,
       filter (fun i => i <> "c") (QualityFavourites.favouriteIds st) = l1 ++ "a" :: l2
       /\ QualityFavourites.favouriteIds (QualityFavourites.reorderFavourite "c" "a" false st)
            = l1 ++ "a" :: "c" :: l2.
Proof.
  intros st.
  assert (H1 : "a" ∈ QualityFavourites.favouriteIds st) by apply list_elem_of_here.
  assert (H2 : "a" <> "c") by discriminate.
  destruct (reorderFavourite_places_next_to_target st "c" "a" false H1 H2)
    as (l1 & l2 & F & _ & R & _).
  exact (conj H1 (conj H2 (ex_intro _ l1 (ex_intro _ l2 (conj F R))))).
Defined.

Lemma pinned_list_survives_restart_witness :
  let st := QualityFavourites.mkState ["a"; "b"] None Storage.emptyStore in
  let st' := QualityFavourites.reorderFavourite "b" "a" true st in
  ("a" ∈ QualityFavourites.favouriteIds st) /\ "a" <> "b"
  /\ QualityFavourites.enable (QualityFavourites.disable st') = st'
  /\ QualityFavourites.favouriteIds st' = ["b"; "a"].
Proof.
  intros st st'.
  assert (H1 : "a" ∈ QualityFavourites.favouriteIds st) by apply list_elem_of_here.
  assert (H2 : "a" <> "b") by discriminate.
  destruct (pinned_list_survives_restart st) as (_ & R & _).
  exact (conj H1 (conj H2 (conj (R "b" "a" true H1 H2) eq_refl))).
Defined.

Lemma setCardPref_persists_witness :
  let container := CardFavourites.mkContainer (Some "event-7") in
  let st := CardFavourites.mkState (<["event-3" := Storage.avoid]> ∅) Storage.emptyStore in
  let st' := CardFavourites.setCardPref container (Some Storage.favourite) st in
  CardFavourites.truthy (CardFavourites.getCardId container) = Some "event-7"
  /\ "event-7" <> "__proto__"
  /\ "event-3" <> "event-7"
  /\ CardFavourites.cardPrefs st' !! "event-7" = Some Storage.favourite
  /\ CardFavourites.cardPrefs st' !! "event-3" = Some Storage.avoid
  /\ Storage.sync_get Storage.cardPreferences (CardFavourites.store st')
       = Some (CardFavourites.cardPrefs st').
Proof.
  intros container st st'.
  assert (H1 : CardFavourites.truthy (CardFavourites.getCardId container) = Some "event-7")
    by reflexivity.
  assert (H2 : "event-3" <> "event-7") by discriminate.
  assert (H3 : "event-7" <> "__proto__") by discriminate.
  destruct (setCardPref_persists container (Some Storage.favourite) st) as [S _].
  destruct (S "event-7" H1) as (A & _ & O & P & _).
  exact (conj H1 (conj H3 (conj H2 (conj (A H3) (conj (O _ H2) P))))).
Defined.

Lemma card_preferences_survive_restart_witness :
  let container := CardFavourites.mkContainer (Some "event-7") in
  let st := CardFavourites.mkState ∅ Storage.emptyStore in
  let st' := CardFavourites.toggleCardPref container Storage.avoid st in
  CardFavourites.truthy (CardFavourites.getCardId container) = Some "event-7"
  /\ CardFavourites.enable (CardFavourites.disable st') = st'.
Proof.
  intros container st st'.
  assert (H : CardFavourites.truthy (CardFavourites.getCardId container) = Some "event-7")
    by reflexivity.
  destruct (card_preferences_survive_restart container Storage.avoid "event-7" st H)
    as [R _].
  exact (conj H R).
Defined.

(** ** Quantities and prices as text *)

Section QuantityText.
Import JS BazaarTotal Rendering.
Implicit Types (s ws ds : jsstring) (c : N).
Open Scope Z_scope.

Lemma removeCommas_app s1 s2 : removeCommas (s1 ++ s2) = removeCommas s1 ++ removeCommas s2.
Proof. apply filter_app. Qed.

Lemma thousandsFrom_removeCommas (prev : option N) s :
  removeCommas (thousandsFrom prev s) = removeCommas s.
Proof.
  revert prev. induction s as [|c s IH]; intros prev; [done|].
  cbn [thousandsFrom]. rewrite removeCommas_app.
  change (c :: thousandsFrom (Some c) s) with ([c] ++ thousandsFrom (Some c) s).
  change (c :: s) with ([c] ++ s). rewrite !removeCommas_app, IH.
  by destruct (match prev with Some p => _ | None => _ end).
Qed.

(** X20.  The replacement that writes the thousands separators only inserts
    commas: removing the commas from its result gives what removing them
    from its argument gives, for every string. *)
Theorem thousands_only_inserts_commas s :
  removeCommas (thousands s) = removeCommas s.
Proof. apply thousandsFrom_removeCommas. Qed.

Lemma removeCommas_id s :
  Forall (fun c => c <> 44%N) s -> removeCommas s = s.
Proof.
  induction 1 as [|c s Hc _ IH]; [done|]. unfold removeCommas, jsstring in *.
  rewrite filter_cons, decide_True by done. by rewrite IH.
Qed.

Lemma digit_not_comma c : isDigit c = true -> c <> 44%N.
Proof. intros H ->. done. Qed.

Lemma space_not_comma c : isStrWhiteSpaceChar c = true -> c <> 44%N.
Proof. intros H ->. done. Qed.

Lemma digit_not_space c : isDigit c = true -> isStrWhiteSpaceChar c = false.
Proof.
  unfold isDigit. intros [H1 H2]%andb_prop.
  apply N.leb_le in H1. apply N.leb_le in H2.
  unfold isStrWhiteSpaceChar.
  assert (D : (c = 48 \/ c = 49 \/ c = 50 \/ c = 51 \/ c = 52 \/ c = 53 \/ c = 54
               \/ c = 55 \/ c = 56 \/ c = 57)%N) by lia.
  repeat (destruct D as [->|D]; [reflexivity|]). by subst.
Qed.

Lemma trimStart_spaces ws s :
  Forall (fun c => isStrWhiteSpaceChar c = true) ws -> trimStart (ws ++ s) = trimStart s.
Proof. induction 1 as [|c ws Hc _ IH]; [done|]. cbn [app trimStart]. by rewrite Hc. Qed.

Lemma trimStart_digits ds s :
  Forall (fun c => isDigit c = true) ds -> ds <> [] -> trimStart (ds ++ s) = ds ++ s.
Proof.
  intros Hall Hne. destruct Hall as [|c ds Hc _]; [done|].
  cbn [app trimStart]. by rewrite digit_not_space.
Qed.

Lemma trim_padded ws ds ws' :
  Forall (fun c => isStrWhiteSpaceChar c = true) ws ->
  Forall (fun c => isStrWhiteSpaceChar c = true) ws' ->
  Forall (fun c => isDigit c = true) ds -> ds <> [] ->
  trim (ws ++ ds ++ ws') = ds.
Proof.
  intros Hws Hws' Hds Hne. unfold trim, trimEnd.
  rewrite trimStart_spaces, trimStart_digits by done.
  rewrite rev_app_distr, trimStart_spaces by (by apply Forall_rev).
  rewrite <- (app_nil_r (rev ds)), trimStart_digits, app_nil_r;
    [apply rev_involutive|by apply Forall_rev|].
  intros H. apply Hne. apply (f_equal (@rev N)) in H. by rewrite rev_involutive in H.
Qed.

Lemma digitsValue_snoc ds c :
  digitsValue (ds ++ [c]) = 10 * digitsValue ds + (Z.of_N c - 48).
Proof. unfold digitsValue. by rewrite fold_left_app. Qed.

Lemma digitChar_value (n : Z) : 0 <= n -> Z.of_N (digitChar n) - 48 = n mod 10.
Proof.
  intros H. unfold digitChar. pose proof (Z.mod_pos_bound n 10 ltac:(lia)). lia.
Qed.

(** The digits that [decimal] writes denote the number. *)
Lemma digitsValue_decimal (n : Z) : 0 <= n -> digitsValue (decimal n) = n.
Proof.
  intros Hn. generalize Hn. pattern n. apply Z_lt_induction; [|exact Hn].
  clear n Hn. intros n IH Hn.
  destruct (Z.lt_ge_cases n 10) as [Hlt|Hge].
  - rewrite decimal_small by lia. cbn [digitsValue fold_left].
    rewrite digitChar_value by done. rewrite Z.mod_small by lia. lia.
  - rewrite decimal_step by done. rewrite digitsValue_snoc, digitChar_value by done.
    rewrite IH.
    + pose proof (Z.div_mod n 10 ltac:(lia)). lia.
    + split; [apply Z.div_pos; lia|]. apply Z.div_lt; lia.
    + apply Z.div_pos; lia.
Qed.

Lemma decimal_not_nil (n : Z) : 0 <= n -> decimal n <> [].
Proof.
  intros Hn H. pose proof (decimal_nonempty n Hn) as L. rewrite H in L. cbn in L. lia.
Qed.

Lemma spanSign_digit c s : isDigit c = true -> spanSign (c :: s) = (false, c :: s).
Proof.
  intros H. unfold spanSign. destruct c as [|p]; [done|].
  repeat (destruct p as [p|p|]; try done).
Qed.

(** [parseInt] of a string of digits. *)
Lemma parseInt10_digits (n : Z) : 0 <= n -> parseInt10 (decimal n) = of_Z n.
Proof.
  intros Hn. unfold parseInt10.
  pose proof (decimal_all_digits n Hn) as Hall.
  pose proof (decimal_not_nil n Hn) as Hne.
  rewrite <- (app_nil_r (decimal n)) at 1.
  rewrite trimStart_digits, app_nil_r by done.
  destruct (decimal n) as [|c ds] eqn:E; [done|].
  rewrite spanSign_digit by (by inversion Hall).
  rewrite spanDigits_all by done. rewrite <- E, digitsValue_decimal by done.
  destruct (Z.eqb_spec n 0) as [->|Hz]; done.
Qed.

Lemma of_Z_not_NaN (n : Z) : 0 <= n < 2 ^ 53 -> isNaN (of_Z n) = false.
Proof.
  intros H. destruct n as [|p|p]; [done| |lia]. by rewrite of_Z_pos by lia.
Qed.

Lemma parseQuantity_padded (n : Z) text ws ws' :
  0 <= n < 2 ^ 53 ->
  Forall (fun c => isStrWhiteSpaceChar c = true) ws ->
  Forall (fun c => isStrWhiteSpaceChar c = true) ws' ->
  removeCommas text = ws ++ decimal n ++ ws' ->
  parseQuantity text = of_Z n.
Proof.
  intros [Hn Hlt] Hws Hws' Htext. unfold parseQuantity. rewrite Htext.
  rewrite trim_padded by (done || by apply decimal_all_digits || by apply decimal_not_nil).
  rewrite parseInt10_digits by done. by rewrite of_Z_not_NaN.
Qed.

Lemma removeCommas_thousands_decimal (n : Z) :
  0 <= n -> removeCommas (thousands (decimal n)) = decimal n.
Proof.
  intros Hn. unfold thousands. rewrite thousandsFrom_removeCommas. apply removeCommas_id.
  eapply Forall_impl; [by apply decimal_all_digits|]. intros c. apply digit_not_comma.
Qed.

(** X21.  [parseQuantity] reads a natural number below [2 ^ 53] back from
    its decimal digits with thousands separators, whatever white space is
    around it. *)
Theorem parseQuantity_reads_thousands (n : Z) ws ws' :
  0 <= n < 2 ^ 53 ->
  Forall (fun c => isStrWhiteSpaceChar c = true) ws ->
  Forall (fun c => isStrWhiteSpaceChar c = true) ws' ->
  parseQuantity (ws ++ thousands (decimal n) ++ ws') = of_Z n.
Proof.
  intros Hn Hws Hws'. apply (parseQuantity_padded n _ ws ws'); try done.
  rewrite !removeCommas_app, removeCommas_thousands_decimal by lia.
  rewrite (removeCommas_id ws), (removeCommas_id ws'); [done| |].
  - eapply Forall_impl; [exact Hws'|]. intros c. apply space_not_comma.
  - eapply Forall_impl; [exact Hws|]. intros c. apply space_not_comma.
Qed.

(** [parseFloat] of a string of digits. *)
Lemma parseFloat_digits (n : Z) : 0 <= n < 2 ^ 53 -> parseFloat (decimal n) = of_Z n.
Proof.
  intros [Hn Hlt]. unfold parseFloat.
  pose proof (decimal_all_digits n Hn) as Hall.
  pose proof (decimal_not_nil n Hn) as Hne.
  assert (T : trimStart (decimal n) = decimal n).
  { rewrite <- (app_nil_r (decimal n)). by apply trimStart_digits. }
  rewrite T.
  destruct (decimal n) as [|c ds] eqn:E; [done|].
  rewrite spanSign_digit by (by inversion Hall).
  assert (Hinf : startsWith (js "Infinity") (c :: ds) = false).
  { unfold startsWith. apply bool_decide_eq_false_2. intros H.
    assert (Hc : c = 73%N).
    { change (js "Infinity") with (73%N :: js "nfinity") in H.
      cbn [length take] in H. by injection H. }
    inversion Hall as [|? ? Hd _]; subst. done. }
  rewrite Hinf, spanDigits_all by done. rewrite app_nil_r.
  cbn [spanExponent length]. rewrite <- E, digitsValue_decimal by done.
  destruct n as [|p|p]; [done| |lia].
  change (0 - Z.of_nat 0) with 0. unfold of_decimal.
  change (Z.to_pos (10 ^ 0)) with 1%positive. by rewrite Pos.mul_1_r.
Qed.

Lemma parsePrice_digits (n : Z) : 0 <= n < 2 ^ 53 -> parsePrice (decimal n) = of_Z n.
Proof.
  intros [Hn Hlt]. unfold parsePrice.
  assert (T : trim (decimal n) = decimal n).
  { rewrite <- (app_nil_r (decimal n)) at 1.
    apply (trim_padded [] (decimal n) []); try done.
    - by apply decimal_all_digits.
    - by apply decimal_not_nil. }
  rewrite T, parseFloat_digits by done. by rewrite of_Z_not_NaN.
Qed.

End QuantityText.

(** ** Scrip prices *)

Section ScripPrices.
Import JS BazaarTotal BazaarPage.
Implicit Types (s pre post ws ds lit : jsstring) (c x : N).
Open Scope Z_scope.

Lemma trimStart_Forall (P : N -> Prop) s : Forall P s -> Forall P (trimStart s).
Proof.
  induction 1 as [|c s Hc Hs IH]; [done|]. cbn [trimStart].
  destruct (isStrWhiteSpaceChar c); [done|by constructor].
Qed.

Lemma spanDigits_rest_Forall (P : N -> Prop) s : Forall P s -> Forall P (spanDigits s).2.
Proof.
  induction 1 as [|c s Hc Hs IH]; [done|]. cbn [spanDigits].
  destruct (isDigit c); [|by constructor]. by destruct (spanDigits s).
Qed.

Lemma canonicalize_cases c (u : N) :
  canonicalize c = u -> (u < 97 \/ 122 < u)%N -> c = u \/ c = (u + 32)%N.
Proof.
  unfold canonicalize. destruct (_ && _) eqn:E; [|by left].
  apply andb_prop in E as [E1 E2]. apply N.leb_le in E1. apply N.leb_le in E2.
  intros <- _. right. lia.
Qed.

Lemma star_greedy {A} (cls : N -> bool) s (k : jsstring -> option A) :
  (forall c rest, cls c = true -> k (c :: rest) = None) ->
  (forall c, cls c = true -> isStrWhiteSpaceChar c = true) ->
  (forall c, isStrWhiteSpaceChar c = true -> cls c = true) ->
  star cls s k = k (trimStart s).
Proof.
  intros Hk H1 H2. induction s as [|c s IH]; [done|]. cbn [star trimStart].
  destruct (cls c) eqn:Hc.
  - rewrite (H1 c Hc), IH. destruct (k (trimStart s)) eqn:E; [done|].
    by apply Hk.
  - destruct (isStrWhiteSpaceChar c) eqn:Hs; [|done].
    by rewrite (H2 c Hs) in Hc.
Qed.

Lemma starCapture_greedy {A} captured s (k : jsstring -> jsstring -> option A) :
  (forall digits c rest, isDigit c = true -> k digits (c :: rest) = None) ->
  starCapture isDigit captured s k
    = k (captured ++ (spanDigits s).1) (spanDigits s).2.
Proof.
  intros Hk. revert captured. induction s as [|c s IH]; intros captured.
  { cbn. by rewrite app_nil_r. }
  cbn [starCapture spanDigits]. destruct (isDigit c) eqn:Hc.
  - rewrite IH. destruct (spanDigits s) as [ds rest]. cbn [fst snd].
    rewrite <- app_assoc. cbn [app].
    destruct (k (captured ++ c :: ds) rest) eqn:E; [done|]. by apply Hk.
  - cbn. by rewrite app_nil_r.
Qed.

Lemma space_not_letter c (u : N) :
  isStrWhiteSpaceChar c = true -> u = 88%N \/ u = 72%N -> canonicalize c <> u.
Proof.
  intros Hs Hu Hc.
  assert (Hcases : c = u \/ c = (u + 32)%N)
    by (apply canonicalize_cases; [done|destruct Hu as [->| ->]; lia]).
  destruct Hu as [->| ->], Hcases as [->| ->]; done.
Qed.

Lemma digit_canonical c : isDigit c = true -> canonicalize c = c.
Proof.
  unfold isDigit, canonicalize. intros [H1 H2]%andb_prop.
  apply N.leb_le in H1. apply N.leb_le in H2.
  rewrite (proj2 (N.leb_gt 97 c)) by lia. done.
Qed.

(** The backtracking match at a position is the greedy reading: the longest
    run of digits, then [matchTail]. *)
Lemma matchAt_greedy s :
  matchAt s = match spanDigits s with
              | (c :: ds, rest) => if matchTail rest then Some (c :: ds) else None
              | ([], _) => None
              end.
Proof.
  unfold matchAt, plusCapture. destruct s as [|c s]; [done|].
  cbn [spanDigits]. destruct (isDigit c) eqn:Hc; [|done].
  rewrite starCapture_greedy.
  - destruct (spanDigits s) as [ds rest]. cbn [fst snd app].
    rewrite star_greedy; try done.
    + unfold matchTail. destruct (matchLiteral (js "x") (trimStart rest)) as [s3|]; [|done].
      rewrite star_greedy; try done.
      * destruct (matchLiteral (js "Hinterland Scrip") (trimStart s3)) as [s5|].
        -- by rewrite bool_decide_eq_true_2.
        -- rewrite bool_decide_eq_false_2; [done|]. by intros [? ?].
      * intros w rest' Hw. change (js "Hinterland Scrip") with (72%N :: js "interland Scrip").
        cbn [matchLiteral]. change (canonicalize 72) with 72%N.
        rewrite (proj2 (N.eqb_neq 72 (canonicalize w))); [done|].
        intros H. by apply (space_not_letter w 72 Hw); [right|].
    + intros w rest' Hw. change (js "x") with [120%N].
      cbn [matchLiteral]. change (canonicalize 120) with 88%N.
      rewrite (proj2 (N.eqb_neq 88 (canonicalize w))); [done|].
      intros H. by apply (space_not_letter w 88 Hw); [left|].
  - intros digits d rest Hd. cbn [star]. rewrite (digit_not_space d Hd).
    change (js "x") with [120%N]. cbn [matchLiteral]. change (canonicalize 120) with 88%N.
    rewrite (digit_canonical d Hd).
    rewrite (proj2 (N.eqb_neq 88 d)); [done|]. intros <-. done.
Qed.

Lemma matchScrip_cons c s :
  matchScrip (c :: s)
    = match spanDigits (c :: s) with
      | (d :: ds, rest) => if matchTail rest then Some (d :: ds) else matchScrip s
      | ([], _) => matchScrip s
      end.
Proof.
  cbn [matchScrip]. rewrite matchAt_greedy.
  destruct (spanDigits (c :: s)) as [[|d ds] rest]; [done|].
  by destruct (matchTail rest).
Qed.

Lemma matchScrip_no_digit s :
  Forall (fun c => isDigit c = false) s -> matchScrip s = None.
Proof.
  induction 1 as [|c s Hc _ IH]; [done|]. rewrite matchScrip_cons.
  cbn [spanDigits]. by rewrite Hc.
Qed.

Lemma matchTail_no_x s :
  Forall (fun c => canonicalize c <> 88%N) s -> matchTail s = false.
Proof.
  intros H. apply (trimStart_Forall _) in H. unfold matchTail.
  destruct (trimStart s) as [|c t]; [done|]. inversion H as [|? ? Hc _]; subst.
  cbn [js map list_ascii_of_string matchLiteral].
  change (canonicalize (N_of_ascii "x")) with 88%N.
  by rewrite (proj2 (N.eqb_neq _ _)) by (by intros ?).
Qed.

Lemma matchScrip_no_x s :
  Forall (fun c => canonicalize c <> 88%N) s -> matchScrip s = None.
Proof.
  induction 1 as [|c s Hc Hs IH]; [done|]. rewrite matchScrip_cons.
  assert (Hall : Forall (fun c => canonicalize c <> 88%N) (c :: s)) by (by constructor).
  pose proof (spanDigits_rest_Forall _ (c :: s) Hall) as Hrest.
  destruct (spanDigits (c :: s)) as [[|d ds] rest]; [done|].
  cbn [snd] in Hrest. by rewrite matchTail_no_x.
Qed.

(** X22.  [parseScripPrice] returns 0 for a text without a digit and for a
    text without the letter x, in either case. *)
Theorem parseScripPrice_without_price text :
  Forall (fun c => isDigit c = false) text
  \/ Forall (fun c => c <> 120%N /\ c <> 88%N) text ->
  parseScripPrice text = zero.
Proof.
  intros [H|H]; unfold parseScripPrice.
  - by rewrite matchScrip_no_digit.
  - rewrite matchScrip_no_x; [done|].
    eapply Forall_impl; [exact H|]. intros c [H1 H2]. unfold canonicalize.
    destruct (_ && _) eqn:E; [|done].
    apply andb_prop in E as [E1 E2]. apply N.leb_le in E1. apply N.leb_le in E2. lia.
Qed.

Lemma matchScrip_skip pre s :
  Forall (fun c => isDigit c = false) pre -> matchScrip (pre ++ s) = matchScrip s.
Proof.
  induction 1 as [|c pre Hc _ IH]; [done|].
  cbn [app]. rewrite matchScrip_cons. cbn [spanDigits]. by rewrite Hc.
Qed.

Lemma spanDigits_app ds s :
  Forall (fun c => isDigit c = true) ds ->
  spanDigits (ds ++ s) = (ds ++ (spanDigits s).1, (spanDigits s).2).
Proof.
  induction 1 as [|c ds Hc _ IH]; [cbn [app]; by destruct (spanDigits s)|].
  cbn [app spanDigits]. by rewrite Hc, IH.
Qed.

Lemma matchLiteral_app p lit post :
  map canonicalize lit = map canonicalize p -> matchLiteral p (lit ++ post) = Some post.
Proof.
  revert lit. induction p as [|c p IH]; intros [|d lit] H; try done.
  cbn [map] in H. injection H as Hd Hrest.
  cbn [app matchLiteral]. rewrite Hd, N.eqb_refl. by apply IH.
Qed.

Lemma matchScrip_reads (n : Z) pre ws1 x ws2 lit post :
  0 <= n ->
  Forall (fun c => isDigit c = false) pre ->
  Forall (fun c => isStrWhiteSpaceChar c = true) ws1 ->
  Forall (fun c => isStrWhiteSpaceChar c = true) ws2 ->
  canonicalize x = 88%N ->
  map canonicalize lit = map canonicalize (js "Hinterland Scrip") ->
  matchScrip (pre ++ decimal n ++ ws1 ++ x :: ws2 ++ lit ++ post) = Some (decimal n).
Proof.
  intros Hn Hpre Hws1 Hws2 Hx Hlit.
  rewrite matchScrip_skip by done.
  pose proof (decimal_all_digits n Hn) as Hall.
  pose proof (decimal_not_nil n Hn) as Hne.
  assert (Xc : x = 88%N \/ x = 120%N) by (apply (canonicalize_cases x 88); [done|lia]).
  assert (Xd : isDigit x = false) by (by destruct Xc as [->| ->]).
  assert (Xs : isStrWhiteSpaceChar x = false) by (by destruct Xc as [->| ->]).
  set (tail := ws1 ++ x :: ws2 ++ lit ++ post).
  assert (Htail : spanDigits tail = ([], tail)).
  { subst tail. destruct Hws1 as [|c ws1 Hc _]; cbn [app spanDigits]; [by rewrite Xd|].
    destruct (isDigit c) eqn:Hd; [|done]. by rewrite (digit_not_space c Hd) in Hc. }
  assert (Hmatch : matchTail tail = true).
  { subst tail. unfold matchTail. rewrite trimStart_spaces by done.
    cbn [trimStart]. rewrite Xs.
    change (js "x") with [120%N]. cbn [matchLiteral].
    change (canonicalize 120) with 88%N. rewrite Hx, N.eqb_refl.
    rewrite trimStart_spaces by done.
    destruct lit as [|h lit]; [done|].
    assert (Hh : h = 72%N \/ h = 104%N).
    { apply (canonicalize_cases h 72); [|lia]. cbn in Hlit. by injection Hlit. }
    assert (Hs : isStrWhiteSpaceChar h = false) by (by destruct Hh as [->| ->]).
    cbn [app trimStart]. rewrite Hs.
    change (h :: lit ++ post) with ((h :: lit) ++ post).
    rewrite matchLiteral_app by done. by apply bool_decide_eq_true_2. }
  destruct (decimal n) as [|c ds] eqn:E; [done|].
  cbn [app]. rewrite matchScrip_cons. change (c :: ds ++ tail) with ((c :: ds) ++ tail).
  rewrite spanDigits_app, Htail by done. cbn [fst snd]. by rewrite app_nil_r, Hmatch.
Qed.

(** X23.  [parseScripPrice] reads the number in front of the words: after a
    text without digits, a natural number below [2 ^ 53] in decimal digits,
    the letter x and the words "Hinterland Scrip" in any mix of upper and
    lower case, with any white space (also none) on either side of the x,
    and anything after the words. *)
Theorem parseScripPrice_reads (n : Z) pre ws1 x ws2 lit post :
  0 <= n < 2 ^ 53 ->
  Forall (fun c => isDigit c = false) pre ->
  Forall (fun c => isStrWhiteSpaceChar c = true) ws1 ->
  Forall (fun c => isStrWhiteSpaceChar c = true) ws2 ->
  canonicalize x = 88%N ->
  map canonicalize lit = map canonicalize (js "Hinterland Scrip") ->
  parseScripPrice (pre ++ decimal n ++ ws1 ++ x :: ws2 ++ lit ++ post) = of_Z n.
Proof.
  intros [Hn Hlt] Hpre Hws1 Hws2 Hx Hlit. unfold parseScripPrice.
  rewrite matchScrip_reads by done. by apply parseInt10_digits.
Qed.

End ScripPrices.

(** ** The items of the page and the totals *)

Section PageTotals.
Import JS BazaarTotal BazaarPage Rendering.
Open Scope Z_scope.

Lemma readItem_uncounted acc item : counted item = false -> readItem acc item = acc.
Proof.
  destruct acc as [echoItems scripItems]. unfold counted, readItem.
  destruct (js_item_value item) as [qtyEl|]; [|done].
  destruct (item__price item) as [priceEl|]; [done|].
  destruct (item__desc item) as [descEl|]; [|done]. by intros ->.
Qed.

Lemma fold_readItem_counted items acc :
  fold_left readItem (filter (fun item => counted item = true) items) acc
    = fold_left readItem items acc.
Proof.
  revert acc. induction items as [|item items IH]; intros acc; [done|].
  rewrite filter_cons. cbn [fold_left]. destruct (counted item) eqn:E.
  - rewrite decide_True by done. cbn [fold_left]. apply IH.
  - rewrite decide_False by done. rewrite readItem_uncounted by done. apply IH.
Qed.

(** X24.  Items that the loop does not read leave the totals as they are: an
    item without a quantity element, an item with neither a price element
    nor a description, and an item whose description holds no scrip price
    above 0 can be removed from the page, or added to it anywhere, without a
    change of the result. *)
Theorem calculateTotalsFromDOM_counted items :
  calculateTotalsFromDOM (filter (fun item => counted item = true) items)
    = calculateTotalsFromDOM items.
Proof. unfold calculateTotalsFromDOM. by rewrite fold_readItem_counted. Qed.

Lemma readItem_echoLine echoItems scripItems (line : N * N) :
  safeLine line ->
  readItem (echoItems, scripItems) (echoLine line)
    = (echoItems ++ [integerItem line], scripItems).
Proof.
  intros [Hq Hp]. unfold readItem, echoLine, integerItem.
  cbn [js_item_value item__price textContent default from_option Datatypes.id].
  rewrite (parseQuantity_padded (Z.of_N line.1) _ [] []); try done; try lia.
  - rewrite parsePrice_digits by lia. done.
  - cbn [app]. rewrite app_nil_r. apply removeCommas_thousands_decimal. lia.
Qed.

Lemma gt_zero_of_Z (t : Z) : 0 <= t < 2 ^ 53 -> gt (of_Z t) zero = (0 <? t).
Proof.
  intros [H0 H]. destruct t as [|p|p]; [done| |lia].
  by rewrite of_Z_pos by done.
Qed.

Lemma readItem_scripLine echoItems scripItems (line : N * N) :
  safeLine line ->
  readItem (echoItems, scripItems) (scripLine line)
    = (echoItems,
       scripItems ++ (if 0 <? Z.of_N line.2 then [integerItem line] else [])).
Proof.
  intros [Hq Hp]. unfold readItem, scripLine, integerItem.
  cbn [js_item_value item__price item__desc textContent default from_option Datatypes.id].
  rewrite (parseQuantity_padded (Z.of_N line.1) _ [] []); try done; try lia;
    [|cbn [app]; rewrite app_nil_r; apply removeCommas_thousands_decimal; lia].
  assert (P : parseScripPrice (js "Thigh Bone " ++ decimal (Z.of_N line.2)
                                 ++ js " x Hinterland Scrip") = of_Z (Z.of_N line.2)).
  { unfold parseScripPrice.
    change (js " x Hinterland Scrip")
      with (js " " ++ 120%N :: js " " ++ js "Hinterland Scrip" ++ []).
    rewrite matchScrip_reads; [apply parseInt10_digits; lia|lia| | | |done|done];
      by repeat constructor. }
  rewrite P, gt_zero_of_Z by lia.
  destruct (0 <? Z.of_N line.2); [done|by rewrite app_nil_r].
Qed.

Lemma fold_readItem_page (page : list (N * N + N * N)) echoItems scripItems :
  Forall safeLine (echoLines page) -> Forall safeLine (scripLines page) ->
  fold_left readItem (map pageItem page) (echoItems, scripItems)
    = (echoItems ++ map integerItem (echoLines page),
       scripItems ++ map integerItem
                       (filter (fun line => 0 < Z.of_N line.2) (scripLines page))).
Proof.
  revert echoItems scripItems.
  induction page as [|[line|line] page IH]; intros echoItems scripItems He Hs.
  - cbn. by rewrite !app_nil_r.
  - cbn [echoLines scripLines omap list_omap] in He, Hs |- *.
    apply Forall_cons in He as [Hline He].
    cbn [map fold_left pageItem]. rewrite readItem_echoLine by done.
    fold (echoLines page) (scripLines page). rewrite IH by done.
    by rewrite <- app_assoc.
  - cbn [echoLines scripLines omap list_omap] in He, Hs |- *.
    apply Forall_cons in Hs as [Hline Hs].
    cbn [map fold_left pageItem]. rewrite readItem_scripLine by done.
    fold (echoLines page) (scripLines page). rewrite IH by done.
    rewrite filter_cons. destruct (Z.ltb_spec 0 (Z.of_N line.2)).
    + rewrite decide_True by done. by rewrite <- app_assoc.
    + rewrite decide_False by lia. by rewrite app_nil_r.
Qed.

Lemma exactTotal_priced (lines : list (N * N)) :
  exactTotal (filter (fun line => 0 < Z.of_N line.2) lines) = exactTotal lines.
Proof.
  induction lines as [|line lines IH]; [done|].
  rewrite filter_cons. destruct (decide (0 < Z.of_N line.2)).
  - rewrite !exactTotal_cons. by rewrite IH.
  - rewrite exactTotal_cons, IH. lia.
Qed.

(** X25.  A page of items with quantities and prices that are natural
    numbers below [2 ^ 53], some priced in Echoes and some in scrip, in any
    order: when the exact sums of quantity times price of the two kinds are
    below [2 ^ 53], [calculateTotalsFromDOM] returns these sums, the Echo
    total first, and leaves out a total that is 0. *)
Theorem calculateTotalsFromDOM_whole_numbers (page : list (N * N + N * N)) :
  Forall safeLine (echoLines page) -> Forall safeLine (scripLines page) ->
  exactTotal (echoLines page) < 2 ^ 53 -> exactTotal (scripLines page) < 2 ^ 53 ->
  calculateTotalsFromDOM (map pageItem page)
    = (if 0 <? exactTotal (echoLines page)
       then [mkCurrencyTotal (js "Echoes") (of_Z (exactTotal (echoLines page)))]
       else [])
      ++ (if 0 <? exactTotal (scripLines page)
          then [mkCurrencyTotal (js "Hinterland Scrip")
                  (of_Z (exactTotal (scripLines page)))]
          else []).
Proof.
  intros He Hs Le Ls. unfold calculateTotalsFromDOM.
  rewrite fold_readItem_page by done. cbn [app].
  rewrite !computeTotal_integers;
    rewrite ?exactTotal_priced; try done;
    [|apply Forall_forall; intros line [_ Hin]%list_elem_of_filter;
      by apply (proj1 (Forall_forall _ _) Hs)].
  pose proof (exactTotal_nonneg (echoLines page)).
  pose proof (exactTotal_nonneg (scripLines page)).
  by rewrite !gt_zero_of_Z by lia.
Qed.

Lemma is_double_of_Z (t : Z) : 0 <= t < 2 ^ 53 -> is_double (of_Z t).
Proof.
  intros [H0 H]. destruct t as [|p|p]; [done| |lia].
  rewrite of_Z_pos by done. unfold is_double, integer_double, valid_binary, bounded.
  pose proof (digits_le_53 p H) as Hd.
  pose proof (digits_bounds p) as [_ Dhi].
  apply andb_true_intro. split.
  - unfold canonical_mantissa. apply Z.eqb_eq.
    rewrite integer_mantissa_digits by done. rewrite fexp_small by lia. lia.
  - apply Z.leb_le. unfold emax, prec. lia.
Qed.

Lemma halfUp_of_Z (t : Z) : 0 <= t < 2 ^ 53 -> halfUp 1 (of_Z t) = t.
Proof.
  intros [H0 H]. destruct t as [|p|p]; [done| |lia].
  rewrite of_Z_pos by done. unfold integer_double, halfUp, nearest_scaled.
  pose proof (digits_le_53 p H) as Hd.
  rewrite integer_mantissa by done.
  set (k := 53 - Z.pos (digits2_pos p)) in *.
  replace (Z.pos (digits2_pos p) - 53) with (- k) by lia.
  assert (P : 0 < 2 ^ k) by (apply Z.pow_pos_nonneg; lia).
  destruct (Z.leb_spec 0 (- k)) as [Hk|Hk].
  - assert (k = 0) as -> by lia. cbn. lia.
  - rewrite Z.opp_involutive. replace (1 - - k) with (1 + k) by lia.
    rewrite Z.pow_add_r by lia. change (2 ^ 1) with 2.
    replace (2 * (Z.pos p * 2 ^ k) * 1 + 2 ^ k) with ((2 * Z.pos p + 1) * 2 ^ k) by lia.
    rewrite Z.div_mul_cancel_r by lia.
    symmetry. apply (Z.div_unique _ 2 _ 1); lia.
Qed.

Lemma isFinite_of_Z (t : Z) : 0 <= t < 2 ^ 53 -> isFinite (of_Z t) = true.
Proof.
  intros [H0 H]. destruct t as [|p|p]; [done| |lia]. by rewrite of_Z_pos by done.
Qed.

Lemma mul_hundred (t : Z) :
  0 <= t -> 100 * t < 2 ^ 53 -> mul (of_Z t) (of_Z 100) = of_Z (100 * t).
Proof.
  intros H0 H. destruct t as [|p|p]; [done| |lia].
  rewrite (of_Z_pos p), (of_Z_pos 100) by lia.
  rewrite mul_integer by lia. cbn [xorb].
  replace (100 * Z.pos p) with (Z.pos (p * 100)) by lia. by rewrite of_Z_pos by lia.
Qed.

Lemma renderCents_whole (t : Z) :
  0 <= t -> renderCents (100 * t) = renderWhole t ++ js ".00".
Proof.
  intros H0. unfold renderCents, renderWhole.
  rewrite !Z.abs_eq by lia.
  rewrite (proj2 (Z.ltb_ge _ _)) by lia. rewrite (proj2 (Z.ltb_ge t 0)) by lia.
  replace (100 * t / 100) with t by (by rewrite Z.mul_comm, Z.div_mul).
  assert (D1 : digitChar (100 * t / 10) = 48%N).
  { replace (100 * t) with (10 * t * 10) by lia. rewrite Z.div_mul by lia.
    unfold digitChar. by rewrite Z.mul_comm, Z.mod_mul. }
  assert (D2 : digitChar (100 * t) = 48%N).
  { replace (100 * t) with (10 * t * 10) by lia.
    unfold digitChar. by rewrite Z.mod_mul. }
  by rewrite D1, D2.
Qed.

(** X26.  Totals of whole numbers are shown exactly. For items whose
    quantities and prices are natural numbers below [2 ^ 53], the text for
    the total is the exact sum of quantity times price with thousands
    separators: as a whole number for a scrip total below [2 ^ 49], and
    followed by ".00" for an Echo total below [2 ^ 43]. *)
Theorem integer_totals_render_exactly (lines : list (N * N)) :
  Forall safeLine lines ->
  (exactTotal lines < 2 ^ 49 ->
   formatCurrency (computeTotal (map integerItem lines)) (js "Hinterland Scrip")
     = renderWhole (exactTotal lines) ++ js " Hinterland Scrip")
  /\ (exactTotal lines < 2 ^ 43 ->
      formatCurrency (computeTotal (map integerItem lines)) (js "Echoes")
        = renderWhole (exactTotal lines) ++ js ".00 Echoes").
Proof.
  intros Hsafe. pose proof (exactTotal_nonneg lines) as H0.
  assert (P49 : 2 ^ 49 < 2 ^ 53) by (vm_compute; reflexivity).
  assert (P43 : 100 * 2 ^ 43 < 2 ^ 50) by (vm_compute; reflexivity).
  assert (P50 : 2 ^ 50 < 2 ^ 53) by (vm_compute; reflexivity).
  split; intros Hlt.
  - rewrite computeTotal_integers by (done || lia).
    rewrite formatCurrency_whole.
    + by rewrite halfUp_of_Z by lia.
    + apply is_double_of_Z. lia.
    + apply isFinite_of_Z. lia.
    + rewrite halfUp_of_Z by lia. lia.
    + intros H. by vm_compute in H.
  - rewrite computeTotal_integers by (done || lia).
    rewrite formatCurrency_echoes; cbn zeta; rewrite mul_hundred by lia.
    + rewrite halfUp_of_Z by lia. rewrite renderCents_whole by done.
      by rewrite <- app_assoc.
    + apply isFinite_of_Z. lia.
    + rewrite halfUp_of_Z by lia. lia.
Qed.

End PageTotals.

Lemma parseQuantity_reads_thousands_witness :
  (0 <= 3966 < 2 ^ 53)%Z
  /\ JS.thousands (JS.decimal 3966) = JS.js "3,966"
  /\ BazaarTotal.parseQuantity (JS.js "  " ++ JS.thousands (JS.decimal 3966) ++ JS.js " ")
     = JS.of_Z 3966.
Proof.
  assert (H : (0 <= 3966 < 2 ^ 53)%Z) by (split; [lia|reflexivity]).
  assert (W1 : Forall (fun c => JS.isStrWhiteSpaceChar c = true) (JS.js "  "))
    by (repeat constructor).
  assert (W2 : Forall (fun c => JS.isStrWhiteSpaceChar c = true) (JS.js " "))
    by (repeat constructor).
  exact (conj H (conj eq_refl (parseQuantity_reads_thousands 3966 _ _ H W1 W2))).
Defined.

Lemma parseScripPrice_without_price_witness :
  Forall (fun c => JS.isDigit c = false) (JS.js "Drop of Honey")
  /\ BazaarPage.parseScripPrice (JS.js "Drop of Honey") = JS.zero.
Proof.
  assert (H : Forall (fun c => JS.isDigit c = false) (JS.js "Drop of Honey"))
    by (repeat constructor).
  exact (conj H (parseScripPrice_without_price _ (or_introl H))).
Defined.

Lemma parseScripPrice_reads_witness :
  (0 <= 3 < 2 ^ 53)%Z
  /\ JS.js "Bone " ++ JS.decimal 3 ++ JS.js " " ++ 120%N :: JS.js " " ++ JS.js "hinterland SCRIP" ++ JS.js "!"
     = JS.js "Bone 3 x hinterland SCRIP!"
  /\ BazaarPage.parseScripPrice
       (JS.js "Bone " ++ JS.decimal 3 ++ JS.js " " ++ 120%N :: JS.js " "
          ++ JS.js "hinterland SCRIP" ++ JS.js "!")
     = JS.of_Z 3.
Proof.
  assert (H : (0 <= 3 < 2 ^ 53)%Z) by (split; [lia|reflexivity]).
  assert (P : Forall (fun c => JS.isDigit c = false) (JS.js "Bone "))
    by (repeat constructor).
  assert (W : Forall (fun c => JS.isStrWhiteSpaceChar c = true) (JS.js " "))
    by (repeat constructor).
  exact (conj H (conj eq_refl
           (parseScripPrice_reads 3 _ _ 120%N _ (JS.js "hinterland SCRIP") (JS.js "!")
              H P W W eq_refl eq_refl))).
Defined.

Lemma calculateTotalsFromDOM_whole_numbers_witness :
  let page := [inl (3966, 2); inr (4, 2); inl (10, 62); inr (7, 0)]%N in
  Forall BazaarTotal.safeLine (BazaarPage.echoLines page)
  /\ Forall BazaarTotal.safeLine (BazaarPage.scripLines page)
  /\ BazaarPage.calculateTotalsFromDOM (map BazaarPage.pageItem page)
     = [BazaarPage.mkCurrencyTotal (JS.js "Echoes") (JS.of_Z 8552);
        BazaarPage.mkCurrencyTotal (JS.js "Hinterland Scrip") (JS.of_Z 8)].
Proof.
  intros page.
  assert (H1 : Forall BazaarTotal.safeLine (BazaarPage.echoLines page))
    by (repeat constructor).
  assert (H2 : Forall BazaarTotal.safeLine (BazaarPage.scripLines page))
    by (repeat constructor).
  exact (conj H1 (conj H2
           (calculateTotalsFromDOM_whole_numbers page H1 H2 eq_refl eq_refl))).
Defined.

Lemma integer_totals_render_exactly_witness :
  let lines := [(3966, 2); (10, 62)]%N in
  Forall BazaarTotal.safeLine lines
  /\ (BazaarTotal.exactTotal lines < 2 ^ 43)%Z
  /\ BazaarTotal.formatCurrency
       (BazaarTotal.computeTotal (map BazaarTotal.integerItem lines)) (JS.js "Echoes")
     = JS.js "8,552.00 Echoes".
Proof.
  intros lines.
  assert (H1 : Forall BazaarTotal.safeLine lines)
    by (repeat constructor).
  assert (H2 : (BazaarTotal.exactTotal lines < 2 ^ 43)%Z) by reflexivity.
  destruct (integer_totals_render_exactly lines H1) as [_ E].
  exact (conj H1 (conj H2 (E H2))).
Defined.

(** ** Rounding in general: the result is within two units of the last place *)

Section RoundingError.
Import JS.
Open Scope Z_scope.

Lemma shr_nat_floor (k : nat) (r : shr_record) :
  0 <= shr_m r ->
  0 <= shr_m (Nat.iter k shr_1 r)
  /\ shr_m (Nat.iter k shr_1 r) * 2 ^ Z.of_nat k <= shr_m r
     < (shr_m (Nat.iter k shr_1 r) + 1) * 2 ^ Z.of_nat k.
Proof.
  intros H. induction k as [|k [IH0 IH]].
  - change (Nat.iter 0 shr_1 r) with r. change (2 ^ Z.of_nat 0) with 1. lia.
  - change (Nat.iter (S k) shr_1 r) with (shr_1 (Nat.iter k shr_1 r)). pose proof (shr_1_bounds (Nat.iter k shr_1 r) IH0) as B.
    rewrite Nat2Z.inj_succ, Z.pow_succ_r by lia.
    assert (P : 0 < 2 ^ Z.of_nat k) by (apply Z.pow_pos_nonneg; lia).
    split; [lia|].
    set (a := shr_m (Nat.iter k shr_1 r)) in *.
    set (b := shr_m (shr_1 (Nat.iter k shr_1 r))) in *.
    set (w := 2 ^ Z.of_nat k) in *.
    assert (2 * b * w <= a * w) by (apply Z.mul_le_mono_nonneg_r; lia).
    assert (a * w <= (2 * b + 1) * w) by (apply Z.mul_le_mono_nonneg_r; lia).
    lia.
Qed.

(** One pass of [shr_fexp] on a mantissa of at least 53 bits: the bits
    beyond 53 are dropped. *)
Lemma shr_fexp_far (M : positive) (E : Z) (l : location) :
  2 ^ 52 <= Zpos M -> -1074 <= E ->
  let n := Zpos (digits2_pos M) - 53 in
  exists r,
    shr_fexp prec emax (Zpos M) E l = (r, E + n)
    /\ 0 <= n
    /\ 2 ^ 52 <= shr_m r < 2 ^ 53
    /\ shr_m r * 2 ^ n <= Zpos M < (shr_m r + 1) * 2 ^ n.
Proof.
  intros HM HE n. pose proof (digits_bounds M) as [Dlo Dhi].
  assert (Hd : 53 <= Zpos (digits2_pos M)).
  { destruct (Z.le_gt_cases 53 (Zpos (digits2_pos M))) as [|Hlt]; [done|].
    assert (2 ^ Zpos (digits2_pos M) <= 2 ^ 52) by (apply Z.pow_le_mono_r; lia). lia. }
  unfold shr_fexp. cbn [Zdigits2]. rewrite fexp_small by lia.
  replace (Zpos (digits2_pos M) + E - 53 - E) with n by (subst n; lia).
  assert (Hn : 0 <= n) by (subst n; lia).
  assert (Hpow : 2 ^ (Zpos (digits2_pos M) - 1) = 2 ^ 52 * 2 ^ n).
  { rewrite <- Z.pow_add_r by lia. f_equal. subst n. lia. }
  assert (Hpow' : 2 ^ Zpos (digits2_pos M) = 2 ^ 53 * 2 ^ n).
  { rewrite <- Z.pow_add_r by lia. f_equal. subst n. lia. }
  assert (P : 0 < 2 ^ n) by (apply Z.pow_pos_nonneg; lia).
  destruct n as [|k|k] eqn:En; [| |lia].
  - exists (shr_record_of_loc (Zpos M) l). cbn [shr]. split; [by rewrite Z.add_0_r|].
    rewrite shr_record_of_loc_m. change (2 ^ 0) with 1 in *. lia.
  - eexists. cbn [shr]. split; [reflexivity|].
    rewrite iter_pos_nat.
    pose proof (shr_nat_floor (Pos.to_nat k) (shr_record_of_loc (Zpos M) l)) as F.
    rewrite shr_record_of_loc_m, positive_nat_Z in F. specialize (F ltac:(lia)).
    destruct F as [F0 F]. split; [lia|]. split; [|exact F]. nia.
Qed.

(** Rounding a mantissa of at least 53 bits, whatever the position of the
    discarded part: the result is a normal double within two units of its
    last place of the mantissa that was given. *)
Lemma binary_round_aux_far (s : bool) (M : positive) (E : Z) (l : location) :
  2 ^ 52 <= Zpos M -> -1074 <= E -> Zpos (digits2_pos M) + E <= 1000 ->
  let n := Zpos (digits2_pos M) - 53 in
  exists m e,
    binary_round_aux prec emax s (Zpos M) E l = S754_finite s m e
    /\ 2 ^ 52 <= Zpos m < 2 ^ 53
    /\ E + n <= e <= E + n + 1
    /\ Zpos M - 2 * 2 ^ n <= Zpos m * 2 ^ (e - E) <= Zpos M + 2 ^ n
    /\ 2 ^ 52 * 2 ^ n <= Zpos M.
Proof.
  intros HM HE Hmax n. unfold binary_round_aux.
  destruct (shr_fexp_far M E l HM HE) as (r1 & -> & Hn & Hr1 & Hv1). fold n in Hn, Hv1 |- *.
  pose proof (round_nearest_even_bounds (shr_m r1) (loc_of_shr_record r1)) as Hround.
  set (m1 := round_nearest_even (shr_m r1) (loc_of_shr_record r1)) in *.
  destruct m1 as [|q1|q1] eqn:Em1; [lia| |lia].
  assert (Hq1 : 2 ^ 52 <= Zpos q1 < 2 ^ 54) by (change (2 ^ 54) with (2 * 2 ^ 53); lia).
  destruct (shr_fexp_near q1 (E + n) loc_Exact Hq1 ltac:(lia))
    as (r2 & e2 & -> & He2 & Hr2 & Hv2).
  destruct (shr_m r2) as [|m|m] eqn:Em; [lia| |lia].
  rewrite (proj2 (Z.leb_le e2 (emax - prec))) by (unfold emax, prec; subst n; lia).
  exists m, e2. split; [reflexivity|]. split; [lia|]. split; [lia|].
  assert (P : 0 < 2 ^ n) by (apply Z.pow_pos_nonneg; lia).
  split; [|nia].
  replace (e2 - E) with ((e2 - (E + n)) + n) by lia.
  rewrite Z.pow_add_r by lia.
  assert (G : e2 - (E + n) = 0 \/ e2 - (E + n) = 1) by lia.
  destruct G as [G|G]; rewrite G in *;
    change (2 ^ 0) with 1 in *; change (2 ^ 1) with 2 in *; nia.
Qed.

End RoundingError.

(** ** Exact values of rounded results *)

Section ExactValues.
Import JS Cents.
Open Scope Q_scope.

Lemma pow2_pos (e : Z) : 0 < 2 ^ e.
Proof. by apply Qpower_0_lt. Qed.

Lemma pow2_add (a b : Z) : 2 ^ (a + b) == 2 ^ a * 2 ^ b.
Proof. by apply Qpower_plus. Qed.

Lemma pow2_inject (k : Z) : (0 <= k)%Z -> inject_Z (2 ^ k) == 2 ^ k.
Proof. intros H. by rewrite Zpower_Qpower. Qed.

Lemma pow2_inverse (e : Z) : 2 ^ e * 2 ^ (- e) == 1.
Proof. rewrite <- pow2_add, Z.add_opp_diag_r. reflexivity. Qed.

(** The exponent of a double with a full mantissa, from bounds on its value. *)
Lemma exponent_window (m : positive) (e a b : Z) :
  (2 ^ 52 <= Zpos m < 2 ^ 53)%Z ->
  2 ^ a <= inject_Z (Zpos m) * 2 ^ e <= 2 ^ b ->
  (a - 53 < e <= b - 52)%Z.
Proof.
  intros [Hlo Hhi] [Ha Hb]. pose proof (pow2_pos e) as P.
  rewrite Zle_Qle in Hlo. rewrite Zlt_Qlt in Hhi.
  change (inject_Z (2 ^ 52)) with (2 ^ 52) in Hlo.
  change (inject_Z (2 ^ 53)) with (2 ^ 53) in Hhi.
  split.
  - assert (L : 2 ^ a < 2 ^ (53 + e)).
    { rewrite pow2_add. eapply Qle_lt_trans; [exact Ha|].
      by apply Qmult_lt_compat_r. }
    apply Qpower_lt_compat_l_inv in L; [lia|done].
  - assert (L : 2 ^ (52 + e) <= 2 ^ b).
    { rewrite pow2_add. eapply Qle_trans; [|exact Hb].
      apply Qmult_le_compat_r; [done|]. by apply Qlt_le_weak. }
    apply Qpower_le_compat_l_inv in L; [lia|done].
Qed.

(** Rounding a mantissa of at least 53 bits gives a double with a full
    mantissa whose value is the given one up to a relative error of
    [2 ^ -51] downwards and [2 ^ -52] upwards. *)
Lemma round_value (M : positive) (E : Z) (l : location) :
  (2 ^ 52 <= Zpos M)%Z -> (-1074 <= E)%Z -> (Zpos (digits2_pos M) + E <= 1000)%Z ->
  exists m e,
    binary_round_aux prec emax false (Zpos M) E l = S754_finite false m e
    /\ (2 ^ 52 <= Zpos m < 2 ^ 53)%Z
    /\ inject_Z (Zpos M) * 2 ^ E * (1 - 2 ^ (-51)) <= inject_Z (Zpos m) * 2 ^ e
    /\ inject_Z (Zpos m) * 2 ^ e <= inject_Z (Zpos M) * 2 ^ E * (1 + 2 ^ (-52)).
Proof.
  intros HM HE Hmax.
  destruct (binary_round_aux_far false M E l HM HE Hmax)
    as (m & e & -> & Hm & He & [Hlo Hhi] & Hn).
  exists m, e. split; [done|]. split; [done|].
  set (n := (Zpos (digits2_pos M) - 53)%Z) in *.
  assert (Hd : (0 <= e - E)%Z).
  { pose proof (digits_bounds M) as [_ Dhi].
    assert (53 <= Zpos (digits2_pos M))%Z; [|lia].
    destruct (Z.le_gt_cases 53 (Zpos (digits2_pos M))) as [|Hlt]; [done|].
    assert (2 ^ Zpos (digits2_pos M) <= 2 ^ 52)%Z by (apply Z.pow_le_mono_r; lia). lia. }
  assert (Z1 : ((2 ^ 51 - 1) * Zpos M <= 2 ^ 51 * (Zpos m * 2 ^ (e - E)))%Z) by lia.
  assert (Z2 : (2 ^ 52 * (Zpos m * 2 ^ (e - E)) <= (2 ^ 52 + 1) * Zpos M)%Z) by lia.
  rewrite Zle_Qle, !inject_Z_mult, (pow2_inject (e - E)) in Z1, Z2 by done.
  change (inject_Z (2 ^ 51 - 1)) with 2251799813685247 in Z1.
  change (inject_Z (2 ^ 51)) with 2251799813685248 in Z1.
  change (inject_Z (2 ^ 52 + 1)) with 4503599627370497 in Z2.
  change (inject_Z (2 ^ 52)) with 4503599627370496 in Z2.
  assert (Ee : inject_Z (Zpos m) * 2 ^ e == inject_Z (Zpos m) * 2 ^ (e - E) * 2 ^ E).
  { rewrite <- Qmult_assoc, <- pow2_add. by replace (e - E + E)%Z with e by lia. }
  rewrite Ee. pose proof (pow2_pos E) as P.
  set (A := inject_Z (Zpos M)) in *. set (X := inject_Z (Zpos m) * 2 ^ (e - E)) in *.
  split.
  - assert (R : A * 2 ^ E * (1 - 2 ^ (-51)) == A * (1 - 2 ^ (-51)) * 2 ^ E) by ring.
    rewrite R. apply Qmult_le_compat_r; [lra|lra].
  - assert (R : A * 2 ^ E * (1 + 2 ^ (-52)) == A * (1 + 2 ^ (-52)) * 2 ^ E) by ring.
    rewrite R. apply Qmult_le_compat_r; [lra|lra].
Qed.

Lemma inject_le (a b : Z) : (a <= b)%Z -> inject_Z a <= inject_Z b.
Proof. by rewrite <- Zle_Qle. Qed.

Lemma inject_lt (a b : Z) : (a < b)%Z -> inject_Z a < inject_Z b.
Proof. by rewrite <- Zlt_Qlt. Qed.

Lemma moderate_exponent (m : positive) (e : Z) :
  moderate (S754_finite false m e) ->
  (2 ^ 52 <= Zpos m < 2 ^ 53)%Z /\ (-113 < e <= 8)%Z.
Proof.
  intros [(m' & e' & [= <- <-] & Hm) Hv]. split; [done|].
  exact (exponent_window m e (-60) 60 Hm Hv).
Qed.

(** A positive integer below [2 ^ 53] is held exactly. *)
Lemma of_Z_value (p : positive) :
  (Zpos p < 2 ^ 53)%Z ->
  positiveNormal (of_Z (Zpos p)) /\ value (of_Z (Zpos p)) == inject_Z (Zpos p).
Proof.
  intros Hp. rewrite of_Z_pos by done. unfold integer_double.
  pose proof (integer_mantissa p Hp) as Hm. pose proof (digits_le_53 p Hp) as Hd.
  pose proof (digits_bounds p) as [Dlo Dhi].
  set (d := Zpos (digits2_pos p)) in *.
  set (m := Z.to_pos (Zpos p * 2 ^ (53 - d))) in *.
  assert (P : (0 < 2 ^ (53 - d))%Z) by (apply Z.pow_pos_nonneg; lia).
  split.
  - exists m, (d - 53)%Z. split; [done|]. rewrite Hm.
    replace (2 ^ 52)%Z with (2 ^ (d - 1) * 2 ^ (53 - d))%Z
      by (rewrite <- Z.pow_add_r by lia; f_equal; lia).
    replace (2 ^ 53)%Z with (2 ^ d * 2 ^ (53 - d))%Z
      by (rewrite <- Z.pow_add_r by lia; f_equal; lia).
    split; [apply Z.mul_le_mono_nonneg_r; lia|apply Z.mul_lt_mono_pos_r; lia].
  - cbn [value]. rewrite Hm, inject_Z_mult, pow2_inject by lia.
    rewrite <- Qmult_assoc.
    replace (d - 53)%Z with (- (53 - d))%Z by lia.
    rewrite pow2_inverse. ring.
Qed.

(** The product of two moderate doubles. *)
Lemma mul_value (x y : number) :
  moderate x -> moderate y ->
  positiveNormal (mul x y)
  /\ value x * value y * (1 - 2 ^ (-51)) <= value (mul x y)
  /\ value (mul x y) <= value x * value y * (1 + 2 ^ (-52)).
Proof.
  intros Hx Hy.
  destruct (proj1 Hx) as (mx & ex & -> & _). destruct (proj1 Hy) as (my & ey & -> & _).
  destruct (moderate_exponent _ _ Hx) as [Hmx Hex].
  destruct (moderate_exponent _ _ Hy) as [Hmy Hey].
  unfold mul, SFmul. cbn [xorb value].
  assert (Hlo : (2 ^ 52 <= Zpos (mx * my))%Z) by nia.
  assert (Hhi : (Zpos (mx * my) < 2 ^ 106)%Z)
    by (change (2 ^ 106)%Z with (2 ^ 53 * 2 ^ 53)%Z; nia).
  pose proof (digits_le _ _ Hhi) as Hd.
  destruct (round_value (mx * my) (ex + ey) loc_Exact Hlo ltac:(lia) ltac:(lia))
    as (m & e & -> & Hm & Vlo & Vhi).
  split; [by exists m, e|]. cbn [value].
  assert (V : inject_Z (Zpos (mx * my)) * 2 ^ (ex + ey)
              == inject_Z (Zpos mx) * 2 ^ ex * (inject_Z (Zpos my) * 2 ^ ey)).
  { rewrite Pos2Z.inj_mul, inject_Z_mult, pow2_add. ring. }
  rewrite V in Vlo, Vhi. done.
Qed.

(** The sum of two moderate doubles. *)
Lemma add_value (x y : number) :
  moderate x -> moderate y ->
  positiveNormal (add x y)
  /\ (value x + value y) * (1 - 2 ^ (-51)) <= value (add x y)
  /\ value (add x y) <= (value x + value y) * (1 + 2 ^ (-52)).
Proof.
  intros Hx Hy.
  destruct (proj1 Hx) as (mx & ex & -> & _). destruct (proj1 Hy) as (my & ey & -> & _).
  destruct (moderate_exponent _ _ Hx) as [Hmx Hex].
  destruct (moderate_exponent _ _ Hy) as [Hmy Hey].
  unfold add, SFadd. cbn [cond_Zopp value].
  set (ez := Z.min ex ey).
  pose proof (shl_align_pow2 mx ex ez ltac:(lia)) as Ax.
  pose proof (shl_align_pow2 my ey ez ltac:(lia)) as Ay.
  rewrite <- Pos2Z.inj_add.
  set (S := ((shl_align mx ex ez).1 + (shl_align my ey ez).1)%positive).
  assert (HS : Zpos S = (Zpos mx * 2 ^ (ex - ez) + Zpos my * 2 ^ (ey - ez))%Z)
    by (unfold S; rewrite Pos2Z.inj_add, Ax, Ay; done).
  assert (Px : (1 <= 2 ^ (ex - ez) <= 2 ^ 121)%Z).
  { split; [|apply Z.pow_le_mono_r; lia].
    change 1%Z with (2 ^ 0)%Z. apply Z.pow_le_mono_r; lia. }
  assert (Py : (1 <= 2 ^ (ey - ez) <= 2 ^ 121)%Z).
  { split; [|apply Z.pow_le_mono_r; lia].
    change 1%Z with (2 ^ 0)%Z. apply Z.pow_le_mono_r; lia. }
  assert (Hlo : (2 ^ 52 <= Zpos S)%Z) by nia.
  assert (Hhi : (Zpos S < 2 ^ 175)%Z).
  { change (2 ^ 175)%Z with (2 ^ 53 * 2 ^ 121 + 2 ^ 53 * 2 ^ 121)%Z. nia. }
  pose proof (digits_le _ _ Hhi) as Hd.
  assert (Hd53 : (53 <= Zpos (digits2_pos S))%Z).
  { pose proof (digits_bounds S) as [_ Dhi].
    destruct (Z.le_gt_cases 53 (Zpos (digits2_pos S))) as [|Hlt]; [done|].
    assert (2 ^ Zpos (digits2_pos S) <= 2 ^ 52)%Z by (apply Z.pow_le_mono_r; lia). lia. }
  unfold binary_normalize, binary_round. rewrite fexp_small by lia.
  assert (Ealign : shl_align S ez (Zpos (digits2_pos S) + ez - 53) = (S, ez)).
  { unfold shl_align.
    by destruct (Zpos (digits2_pos S) + ez - 53 - ez)%Z as [|k|k] eqn:Hk; [| |lia]. }
  rewrite Ealign.
  destruct (round_value S ez loc_Exact Hlo ltac:(lia) ltac:(lia))
    as (m & e & -> & Hm & Vlo & Vhi).
  split; [by exists m, e|]. cbn [value].
  assert (V : inject_Z (Zpos S) * 2 ^ ez
              == inject_Z (Zpos mx) * 2 ^ ex + inject_Z (Zpos my) * 2 ^ ey).
  { rewrite HS, inject_Z_plus, !inject_Z_mult, !pow2_inject by lia.
    replace ex with ((ex - ez) + ez)%Z at 2 by lia.
    replace ey with ((ey - ez) + ez)%Z at 2 by lia.
    rewrite !pow2_add. ring. }
  rewrite V in Vlo, Vhi. done.
Qed.

(** A price of [k] hundredths: the double is the quotient [k / 100] up to a
    relative error of [3 * 2 ^ -52] downwards and [2 ^ -52] upwards. *)
Lemma price_value (k : positive) :
  (Zpos k < 2 ^ 53)%Z ->
  positiveNormal (centsPrice (Npos k))
  /\ inject_Z (Zpos k) * (1 # 100) * (1 - 3 * 2 ^ (-52)) <= value (centsPrice (Npos k))
  /\ value (centsPrice (Npos k)) <= inject_Z (Zpos k) * (1 # 100) * (1 + 2 ^ (-52)).
Proof.
  intros Hk. pose proof (digits_le_53 k Hk) as Hd.
  pose proof (digits_bounds k) as [Dlo Dhi].
  unfold centsPrice, of_decimal, of_ratio, SFdiv_core_binary. cbn [Zdigits2].
  change (10 ^ 2)%positive with 100%positive.
  change (digits2_pos 100) with 7%positive.
  set (d := Zpos (digits2_pos k)) in *.
  rewrite fexp_small by lia.
  replace (Z.min (d + 0 - (7 + 0) - 53) (0 - 0))%Z with (d - 60)%Z by lia.
  replace (0 - 0 - (d - 60))%Z with (60 - d)%Z by lia.
  destruct (60 - d)%Z as [|s|s] eqn:Es; [lia| |lia].
  rewrite Z.shiftl_mul_pow2 by lia.
  pose proof (Z_div_mod (Zpos k * 2 ^ Zpos s) 100 ltac:(lia)) as Hdiv.
  destruct (Z.div_eucl (Zpos k * 2 ^ Zpos s) 100) as [q r]. destruct Hdiv as [Hq Hr].
  assert (P59 : (2 ^ (d - 1) * 2 ^ Zpos s = 2 ^ 59)%Z)
    by (rewrite <- Z.pow_add_r by lia; f_equal; lia).
  assert (P60 : (2 ^ d * 2 ^ Zpos s = 2 ^ 60)%Z)
    by (rewrite <- Z.pow_add_r by lia; f_equal; lia).
  assert (P : (0 < 2 ^ Zpos s)%Z) by (apply Z.pow_pos_nonneg; lia).
  assert (Hlo : (2 ^ 59 <= Zpos k * 2 ^ Zpos s)%Z)
    by (rewrite <- P59; apply Z.mul_le_mono_nonneg_r; lia).
  assert (Hhi : (Zpos k * 2 ^ Zpos s < 2 ^ 60)%Z)
    by (rewrite <- P60; apply Z.mul_lt_mono_pos_r; lia).
  assert (Q52 : (2 ^ 52 <= q < 2 ^ 54)%Z) by lia.
  destruct q as [|q|q]; [lia| |lia].
  assert (Q54 : (Zpos q < 2 ^ 54)%Z) by lia.
  pose proof (digits_le _ _ Q54) as Hdq.
  match goal with
  | |- context [binary_round_aux _ _ _ _ _ ?l] =>
      destruct (round_value q (d - 60) l ltac:(lia) ltac:(lia) ltac:(lia))
        as (m & e & -> & Hm & Vlo & Vhi)
  end.
  split; [by exists m, e|]. cbn [value].
  assert (V : inject_Z (Zpos k)
              == (100 * inject_Z (Zpos q) + inject_Z r) * 2 ^ (d - 60)).
  { rewrite <- (Qmult_1_r (inject_Z (Zpos k))), <- (pow2_inverse (Zpos s)).
    rewrite Qmult_assoc, <- (pow2_inject (Zpos s)), <- inject_Z_mult, Hq by lia.
    rewrite inject_Z_plus, inject_Z_mult.
    replace (- Zpos s)%Z with (d - 60)%Z by lia. reflexivity. }
  pose proof (pow2_pos (d - 60)) as Ppos.
  assert (R0 : 0 <= inject_Z r) by (apply (inject_le 0); lia).
  assert (R1 : inject_Z r <= 100) by (apply (inject_le r 100); lia).
  assert (Q1 : 4503599627370496 <= inject_Z (Zpos q)) by (apply (inject_le (2 ^ 52)); lia).
  set (A := inject_Z (Zpos q) * 2 ^ (d - 60)) in *.
  assert (B1 : A <= inject_Z (Zpos k) * (1 # 100)).
  { rewrite V. unfold A.
    assert (R : (100 * inject_Z (Zpos q) + inject_Z r) * 2 ^ (d - 60) * (1 # 100)
                == (inject_Z (Zpos q) + inject_Z r * (1 # 100)) * 2 ^ (d - 60)) by ring.
    rewrite R. apply Qmult_le_compat_r; [lra|lra]. }
  assert (B2 : inject_Z (Zpos k) * (1 # 100) <= A * (1 + 2 ^ (-52))).
  { rewrite V. unfold A.
    assert (R : (100 * inject_Z (Zpos q) + inject_Z r) * 2 ^ (d - 60) * (1 # 100)
                == (inject_Z (Zpos q) + inject_Z r * (1 # 100)) * 2 ^ (d - 60)) by ring.
    rewrite R.
    assert (R' : inject_Z (Zpos q) * 2 ^ (d - 60) * (1 + 2 ^ (-52))
                 == inject_Z (Zpos q) * (1 + 2 ^ (-52)) * 2 ^ (d - 60)) by ring.
    rewrite R'. apply Qmult_le_compat_r; [lra|lra]. }
  split; lra.
Qed.

(** [halfUp 1] of a double whose value is within a half of an integer. *)
Lemma halfUp_value (x : number) (C : Z) :
  positiveNormal x ->
  inject_Z C - (1 # 2) <= value x -> value x < inject_Z C + (1 # 2) ->
  Rendering.halfUp 1 x = C.
Proof.
  intros (m & e & -> & Hm) Hlo Hhi. cbn [value] in Hlo, Hhi.
  unfold Rendering.halfUp, nearest_scaled.
  destruct (Z.leb_spec 0 e) as [He|He].
  - rewrite Z.mul_1_r.
    assert (V : inject_Z (Zpos m * 2 ^ e) == inject_Z (Zpos m) * 2 ^ e)
      by (rewrite inject_Z_mult, pow2_inject by done; reflexivity).
    rewrite <- V in Hlo, Hhi. clear V. generalize dependent (Zpos m * 2 ^ e)%Z.
    intros K Hlo Hhi.
    assert (L1 : inject_Z (2 * C + -1) <= inject_Z (2 * K)).
    { rewrite inject_Z_plus, !inject_Z_mult.
      change (inject_Z 2) with 2. change (inject_Z (-1)) with (-1). lra. }
    assert (L2 : inject_Z (2 * K) < inject_Z (2 * C + 1)).
    { rewrite inject_Z_plus, !inject_Z_mult.
      change (inject_Z 2) with 2. change (inject_Z 1) with 1. lra. }
    rewrite <- Zle_Qle in L1. rewrite <- Zlt_Qlt in L2. lia.
  - set (D := (2 ^ (- e))%Z).
    assert (PD : (0 < D)%Z) by (apply Z.pow_pos_nonneg; lia).
    assert (ED : (2 ^ (1 - e) = 2 * D)%Z).
    { unfold D. replace (1 - e)%Z with (1 + - e)%Z by lia.
      rewrite Z.pow_add_r by lia. done. }
    assert (V : inject_Z (Zpos m) * 2 ^ e * inject_Z D == inject_Z (Zpos m)).
    { unfold D. rewrite pow2_inject by lia.
      rewrite <- Qmult_assoc, pow2_inverse. ring. }
    assert (QD : 0 < inject_Z D) by (apply (inject_lt 0); lia).
    assert (M1 : (inject_Z C - (1 # 2)) * inject_Z D <= inject_Z (Zpos m)).
    { rewrite <- V. apply Qmult_le_compat_r; [done|lra]. }
    assert (M2 : inject_Z (Zpos m) < (inject_Z C + (1 # 2)) * inject_Z D).
    { rewrite <- V. by apply Qmult_lt_compat_r. }
    assert (L1 : inject_Z (2 * C * D + - D) <= inject_Z (2 * Zpos m)).
    { rewrite inject_Z_plus, inject_Z_opp, !inject_Z_mult.
      change (inject_Z 2) with 2. lra. }
    assert (L2 : inject_Z (2 * Zpos m) < inject_Z (2 * C * D + D)).
    { rewrite inject_Z_plus, !inject_Z_mult. change (inject_Z 2) with 2. lra. }
    rewrite <- Zle_Qle in L1. rewrite <- Zlt_Qlt in L2.
    rewrite ED. symmetry.
    apply (Z.div_unique _ _ _ (2 * Zpos m * 1 + D - 2 * D * C)); [left|]; lia.
Qed.

Lemma withinSteps_succ (k : nat) (sum : number) (cents : Z) :
  withinSteps k sum cents -> withinSteps (S k) sum cents.
Proof.
  intros [H|(H0 & Hn & Hlo & Hhi)]; [by left|right].
  split; [done|]. split; [done|].
  rewrite Nat2Z.inj_succ. unfold Z.succ. rewrite inject_Z_plus.
  change (inject_Z 1) with 1.
  assert (0 <= inject_Z (Z.of_nat k)) by (apply (inject_le 0); lia).
  split; lra.
Qed.

Lemma add_zero_r (sum : number) (cents : Z) (k : nat) :
  withinSteps k sum cents -> add sum zero = sum.
Proof. by intros [[_ ->]|(_ & (m & e & -> & _) & _)]. Qed.

(** One more line: the running sum keeps standing for the exact total. *)
Lemma withinSteps_line (k : nat) (sum : number) (cents : Z) (line : N * N) :
  BazaarTotal.safeLine line ->
  (cents + Z.of_N line.1 * Z.of_N line.2 < 2 ^ 32)%Z -> (Z.of_nat k < 32768)%Z ->
  withinSteps k sum cents ->
  withinSteps (S k)
    (add sum (mul (BazaarTotal.quantity (centsItem line))
                  (BazaarTotal.price (centsItem line))))
    (cents + Z.of_N line.1 * Z.of_N line.2).
Proof.
  destruct line as [q c]. unfold BazaarTotal.safeLine, centsItem.
  cbn [fst snd BazaarTotal.quantity BazaarTotal.price].
  intros [Hq Hc] Htotal Hk Hsum.
  assert (Hcents : (0 <= cents)%Z) by (destruct Hsum as [[-> _]|[? _]]; lia).
  destruct q as [|q].
  { replace (mul (of_Z (Z.of_N 0)) (centsPrice c)) with zero.
    - rewrite (add_zero_r _ _ _ Hsum).
      replace (cents + Z.of_N 0 * Z.of_N c)%Z with cents by lia.
      by apply withinSteps_succ.
    - destruct c as [|c]; [done|].
      by destruct (proj1 (price_value c Hc)) as (m & e & -> & _). }
  destruct c as [|c].
  { replace (mul (of_Z (Z.of_N (Npos q))) (centsPrice 0)) with zero.
    - rewrite (add_zero_r _ _ _ Hsum).
      replace (cents + Z.of_N (Npos q) * Z.of_N 0)%Z with cents by lia.
      by apply withinSteps_succ.
    - cbn [Z.of_N]. by destruct (proj1 (of_Z_value q Hq)) as (m & e & -> & _). }
  cbn [Z.of_N] in *.
  destruct (of_Z_value q Hq) as [Nq Vq].
  destruct (price_value c Hc) as (Nc & Clo & Chi).
  set (x := of_Z (Zpos q)) in *. set (y := centsPrice (Npos c)) in *.
  assert (Tq : (1 <= Zpos q)%Z) by lia. assert (Tc : (1 <= Zpos c)%Z) by lia.
  assert (Tqc : (1 <= Zpos q * Zpos c)%Z) by nia.
  assert (Uq : (Zpos q < 2 ^ 32)%Z) by nia.
  assert (Uc : (Zpos c < 2 ^ 32)%Z) by nia.
  pose proof (inject_le _ _ Tq) as Iq. pose proof (inject_le _ _ Tc) as Ic.
  pose proof (inject_lt _ _ Uq) as Jq. pose proof (inject_lt _ _ Uc) as Jc.
  pose proof (inject_le _ _ Tqc) as It. pose proof (inject_lt _ _ Htotal) as Jt.
  pose proof (inject_le _ _ Hcents) as I0.
  rewrite inject_Z_plus in Jt. rewrite inject_Z_mult in It, Jt.
  change (inject_Z 1) with 1 in *. change (inject_Z 0) with 0 in *.
  change (inject_Z (2 ^ 32)) with 4294967296 in *.
  assert (Mx : moderate x) by (split; [done|]; rewrite Vq; lra).
  assert (My : moderate y) by (split; [done|]; lra).
  destruct (mul_value x y Mx My) as (Nl & Llo & Lhi).
  set (l := mul x y) in *.
  assert (Wlo : inject_Z (Zpos q) * inject_Z (Zpos c) * (1 # 100) * (1 - 3 * 2 ^ (-52))
                <= value x * value y).
  { rewrite Vq.
    assert (R : inject_Z (Zpos q) * inject_Z (Zpos c) * (1 # 100) * (1 - 3 * 2 ^ (-52))
                == inject_Z (Zpos q) * (inject_Z (Zpos c) * (1 # 100) * (1 - 3 * 2 ^ (-52))))
      by ring.
    rewrite R. apply Qmult_le_l; [lra|done]. }
  assert (Whi : value x * value y
                <= inject_Z (Zpos q) * inject_Z (Zpos c) * (1 # 100) * (1 + 2 ^ (-52))).
  { rewrite Vq.
    assert (R : inject_Z (Zpos q) * inject_Z (Zpos c) * (1 # 100) * (1 + 2 ^ (-52))
                == inject_Z (Zpos q) * (inject_Z (Zpos c) * (1 # 100) * (1 + 2 ^ (-52))))
      by ring.
    rewrite R. apply Qmult_le_l; [lra|done]. }
  set (T := inject_Z (Zpos q) * inject_Z (Zpos c)) in *.
  set (W := value x * value y) in *.
  assert (Kk : inject_Z (Z.of_nat k) <= 32767) by (apply (inject_le _ 32767); lia).
  assert (K0 : 0 <= inject_Z (Z.of_nat k)) by (apply (inject_le 0); lia).
  assert (KS : inject_Z (Z.of_nat (S k)) == inject_Z (Z.of_nat k) + 1).
  { rewrite Nat2Z.inj_succ. unfold Z.succ. by rewrite inject_Z_plus. }
  right. split; [lia|].
  destruct Hsum as [[-> ->]|(H0 & Nsum & Slo & Shi)].
  - replace (add zero l) with l by (by destruct Nl as (m & e & -> & _)).
    split; [done|].
    rewrite KS, inject_Z_plus, inject_Z_mult. fold T. change (inject_Z 0) with 0.
    split; lra.
  - pose proof (inject_lt _ _ H0) as IE. change (inject_Z 0) with 0 in IE.
    assert (IE1 : 1 <= inject_Z cents) by (apply (inject_le 1); lia).
    assert (Ms : moderate sum) by (split; [done|]; lra).
    assert (Ml : moderate l) by (split; [done|]; lra).
    destruct (add_value sum l Ms Ml) as (Nr & Rlo & Rhi).
    split; [done|].
    rewrite KS, inject_Z_plus, inject_Z_mult. fold T.
    split; lra.
Qed.

Lemma withinSteps_fold (lines : list (N * N)) :
  forall (k : nat) (sum : number) (cents : Z),
  Forall BazaarTotal.safeLine lines ->
  (cents + BazaarTotal.exactTotal lines < 2 ^ 32)%Z ->
  (Z.of_nat (k + length lines) <= 32768)%Z ->
  withinSteps k sum cents ->
  withinSteps (k + length lines)
    (fold_left (fun sum item =>
                  add sum (mul (BazaarTotal.quantity item) (BazaarTotal.price item)))
               (map centsItem lines) sum)
    (cents + BazaarTotal.exactTotal lines).
Proof.
  induction lines as [|line lines IH]; intros k sum cents Hsafe Htotal Hk Hsum.
  - cbn. by rewrite Nat.add_0_r, Z.add_0_r.
  - apply Forall_cons in Hsafe as [Hline Hsafe].
    rewrite exactTotal_cons in Htotal |- *. cbn [length map fold_left] in Hk |- *.
    pose proof (exactTotal_nonneg lines) as Hrest.
    replace (k + S (length lines))%nat with (S k + length lines)%nat by lia.
    rewrite Z.add_assoc. apply IH; [done|lia|lia|].
    apply withinSteps_line; [done|lia|lia|done].
Qed.

End ExactValues.

(** ** Echo totals of prices with two decimals *)

Section CentPrices.
Import JS BazaarTotal BazaarPage Rendering Cents.
Open Scope Z_scope.

Lemma centsPrice_not_NaN (c : N) : Z.of_N c < 2 ^ 53 -> isNaN (centsPrice c) = false.
Proof.
  intros H. destruct c as [|k]; [done|].
  by destruct (proj1 (price_value k H)) as (m & e & -> & _).
Qed.

Lemma trim_centsText (c : N) : trim (centsText c) = centsText c.
Proof.
  pose proof (decimal_all_digits (Z.of_N c / 100) ltac:(apply Z.div_pos; lia)) as Hall.
  pose proof (decimal_not_nil (Z.of_N c / 100) ltac:(apply Z.div_pos; lia)) as Hne.
  unfold trim, trimEnd, centsText. rewrite trimStart_digits by done.
  set (ds := decimal (Z.of_N c / 100)).
  change (46%N :: [digitChar (Z.of_N c / 10); digitChar (Z.of_N c)])
    with ([46%N; digitChar (Z.of_N c / 10)] ++ [digitChar (Z.of_N c)]).
  rewrite app_assoc, rev_unit. cbn [trimStart].
  rewrite digit_not_space by apply isDigit_digitChar.
  change (digitChar (Z.of_N c) :: rev (ds ++ [46%N; digitChar (Z.of_N c / 10)]))
    with (rev [digitChar (Z.of_N c)] ++ rev (ds ++ [46%N; digitChar (Z.of_N c / 10)])).
  by rewrite <- rev_app_distr, rev_involutive.
Qed.

(** [parsePrice] reads a price written with two decimals as the double for
    that many hundredths. *)
Lemma parsePrice_centsText (c : N) :
  Z.of_N c < 2 ^ 53 -> parsePrice (centsText c) = centsPrice c.
Proof.
  intros Hc. unfold parsePrice. rewrite trim_centsText.
  assert (P : parseFloat (centsText c) = centsPrice c);
    [|by rewrite P, centsPrice_not_NaN].
  assert (H0 : 0 <= Z.of_N c / 100) by (apply Z.div_pos; lia).
  pose proof (decimal_all_digits _ H0) as Hall. pose proof (decimal_not_nil _ H0) as Hne.
  pose proof (digitsValue_decimal _ H0) as Hvalue.
  unfold parseFloat, centsText. rewrite trimStart_digits by done.
  set (d1 := digitChar (Z.of_N c / 10)). set (d2 := digitChar (Z.of_N c)).
  assert (Hd1 : isDigit d1 = true) by apply isDigit_digitChar.
  assert (Hd2 : isDigit d2 = true) by apply isDigit_digitChar.
  destruct (decimal (Z.of_N c / 100)) as [|c0 ds] eqn:E; [done|].
  assert (Hc0 : isDigit c0 = true) by (by inversion Hall).
  cbn [app]. rewrite spanSign_digit by done.
  assert (Hinf : startsWith (js "Infinity") (c0 :: ds ++ [46%N; d1; d2]) = false).
  { unfold startsWith. apply bool_decide_eq_false_2. intros H.
    assert (Hc73 : c0 = 73%N).
    { change (js "Infinity") with (73%N :: js "nfinity") in H.
      cbn [length take] in H. by injection H. }
    by subst c0. }
  rewrite Hinf. change (c0 :: ds ++ [46%N; d1; d2]) with ((c0 :: ds) ++ [46%N; d1; d2]).
  rewrite spanDigits_app by done.
  change (spanDigits [46%N; d1; d2]) with (@nil N, [46%N; d1; d2]). cbn [fst snd].
  rewrite app_nil_r.
  rewrite (spanDigits_all [d1; d2]) by (by repeat constructor).
  change (spanExponent [] - Z.of_nat (length [d1; d2])) with (-2).
  assert (V : digitsValue ((c0 :: ds) ++ [d1; d2]) = Z.of_N c).
  { change [d1; d2] with ([d1] ++ [d2]). rewrite app_assoc, !digitsValue_snoc, Hvalue.
    unfold d1, d2. rewrite !digitChar_value by (lia || apply Z.div_pos; lia).
    pose proof (Z.div_mod (Z.of_N c) 10 ltac:(lia)).
    pose proof (Z.div_mod (Z.of_N c / 10) 10 ltac:(lia)).
    rewrite Z.div_div in * by lia. change (10 * 10) with 100 in *. lia. }
  destruct ((c0 :: ds) ++ [d1; d2]) as [|c1 digits] eqn:E'; [done|].
  rewrite V. by destruct c.
Qed.

Lemma readItem_centsLine echoItems scripItems (line : N * N) :
  safeLine line ->
  readItem (echoItems, scripItems) (centsLine line)
    = (echoItems ++ [centsItem line], scripItems).
Proof.
  intros [Hq Hp]. unfold readItem, centsLine, centsItem.
  cbn [js_item_value item__price textContent default from_option Datatypes.id].
  rewrite (parseQuantity_padded (Z.of_N line.1) _ [] []); try done; try lia.
  - by rewrite parsePrice_centsText.
  - cbn [app]. rewrite app_nil_r. apply removeCommas_thousands_decimal. lia.
Qed.

Lemma fold_readItem_centsLines (lines : list (N * N)) echoItems scripItems :
  Forall safeLine lines ->
  fold_left readItem (map centsLine lines) (echoItems, scripItems)
    = (echoItems ++ map centsItem lines, scripItems).
Proof.
  revert echoItems. induction lines as [|line lines IH]; intros echoItems Hsafe.
  - cbn. by rewrite app_nil_r.
  - apply Forall_cons in Hsafe as [Hline Hsafe]. cbn [map fold_left].
    rewrite readItem_centsLine, IH by done. by rewrite <- app_assoc.
Qed.

(** X27.  Echo totals of prices with two decimals are shown exactly. For a
    page of at most 32768 items priced in Echoes, each with a whole quantity
    and a price in whole hundredths, whose exact total is below [2 ^ 32]
    hundredths: [calculateTotalsFromDOM] returns one Echo total (none when
    the exact total is 0), and the text that [formatCurrency] makes of it is
    the exact total, although the prices and the running sum are rounded
    doubles. *)
Theorem cent_prices_total_exact (lines : list (N * N)) :
  Forall safeLine lines ->
  Z.of_nat (length lines) <= 32768 ->
  exactTotal lines < 2 ^ 32 ->
  calculateTotalsFromDOM (map centsLine lines)
    = (if 0 <? exactTotal lines
       then [mkCurrencyTotal (js "Echoes") (computeTotal (map centsItem lines))]
       else [])
  /\ formatCurrency (computeTotal (map centsItem lines)) (js "Echoes")
       = renderCents (exactTotal lines) ++ js " Echoes".
Proof.
  intros Hsafe Hlen Htotal.
  pose proof (withinSteps_fold lines 0 zero 0 Hsafe ltac:(lia) ltac:(cbn [Nat.add]; lia)
                ltac:(by left)) as H.
  rewrite Z.add_0_l in H. change (0 + length lines)%nat with (length lines) in H.
  fold (computeTotal (map centsItem lines)) in H.
  set (t := computeTotal (map centsItem lines)) in *.
  set (C := exactTotal lines) in *.
  unfold calculateTotalsFromDOM. rewrite fold_readItem_centsLines by done.
  cbn [app]. fold t. change (gt (computeTotal []) zero) with false.
  destruct H as [[HC Ht]|(HC & Nt & Tlo & Thi)].
  - rewrite HC, Ht. split; [done|]. by vm_compute.
  - rewrite (proj2 (Z.ltb_lt 0 C)) by done.
    assert (G : gt t zero = true) by (by destruct Nt as (m & e & -> & _)).
    rewrite G. split; [by rewrite app_nil_r|].
    assert (IC : (1 <= inject_Z C)%Q) by (apply (inject_le 1); lia).
    assert (JC : (inject_Z C < 4294967296)%Q) by (apply (inject_lt C (2 ^ 32)); lia).
    assert (IL : (inject_Z (Z.of_nat (length lines)) <= 32768)%Q)
      by (apply (inject_le _ 32768); lia).
    assert (I0 : (0 <= inject_Z (Z.of_nat (length lines)))%Q)
      by (apply (inject_le 0); lia).
    assert (Mt : moderate t) by (split; [done|]; lra).
    destruct (of_Z_value 100 ltac:(done)) as [Nh Vh].
    assert (Mh : moderate (of_Z 100)).
    { split; [done|]. rewrite Vh. change (inject_Z 100) with 100%Q. lra. }
    destruct (mul_value t (of_Z 100) Mt Mh) as (Np & Plo & Phi).
    rewrite Vh in Plo, Phi. change (inject_Z 100) with 100%Q in Plo, Phi.
    assert (K : halfUp 1 (mul t (of_Z 100)) = C) by (apply halfUp_value; [done|lra|lra]).
    rewrite formatCurrency_echoes.
    + by rewrite K.
    + by destruct Np as (m & e & -> & _).
    + rewrite K. lia.
Qed.

End CentPrices.

Lemma cent_prices_total_exact_witness :
  let lines := [(3966, 1); (7, 1250); (12, 0)]%N in
  Forall BazaarTotal.safeLine lines
  /\ (Z.of_nat (length lines) <= 32768)%Z
  /\ (BazaarTotal.exactTotal lines < 2 ^ 32)%Z
  /\ BazaarPage.calculateTotalsFromDOM (map Cents.centsLine lines)
     = [BazaarPage.mkCurrencyTotal (JS.js "Echoes")
          (BazaarTotal.computeTotal (map Cents.centsItem lines))]
  /\ BazaarTotal.formatCurrency
       (BazaarTotal.computeTotal (map Cents.centsItem lines)) (JS.js "Echoes")
     = JS.js "127.16 Echoes".
Proof.
  intros lines.
  assert (H1 : Forall BazaarTotal.safeLine lines) by (repeat constructor).
  assert (H2 : (Z.of_nat (length lines) <= 32768)%Z) by (cbn; lia).
  assert (H3 : (BazaarTotal.exactTotal lines < 2 ^ 32)%Z) by reflexivity.
  exact (conj H1 (conj H2 (conj H3 (cent_prices_total_exact lines H1 H2 H3)))).
Defined.

